(** * Flight search: result filter and price-trend aggregator

    A shallow embedding of [src/utils/flightUtils.ts] (filterFlights,
    extractPriceData), [src/services/amadeusApi.ts] (getAccessToken,
    searchFlights, getPriceForDate) and the search handler of [App.tsx]
    (handleSearch), with the properties of the specification stated over
    it.

    Conventions of the embedding.
    - A JavaScript [number] is [JS.number]: NaN, the two infinities, or a
      finite value.  Finite values are the rationals they denote; the
      results of [+], [/] and [parseFloat] are rounded to binary64
      ([JS.binary64]: to nearest, ties to the even significand, an
      infinity beyond the largest finite value).  The sign of zero is not
      modelled.
    - A [Date] holds a time value in milliseconds of local wall-clock time,
      or is the Invalid Date.  The local zone has no daylight-saving
      transitions, and the clip of time values to +-8.64e15 ms is left out.
    - date-fns is an external dependency.  [format] with the pattern
      yyyy-MM-dd and [addDays] are written out; [parseISO] is a parameter
      of the aggregator, and [DateFns.parseISO_local] implements the
      calendar-date and local date-time forms of ISO 8601.
    - An async function is its run-to-completion result; a rejected promise
      is [Throw].  Inside the aggregator the imported [getPriceForDate] is a
      parameter that tells how each call settles; the function itself is
      modelled in [AmadeusApi] against a scripted endpoint.
    - Loops that the source does not bound take fuel; [None] is fuel that
      ran out, and the theorems show when it does not.
    - [Store] writes the two functions of [flightUtils.ts] once more over a
      store of shared objects, for the statements about mutation.

    Layout: numbers, dates, the data model, the functions of the source
    with the contracts they are compared to, sample inputs; then the
    properties. *)

From Stdlib Require Import ZArith QArith Qround Lia Lqa Bool Ascii Sorted.
From stdpp Require Import base option list strings pretty gmap.

Local Open Scope Z_scope.

(** ** JavaScript numbers *)

Module JS.

Inductive number : Type :=
| NaN
| NegInf
| PosInf
| Fin (q : Q).

Definition of_Z (z : Z) : number := Fin (inject_Z z).
Definition of_nat (n : nat) : number := of_Z (Z.of_nat n).

(** [x > y] *)
Definition gt (x y : number) : bool :=
  match x, y with
  | NaN, _ | _, NaN => false
  | NegInf, _ => false
  | _, PosInf => false
  | PosInf, _ => true
  | Fin _, NegInf => true
  | Fin a, Fin b => negb (Qle_bool a b)
  end.

(** [x < y] *)
Definition lt (x y : number) : bool := gt y x.

(** [x <= y] *)
Definition le (x y : number) : bool :=
  match x, y with
  | NaN, _ | _, NaN => false
  | NegInf, _ => true
  | _, PosInf => true
  | PosInf, _ => false
  | Fin _, NegInf => false
  | Fin a, Fin b => Qle_bool a b
  end.

(** [x === y] on numbers *)
Definition strict_eq (x y : number) : bool :=
  match x, y with
  | NegInf, NegInf => true
  | PosInf, PosInf => true
  | Fin a, Fin b => Qeq_bool a b
  | _, _ => false
  end.

(** [x !== y] on numbers *)
Definition strict_ne (x y : number) : bool := negb (strict_eq x y).

(** *** Rounding to binary64 *)

(** [n / d] rounded to an integer, ties to the even one ([0 <= n],
    [0 < d]). *)
Definition round_half_even (n d : Z) : Z :=
  let q := n / d in
  match 2 * (n mod d) ?= d with
  | Lt => q
  | Gt => q + 1
  | Eq => if Z.even q then q else q + 1
  end.

(** The exponent of the binade of [n / d]: the [lg] with
    [2 ^ lg <= n / d < 2 ^ (lg + 1)] ([0 < n], [0 < d]). *)
Definition binade (n d : Z) : Z :=
  let k := Z.log2 n - Z.log2 d in
  let reached :=
    if 0 <=? k then d * 2 ^ k <=? n else d <=? n * 2 ^ (- k) in
  if reached then k else k - 1.

(** The binary64 value of a rational: the nearest number with a 53-bit
    significand and an exponent of at least -1074 (so that small values
    are subnormal, or zero), ties to the even significand; a value that
    rounds to [2 ^ 1024] or more becomes an infinity. *)
Definition binary64 (q : Q) : number :=
  let n := Z.abs (Qnum q) in
  let d := Zpos (Qden q) in
  if n =? 0 then Fin 0
  else
    let e := Z.max (binade n d - 52) (- 1074) in
    let m :=
      if 0 <=? e then round_half_even n (d * 2 ^ e)
      else round_half_even (n * 2 ^ (- e)) d in
    let negative := Qnum q <? 0 in
    if (0 <=? e) && (2 ^ 1024 <=? m * 2 ^ e)
    then (if negative then NegInf else PosInf)
    else
      let magnitude :=
        if 0 <=? e then inject_Z (m * 2 ^ e)
        else Qred (Qmake m (Z.to_pos (2 ^ (- e)))) in
      Fin (if negative then Qopp magnitude else magnitude).

(** [x + y] *)
Definition add (x y : number) : number :=
  match x, y with
  | NaN, _ | _, NaN => NaN
  | PosInf, NegInf | NegInf, PosInf => NaN
  | PosInf, _ | _, PosInf => PosInf
  | NegInf, _ | _, NegInf => NegInf
  | Fin a, Fin b => binary64 (a + b)
  end.

Definition sign_inf (pos : bool) : number := if pos then PosInf else NegInf.

(** [x / y] *)
Definition div (x y : number) : number :=
  match x, y with
  | NaN, _ | _, NaN => NaN
  | (PosInf | NegInf), (PosInf | NegInf) => NaN
  | PosInf, Fin b => sign_inf (Qle_bool 0 b)
  | NegInf, Fin b => sign_inf (negb (Qle_bool 0 b))
  | Fin _, (PosInf | NegInf) => Fin 0
  | Fin a, Fin b =>
      if Qeq_bool b 0 then
        if Qeq_bool a 0 then NaN else sign_inf (Qle_bool 0 a)
      else binary64 (a / b)
  end.

(** [Math.round(x)]: the nearest integer, ties towards +Infinity. *)
Definition Math_round (x : number) : number :=
  match x with
  | Fin q => of_Z (Qfloor (q + (1 # 2)))
  | _ => x
  end.

(** One step of [Math.max]: the running maximum [highest] is replaced only
    by a strictly greater value; NaN is absorbing. *)
Definition max2 (highest x : number) : number :=
  match highest, x with
  | NaN, _ | _, NaN => NaN
  | _, _ => if gt x highest then x else highest
  end.

Definition min2 (lowest x : number) : number :=
  match lowest, x with
  | NaN, _ | _, NaN => NaN
  | _, _ => if lt x lowest then x else lowest
  end.

(** [Math.max(...xs)] and [Math.min(...xs)] *)
Definition Math_max (xs : list number) : number := foldl max2 NegInf xs.
Definition Math_min (xs : list number) : number := foldl min2 PosInf xs.

(** *** parseFloat *)

Definition is_digit (c : ascii) : bool :=
  let n := nat_of_ascii c in (48 <=? n)%nat && (n <=? 57)%nat.

Definition digit_val (c : ascii) : Z := Z.of_nat (nat_of_ascii c) - 48.

(** White space and line terminators of the ASCII range. *)
Definition is_space (c : ascii) : bool :=
  let n := nat_of_ascii c in
  ((9 <=? n)%nat && (n <=? 13)%nat) || (n =? 32)%nat.

Fixpoint skip_space (s : string) : string :=
  match s with
  | String c r => if is_space c then skip_space r else s
  | EmptyString => s
  end.

(** The longest prefix of decimal digits with the rest of the string. *)
Fixpoint span_digits (s : string) : list ascii * string :=
  match s with
  | String c r =>
      if is_digit c then let '(ds, r') := span_digits r in (c :: ds, r')
      else ([], s)
  | EmptyString => ([], s)
  end.

Definition digits_value (ds : list ascii) : Z :=
  foldl (fun acc c => 10 * acc + digit_val c) 0 ds.

Definition starts_with (p s : string) : bool := String.prefix p s.

Definition split_sign (s : string) : bool * string :=
  match s with
  | String "-" r => (true, r)
  | String "+" r => (false, r)
  | _ => (false, s)
  end.

(** The exponent part: [e] or [E], an optional sign and at least one digit;
    anything else is not part of the literal. *)
Definition exponent (s : string) : Z :=
  match s with
  | String c r =>
      if (Ascii.eqb c "e" || Ascii.eqb c "E")%bool then
        let '(neg, r1) := split_sign r in
        let '(ds, _) := span_digits r1 in
        match ds with
        | [] => 0
        | _ => if neg then - digits_value ds else digits_value ds
        end
      else 0
  | EmptyString => 0
  end.

(** [parseFloat(s)]: the value of the longest prefix of the trimmed string
    that is a decimal literal, NaN when there is none. *)
Definition parseFloat (s : string) : number :=
  let '(neg, r) := split_sign (skip_space s) in
  if starts_with "Infinity" r then (if neg then NegInf else PosInf)
  else
    let '(ip, r1) := span_digits r in
    let '(fp, r2) :=
      match r1 with
      | String "." r1' => span_digits r1'
      | _ => ([], r1)
      end in
    match ip, fp with
    | [], [] => NaN
    | _, _ =>
        let mant := inject_Z (digits_value (ip ++ fp)) in
        let scale := exponent r2 - Z.of_nat (length fp) in
        let v := (mant * Qpower 10 scale)%Q in
        binary64 (if neg then Qopp v else v)
    end.

End JS.

(** ** Exceptions *)

(** A thrown value: an [Error] object (with its constructor name and its
    message) or anything else. *)
Inductive thrown : Type :=
| ErrorObj (name message : string)
| OtherValue.

Inductive outcome (A : Type) : Type :=
| Ok (a : A)
| Throw (e : thrown).

Arguments Ok {A} a.
Arguments Throw {A} e.

Global Instance outcome_ret : MRet outcome := λ A a, Ok a.

Global Instance outcome_bind : MBind outcome := λ A B k m,
  match m with
  | Ok a => k a
  | Throw e => Throw e
  end.

Definition TypeError (message : string) : thrown := ErrorObj "TypeError" message.
Definition RangeError (message : string) : thrown := ErrorObj "RangeError" message.

(** ** Dates (JavaScript [Date] and the date-fns functions in use) *)

Module DateFns.

Definition msPerDay : Z := 86400000.

(** A date is its time value; [None] is the Invalid Date. *)
Definition Date : Type := option Z.

(** [d.getTime()] *)
Definition getTime (d : Date) : JS.number :=
  match d with
  | Some t => JS.of_Z t
  | None => JS.NaN
  end.

Definition Qtrunc (q : Q) : Z :=
  if Qle_bool 0 q then Qfloor q else Qceiling q.

(** [new Date(n)] for a number [n] *)
Definition new_Date (n : JS.number) : Date :=
  match n with
  | JS.Fin q => Some (Qtrunc q)
  | _ => None
  end.

(** [a <= b] on dates compares the time values as numbers. *)
Definition date_le (a b : Date) : bool := JS.le (getTime a) (getTime b).

(** [addDays(d, n)]: date-fns moves the day of the month of the local date
    by [n]; in a zone without daylight-saving transitions, the convention
    here, that is [n] days of 86,400,000 ms. *)
Definition addDays (d : Date) (n : Z) : Date :=
  match d with
  | Some t => Some (t + n * msPerDay)
  | None => None
  end.

(** The proleptic Gregorian calendar: day number (days since 1970-01-01) of
    a civil date, and back. *)
Definition days_from_civil (y m d : Z) : Z :=
  let y' := if m <=? 2 then y - 1 else y in
  let era := y' / 400 in
  let yoe := y' - era * 400 in
  let mp := if 2 <? m then m - 3 else m + 9 in
  let doy := (153 * mp + 2) / 5 + d - 1 in
  let doe := yoe * 365 + yoe / 4 - yoe / 100 + doy in
  era * 146097 + doe - 719468.

Definition civil_from_days (z : Z) : Z * Z * Z :=
  let z' := z + 719468 in
  let era := z' / 146097 in
  let doe := z' - era * 146097 in
  let yoe := (doe - doe / 1460 + doe / 36524 - doe / 146096) / 365 in
  let doy := doe - (365 * yoe + yoe / 4 - yoe / 100) in
  let mp := (5 * doy + 2) / 153 in
  let d := doy - (153 * mp + 2) / 5 + 1 in
  let m := if mp <? 10 then mp + 3 else mp - 9 in
  let y := yoe + era * 400 in
  (if m <=? 2 then y + 1 else y, m, d).

(** The calendar day of a time value. *)
Definition day_of (t : Z) : Z := t / msPerDay.

(** [addLeadingZeros(n, len)] *)
Definition addLeadingZeros (n : Z) (len : nat) : string :=
  let digits := pretty (Z.to_N (Z.abs n)) in
  let pad := String.concat "" (replicate (len - String.length digits) "0") in
  (if n <? 0 then "-" else "") +:+ pad +:+ digits.

(** The text of a calendar day in the pattern yyyy-MM-dd. *)
Definition format_day (day : Z) : string :=
  let '(y, m, d) := civil_from_days day in
  let year := if 0 <? y then y else 1 - y in
  addLeadingZeros year 4 +:+ "-" +:+ addLeadingZeros m 2
    +:+ "-" +:+ addLeadingZeros d 2.

(** [format(d, 'yyyy-MM-dd')]; date-fns raises a RangeError on the Invalid
    Date. *)
Definition format (d : Date) : outcome string :=
  match d with
  | Some t => Ok (format_day (day_of t))
  | None => Throw (RangeError "Invalid time value")
  end.

(** *** An ISO 8601 parser for local date-times *)

Fixpoint take_digits (n : nat) (s : string) : option (Z * string) :=
  match n with
  | O => Some (0, s)
  | S n' =>
      match s with
      | String c r =>
          if JS.is_digit c then
            match take_digits n' r with
            | Some (v, r') => Some (JS.digit_val c * 10 ^ Z.of_nat n' + v, r')
            | None => None
            end
          else None
      | EmptyString => None
      end
  end.

Definition expect (c : ascii) (s : string) : option string :=
  match s with
  | String c' r => if Ascii.eqb c c' then Some r else None
  | EmptyString => None
  end.

Definition isLeapYear (y : Z) : bool :=
  (y mod 400 =? 0) || ((y mod 4 =? 0) && negb (y mod 100 =? 0)).

Definition daysInMonth (y m : Z) : Z :=
  if m =? 2 then (if isLeapYear y then 29 else 28)
  else if (m =? 4) || (m =? 6) || (m =? 9) || (m =? 11) then 30
  else 31.

Definition validateDate (y m d : Z) : bool :=
  (1 <=? m) && (m <=? 12) && (1 <=? d) && (d <=? daysInMonth y m).

Definition validateTime (h mi s : Z) : bool :=
  if h =? 24 then (mi =? 0) && (s =? 0)
  else (h <? 25) && (mi <? 60) && (s <? 60).

(** The time part after the delimiter: HH:MM or HH:MM:SS. *)
Definition parse_time (s : string) : option Z :=
  '(h, r1) ← take_digits 2 s;
  r2 ← expect ":" r1;
  '(mi, r3) ← take_digits 2 r2;
  '(sec, r4) ←
    match r3 with
    | EmptyString => Some (0, r3)
    | _ => r3' ← expect ":" r3; take_digits 2 r3'
    end;
  match r4 with
  | EmptyString =>
      if validateTime h mi sec
      then Some (h * 3600000 + mi * 60000 + sec * 1000) else None
  | _ => None
  end.

(** [parseISO(s)] on YYYY-MM-DD, optionally followed by T (or a space) and
    a time of day; the result is in local time.  Every other string is the
    Invalid Date here. *)
Definition parseISO_local (s : string) : Date :=
  '(y, r1) ← take_digits 4 s;
  r2 ← expect "-" r1;
  '(m, r3) ← take_digits 2 r2;
  r4 ← expect "-" r3;
  '(d, r5) ← take_digits 2 r4;
  time ←
    match r5 with
    | EmptyString => Some 0
    | String c r6 =>
        if (Ascii.eqb c "T" || Ascii.eqb c " ")%bool then parse_time r6
        else None
    end;
  if validateDate y m d
  then Some (days_from_civil y m d * msPerDay + time) else None.

End DateFns.

(** ** The data model ([src/types/flight.ts])

    Field names are those of the interfaces; [at_] and [number_] stand for
    [at] and [number], [pd_price] for the [price] of a point, [aircraft]
    for [aircraft.code] and [seg_duration] for the [duration] of a
    segment. *)

Record Price : Type := { total : string; currency : string }.

Record Endpoint : Type := { iataCode : string; at_ : string }.

Record Segment : Type := {
  departure : Endpoint;
  arrival : Endpoint;
  carrierCode : string;
  number_ : string;
  aircraft : string;
  seg_duration : string;
  numberOfStops : JS.number
}.

Record Itinerary : Type := { duration : string; segments : list Segment }.

Record Flight : Type := {
  id : string;
  price : Price;
  itineraries : list Itinerary;
  numberOfBookableSeats : JS.number;
  validatingAirlineCodes : list string
}.

Record SearchParams : Type := {
  origin : string;
  destination : string;
  departureDate : string;
  returnDate : option string;
  adults : JS.number
}.

(** [stops] and [maxPrice] are [number | null]. *)
Record Filters : Type := {
  stops : option JS.number;
  maxPrice : option JS.number;
  airlines : list string
}.

(** [price] is [number | null]; [count] only ever counts offers, so it is
    a natural number. *)
Record PriceDataPoint : Type := {
  date : string;
  pd_price : option JS.number;
  count : nat
}.

(** ** [src/utils/flightUtils.ts] *)

Module FlightUtils.

Import JS.

(** [xs.includes(x)] on strings *)
Definition includes (xs : list string) (x : string) : bool :=
  existsb (String.eqb x) xs.

(** The callback of [flights.filter(...)] in filterFlights, with its three
    guarded early returns. *)
Definition keepFlight (filters : Filters) (flight : Flight) : bool :=
  if match stops filters with
     | Some wanted =>
         let maxStops :=
           Math_max (map (λ itinerary,
             Math_max (map numberOfStops (segments itinerary)))
             (itineraries flight)) in
         strict_ne maxStops wanted
     | None => false
     end
  then false
  else if match maxPrice filters with
          | Some ceiling => gt (parseFloat (total (price flight))) ceiling
          | None => false
          end
  then false
  else if (0 <? length (airlines filters))%nat
          && negb (existsb (λ airline, includes (airlines filters) airline)
                     (validatingAirlineCodes flight))
  then false
  else true.

Definition filterFlights (flights : list Flight) (filters : Filters)
  : list Flight :=
  List.filter (keepFlight filters) flights.

(** *** The filter contract, in the words of the specification *)

(** [out] is the order-preserving subsequence of [l] that contains exactly
    the elements satisfying [P]. *)
Inductive kept_subsequence {A} (P : A → Prop) : list A → list A → Prop :=
| kept_nil : kept_subsequence P [] []
| kept_keep x l out :
    P x → kept_subsequence P l out → kept_subsequence P (x :: l) (x :: out)
| kept_drop x l out :
    ¬ P x → kept_subsequence P l out → kept_subsequence P (x :: l) out.

Definition all_segments (flight : Flight) : list Segment :=
  concat (map segments (itineraries flight)).

(** The maximum stop count across all segments of all itineraries. *)
Definition max_stop_count (flight : Flight) : number :=
  Math_max (map numberOfStops (all_segments flight)).

Definition total_price (flight : Flight) : number :=
  parseFloat (total (price flight)).

(** Predicate 1: the maximum stop count equals the wanted count. *)
Definition stops_pass (spec : Filters) (flight : Flight) : Prop :=
  ∀ wanted, stops spec = Some wanted →
    strict_eq (max_stop_count flight) wanted = true.

(** Predicate 2 as the specification words it: total price <= ceiling. *)
Definition price_pass (spec : Filters) (flight : Flight) : Prop :=
  ∀ ceiling, maxPrice spec = Some ceiling →
    le (total_price flight) ceiling = true.

(** Predicate 2 as the code decides it: the price is at most the ceiling,
    or the comparison involves NaN. *)
Definition price_pass_or_nan (spec : Filters) (flight : Flight) : Prop :=
  ∀ ceiling, maxPrice spec = Some ceiling →
    le (total_price flight) ceiling = true
    ∨ total_price flight = NaN ∨ ceiling = NaN.

(** Predicate 3: some validating airline code is an accepted one. *)
Definition airlines_pass (spec : Filters) (flight : Flight) : Prop :=
  airlines spec ≠ [] →
    ∃ code, code ∈ validatingAirlineCodes flight ∧ code ∈ airlines spec.

Definition retained (spec : Filters) (flight : Flight) : Prop :=
  stops_pass spec flight ∧ price_pass spec flight ∧ airlines_pass spec flight.

Definition retained_or_nan (spec : Filters) (flight : Flight) : Prop :=
  stops_pass spec flight ∧ price_pass_or_nan spec flight
  ∧ airlines_pass spec flight.

(** The specification with no constraint. *)
Definition no_constraint : Filters :=
  {| stops := None; maxPrice := None; airlines := [] |}.

(** *** extractPriceData *)

(** How one call of the imported [getPriceForDate] settles. *)
Inductive FetchOutcome : Type :=
| Resolved (found : option number)
| Rejected (e : thrown).

(** What the aggregator does towards the outside, in order: it calls
    getPriceForDate for the point at [index], that call settles, or it
    sleeps. *)
Inductive event : Type :=
| Request (index : nat) (day : string)
| Settled (index : nat) (result : FetchOutcome)
| Pause (ms : Z).

Definition BATCH_SIZE : nat := 5.

(** [xs.slice(i, j)] for [i <= j] *)
Definition slice {A} (xs : list A) (i j : nat) : list A :=
  take (j - i) (drop i xs).

(** [flight.itineraries[0].segments[0].departure.at]; reading a property
    of [undefined] raises a TypeError. *)
Definition firstDeparture (flight : Flight) : outcome string :=
  match itineraries flight with
  | [] =>
      Throw (TypeError "Cannot read properties of undefined (reading 'segments')")
  | itinerary :: _ =>
      match segments itinerary with
      | [] =>
          Throw (TypeError "Cannot read properties of undefined (reading 'departure')")
      | seg :: _ => Ok (at_ (departure seg))
      end
  end.

Definition pointOf (dateStr : string) (flightData : option (number * nat))
  : PriceDataPoint :=
  {| date := dateStr;
     pd_price :=
       match flightData with
       | Some d => Some (Math_round (div d.1 (of_nat d.2)))
       | None => None
       end;
     count :=
       match flightData with
       | Some d => d.2
       | None => 0%nat
       end |}.

Definition isGap (dataPoint : PriceDataPoint) : bool :=
  match pd_price dataPoint with
  | None => true
  | Some _ => false
  end.

(** The points without a price, each with its index in [allDates]. *)
Definition datesToFetch (allDates : list PriceDataPoint)
  : list (PriceDataPoint * nat) :=
  List.filter (λ entry, isGap entry.1)
    (imap (λ index dataPoint, (dataPoint, index)) allDates).

Section Aggregator.

(** date-fns [parseISO], and the imported [getPriceForDate] as a function
    of its arguments (origin, destination, date, adults). *)
Variable parseISO : string → DateFns.Date.
Variable getPriceForDate : string → string → string → number → FetchOutcome.

(** The body of [flights.forEach] that fills [priceMap]. *)
Definition groupStep (priceMap : gmap string (number * nat)) (flight : Flight)
  : outcome (gmap string (number * nat)) :=
  let price := parseFloat (total (price flight)) in
  departureAt ← firstDeparture flight;
  dateStr ← DateFns.format (parseISO departureAt);
  let existing := default (of_Z 0, 0%nat) (priceMap !! dateStr) in
  Ok (<[dateStr := (add existing.1 price, S existing.2)]> priceMap).

Fixpoint groupPrices (flights : list Flight)
    (priceMap : gmap string (number * nat))
  : outcome (gmap string (number * nat)) :=
  match flights with
  | [] => Ok priceMap
  | flight :: rest =>
      priceMap' ← groupStep priceMap flight;
      groupPrices rest priceMap'
  end.

(** [flights.map(flight => parseISO(...))] *)
Fixpoint flightDates (flights : list Flight) : outcome (list DateFns.Date) :=
  match flights with
  | [] => Ok []
  | flight :: rest =>
      departureAt ← firstDeparture flight;
      dates ← flightDates rest;
      Ok (parseISO departureAt :: dates)
  end.

(** The [while (currentDate <= endDate)] loop; [None] when [fuel]
    iterations were not enough. *)
Fixpoint buildDates (fuel : nat) (priceMap : gmap string (number * nat))
    (endDate currentDate : DateFns.Date) (allDates : list PriceDataPoint)
  : option (outcome (list PriceDataPoint)) :=
  if DateFns.date_le currentDate endDate then
    match fuel with
    | O => None
    | S fuel' =>
        match DateFns.format currentDate with
        | Throw e => Some (Throw e)
        | Ok dateStr =>
            let flightData := priceMap !! dateStr in
            buildDates fuel' priceMap endDate (DateFns.addDays currentDate 1)
              (allDates ++ [pointOf dateStr flightData])
        end
    end
  else Some (Ok allDates).

(** A number of iterations after which the loop condition fails. *)
Definition loopFuel (currentDate endDate : DateFns.Date) : nat :=
  match currentDate, endDate with
  | Some t, Some e => Z.to_nat ((e - t) / DateFns.msPerDay + 1)
  | _, _ => 0%nat
  end.

(** One request of a batch settles: a price that is not null is written
    into the point at [index]; null and a rejection (caught) change
    nothing. *)
Definition settle (searchParams : SearchParams)
    (allDates : list PriceDataPoint) (entry : PriceDataPoint * nat)
  : list PriceDataPoint :=
  match getPriceForDate (origin searchParams) (destination searchParams)
          (date entry.1) (adults searchParams) with
  | Resolved (Some found) =>
      alter (λ p, {| date := date p;
                     pd_price := Some (Math_round found);
                     count := 1 |}) entry.2 allDates
  | Resolved None => allDates
  | Rejected _ => allDates
  end.

Definition requestOf (entry : PriceDataPoint * nat) : event :=
  Request entry.2 (date entry.1).

Definition settledOf (searchParams : SearchParams)
    (entry : PriceDataPoint * nat) : event :=
  Settled entry.2
    (getPriceForDate (origin searchParams) (destination searchParams)
       (date entry.1) (adults searchParams)).

(** The events of one batch: [batch.map] starts every request, then
    [Promise.allSettled] waits until each of them has settled. *)
Definition batchEvents (searchParams : SearchParams)
    (batch : list (PriceDataPoint * nat)) : list event :=
  map requestOf batch ++ map (settledOf searchParams) batch.

(** The [for (let i = 0; i < datesToFetch.length; i += BATCH_SIZE)] loop. *)
Fixpoint fetchBatches (fuel : nat) (searchParams : SearchParams)
    (toFetch : list (PriceDataPoint * nat)) (i : nat)
    (allDates : list PriceDataPoint) (trace : list event)
  : option (list PriceDataPoint * list event) :=
  if (i <? length toFetch)%nat then
    match fuel with
    | O => None
    | S fuel' =>
        let batch := slice toFetch i (i + BATCH_SIZE) in
        let allDates' := foldl (settle searchParams) allDates batch in
        let trace' := trace ++ batchEvents searchParams batch in
        let trace'' :=
          if (i + BATCH_SIZE <? length toFetch)%nat
          then trace' ++ [Pause 200] else trace' in
        fetchBatches fuel' searchParams toFetch (i + BATCH_SIZE)
          allDates' trace''
    end
  else Some (allDates, trace).

(** The range construction (steps A and B of the specification). *)
Definition buildRange (flights : list Flight)
  : option (outcome (list PriceDataPoint)) :=
  match groupPrices flights ∅ with
  | Throw e => Some (Throw e)
  | Ok priceMap =>
      match flightDates flights with
      | Throw e => Some (Throw e)
      | Ok dates =>
          let earliestDate :=
            DateFns.new_Date (Math_min (map DateFns.getTime dates)) in
          let latestDate :=
            DateFns.new_Date (Math_max (map DateFns.getTime dates)) in
          let endDate := DateFns.addDays latestDate 5 in
          buildDates (loopFuel earliestDate endDate) priceMap endDate
            earliestDate []
      end
  end.

(** [extractPriceData(flights, searchParams)]: the returned array (or the
    exception) with the events of the run; [None] only if a loop of the
    model ran out of fuel. *)
Definition extractPriceData (flights : list Flight)
    (searchParams : option SearchParams)
  : option (outcome (list PriceDataPoint) * list event) :=
  if (length flights =? 0)%nat then Some (Ok [], [])
  else
    match buildRange flights with
    | None => None
    | Some (Throw e) => Some (Throw e, [])
    | Some (Ok allDates) =>
        match searchParams with
        | Some params =>
            let toFetch := datesToFetch allDates in
            match fetchBatches (length toFetch) params toFetch 0 allDates [] with
            | Some (allDates', trace) => Some (Ok allDates', trace)
            | None => None
            end
        | None => Some (Ok allDates, [])
        end
    end.

End Aggregator.

End FlightUtils.

(** ** The aggregator contract, in the words of the specification *)

Module AggregatorSpec.

Import JS FlightUtils.

Section Contract.

Variable parseISO : string → DateFns.Date.
Variable getPriceForDate : string → string → string → number → FetchOutcome.

(** The calendar date of the first segment of the first itinerary. *)
Definition departureDay (flight : Flight) : outcome string :=
  departureAt ← firstDeparture flight;
  DateFns.format (parseISO departureAt).

(** The time value of that departure; [None] when there is none. *)
Definition departureTime (flight : Flight) : option Z :=
  match firstDeparture flight with
  | Ok departureAt => parseISO departureAt
  | Throw _ => None
  end.

Definition departsOn (day : string) (flight : Flight) : bool :=
  match departureDay flight with
  | Ok day' => String.eqb day' day
  | Throw _ => false
  end.

(** The offers of one date, in input order. *)
Definition offersOn (day : string) (flights : list Flight) : list Flight :=
  List.filter (departsOn day) flights.

(** The sum of the total prices of some offers. *)
Definition priceSum (offers : list Flight) : number :=
  foldl add (of_Z 0) (map total_price offers).

(** round(sum / count) *)
Definition averagePrice (offers : list Flight) : number :=
  Math_round (div (priceSum offers) (of_nat (length offers))).

(** The point of the day [k] days after the time value [start]. *)
Definition rangePoint (priceMap : gmap string (number * nat)) (start : Z)
    (k : nat) : PriceDataPoint :=
  let dateStr :=
    DateFns.format_day
      (DateFns.day_of (start + Z.of_nat k * DateFns.msPerDay)) in
  pointOf dateStr (priceMap !! dateStr).

(** What gap fill makes of one point of the range. *)
Definition gapFilled (params : SearchParams) (point : PriceDataPoint)
  : PriceDataPoint :=
  match pd_price point with
  | Some _ => point
  | None =>
      match getPriceForDate (origin params) (destination params)
              (date point) (adults params) with
      | Resolved (Some found) =>
          {| date := date point;
             pd_price := Some (Math_round found);
             count := 1 |}
      | _ => point
      end
  end.

(** The points without a price, each with its position, in order. *)
Fixpoint gapsFrom (index : nat) (points : list PriceDataPoint)
  : list (PriceDataPoint * nat) :=
  match points with
  | [] => []
  | point :: rest =>
      match pd_price point with
      | None => (point, index) :: gapsFrom (S index) rest
      | Some _ => gapsFrom (S index) rest
      end
  end.

Definition gaps (points : list PriceDataPoint) : list (PriceDataPoint * nat) :=
  gapsFrom 0 points.

(** The fetch for one gap goes out, and it settles: with the price or the
    null the source resolves it to, or with its rejection. *)
Definition requested (gap : PriceDataPoint * nat) : event :=
  Request gap.2 (date gap.1).

Definition settled (params : SearchParams) (gap : PriceDataPoint * nat)
  : event :=
  Settled gap.2
    (getPriceForDate (origin params) (destination params) (date gap.1)
       (adults params)).

(** The events the contract asks of one batch: every request of the batch
    goes out, and then every one of them settles, whatever its outcome. *)
Definition batchTrace (params : SearchParams)
    (batch : list (PriceDataPoint * nat)) : list event :=
  map requested batch ++ map (settled params) batch.

(** The events of a run whose requests go out in the given batches: the
    events of each batch in turn, and a pause of 200 ms before every batch
    but the first. *)
Fixpoint scheduleTrace (params : SearchParams)
    (batches : list (list (PriceDataPoint * nat))) : list event :=
  match batches with
  | [] => []
  | batch :: rest =>
      batchTrace params batch
      ++ match rest with
         | [] => []
         | _ :: _ => Pause 200 :: scheduleTrace params rest
         end
  end.

(** After each event of a run, the number of requests that are out and
    have not settled, from [pending] before the first event. *)
Fixpoint inFlight (pending : nat) (trace : list event) : list nat :=
  match trace with
  | [] => []
  | Request _ _ :: rest => S pending :: inFlight (S pending) rest
  | Settled _ _ :: rest => pred pending :: inFlight (pred pending) rest
  | Pause _ :: rest => pending :: inFlight pending rest
  end.

End Contract.

(** What [priceMap] holds for a date after more offers were grouped into
    it. *)
Definition grouped (before : option (number * nat)) (offers : list Flight)
  : option (number * nat) :=
  match offers with
  | [] => before
  | _ :: _ =>
      let existing := default (of_Z 0, 0%nat) before in
      Some (foldl add existing.1 (map total_price offers),
            (existing.2 + length offers)%nat)
  end.

End AggregatorSpec.

(** ** [src/services/amadeusApi.ts] *)

Module AmadeusApi.

Import JS.

(** One entry of the [errors] array of an error response. *)
Record ApiError : Type := {
  detail : option string;
  parameter : option string
}.

(** The response that comes with a failed request. *)
Record Response : Type := {
  status : Z;
  errors : option (list ApiError)
}.

(** What a [try] block can raise here: an axios error, with the response
    when there is one, or a plain [Error]. *)
Inductive failure : Type :=
| AxiosError (response : option Response)
| PlainError (message : string).

(** [axiosError.response?.status] *)
Definition responseStatus (e : failure) : option Z :=
  match e with
  | AxiosError response => status <$> response
  | PlainError _ => None
  end.

(** [axiosError.response?.data?.errors] *)
Definition responseErrors (e : failure) : option (list ApiError) :=
  match e with
  | AxiosError (Some response) => errors response
  | _ => None
  end.

(** The answer of the token endpoint to one POST. *)
Inductive TokenReply : Type :=
| TokenOk (access_token : option string) (expires_in : Z)
| TokenFail (response : option Response).

(** The answer of the flight-offers endpoint to one GET. *)
Inductive OffersReply : Type :=
| OffersOk (data : option (list Flight))
| OffersFail (response : option Response).

(** The surroundings of the module: the clock, the configured credentials
    and the answers of the two endpoints, each by the number of earlier
    uses. *)
Record Env : Type := {
  clock : nat → Z;
  clientId : option string;
  clientSecret : option string;
  tokenEndpoint : nat → TokenReply;
  offersEndpoint : nat → OffersReply
}.

(** The module state ([accessToken], [tokenExpiry]) with the number of
    clock readings, POSTs and GETs made so far. *)
Record World : Type := {
  accessToken : option string;
  tokenExpiry : Z;
  readings : nat;
  posts : nat;
  gets : nat
}.

(** A string or null/undefined is truthy when it is a non-empty string. *)
Definition truthy (s : option string) : bool :=
  match s with
  | Some (String _ _) => true
  | _ => false
  end.

Definition authFailed : failure :=
  PlainError "Failed to authenticate with Amadeus API".

Definition notConfigured : failure :=
  PlainError "Amadeus API credentials not configured. Please set VITE_AMADEUS_CLIENT_ID and VITE_AMADEUS_CLIENT_SECRET in your .env file".

(** [getAccessToken()]: the token text or the error raised, with the world
    after the call. *)
Definition getAccessToken (env : Env) (w : World)
  : (string + failure) * World :=
  let now := clock env (readings w) in
  let w1 := {| accessToken := accessToken w; tokenExpiry := tokenExpiry w;
               readings := S (readings w); posts := posts w;
               gets := gets w |} in
  if truthy (accessToken w) && (now <? tokenExpiry w) then
    (inl (default "" (accessToken w)), w1)
  else if negb (truthy (clientId env)) || negb (truthy (clientSecret env)) then
    (inr notConfigured, w1)
  else
    match tokenEndpoint env (posts w) with
    | TokenOk token expires_in =>
        let w2 := {| accessToken := token;
                     tokenExpiry := now + (expires_in - 300) * 1000;
                     readings := S (readings w); posts := S (posts w);
                     gets := gets w |} in
        if truthy token then (inl (default "" token), w2)
        else (inr authFailed, w2)
    | TokenFail _ =>
        (inr authFailed,
         {| accessToken := accessToken w; tokenExpiry := tokenExpiry w;
            readings := S (readings w); posts := S (posts w);
            gets := gets w |})
    end.

(** The world after one more GET. *)
Definition afterGet (w : World) : World :=
  {| accessToken := accessToken w; tokenExpiry := tokenExpiry w;
     readings := readings w; posts := posts w; gets := S (gets w) |}.

(** [accessToken = null] *)
Definition dropToken (w : World) : World :=
  {| accessToken := None; tokenExpiry := tokenExpiry w;
     readings := readings w; posts := posts w; gets := gets w |}.

(** The [try] block of getPriceForDate. *)
Definition priceAttempt (env : Env) (w : World)
  : (option number + failure) * World :=
  match getAccessToken env w with
  | (inr e, w1) => (inr e, w1)
  | (inl token, w1) =>
      match offersEndpoint env (gets w1) with
      | OffersOk data =>
          let flights := default [] data in
          if (length flights =? 0)%nat then (inl None, afterGet w1)
          else
            let prices :=
              map (λ flight : Flight, parseFloat (total (price flight)))
                flights in
            (inl (Some (Math_min prices)), afterGet w1)
      | OffersFail response => (inr (AxiosError response), afterGet w1)
      end
  end.

(** [getPriceForDate(origin, destination, date, adults)]: [None] when
    [fuel] attempts were not enough.  The four arguments go into the
    request; the answer is the endpoint's. *)
Fixpoint getPriceForDate (fuel : nat) (env : Env) (w : World)
    (origin destination day : string) (adults : number)
  : option (outcome (option number) * World) :=
  match fuel with
  | O => None
  | S fuel' =>
      match priceAttempt env w with
      | (inl found, w1) => Some (Ok found, w1)
      | (inr e, w1) =>
          if bool_decide (responseStatus e ≠ Some 401) then
            Some (Ok None, w1)
          else
            getPriceForDate fuel' env (dropToken w1)
              origin destination day adults
      end
  end.

(** The [try] block of searchFlights. *)
Definition searchAttempt (env : Env) (w : World)
  : (list Flight + failure) * World :=
  match getAccessToken env w with
  | (inr e, w1) => (inr e, w1)
  | (inl token, w1) =>
      match offersEndpoint env (gets w1) with
      | OffersOk data => (inl (default [] data), afterGet w1)
      | OffersFail response => (inr (AxiosError response), afterGet w1)
      end
  end.

Definition searchFailedMessage : string :=
  "Failed to search flights. Please check your API credentials and try again.".

(** The message of the [Error] that searchFlights raises. *)
Definition searchErrorMessage (e : failure) : string :=
  match responseErrors e with
  | Some (firstError :: _) =>
      let message :=
        if truthy (detail firstError)
        then default "" (detail firstError) else searchFailedMessage in
      if truthy (parameter firstError)
      then message +:+ " (Parameter: "
             +:+ default "" (parameter firstError) +:+ ")"
      else message
  | _ => searchFailedMessage
  end.

(** [searchFlights(params)]: [None] when [fuel] attempts were not
    enough. *)
Fixpoint searchFlights (fuel : nat) (env : Env) (w : World)
    (params : SearchParams) : option (outcome (list Flight) * World) :=
  match fuel with
  | O => None
  | S fuel' =>
      match searchAttempt env w with
      | (inl results, w1) => Some (Ok results, w1)
      | (inr e, w1) =>
          if bool_decide (responseStatus e = Some 401) then
            searchFlights fuel' env (dropToken w1) params
          else Some (Throw (ErrorObj "Error" (searchErrorMessage e)), w1)
      end
  end.

(** *** The contract of the price fetch *)

(** What a reply that is not a 401 makes the call return. *)
Definition priceOfReply (reply : OffersReply) : option number :=
  match reply with
  | OffersOk (Some (flight :: rest)) =>
      Some (Math_min (map (λ flight : Flight,
                             parseFloat (total (price flight)))
                        (flight :: rest)))
  | _ => None
  end.

(** The reply is a failure with status 401. *)
Definition unauthorized (reply : OffersReply) : bool :=
  match reply with
  | OffersFail (Some response) => status response =? 401
  | _ => false
  end.

(** Credentials are configured and the token endpoint always hands out a
    token. *)
Definition canAuthenticate (env : Env) : Prop :=
  truthy (clientId env) = true
  ∧ truthy (clientSecret env) = true
  ∧ ∀ k, ∃ token expires_in,
      tokenEndpoint env k = TokenOk token expires_in ∧ truthy token = true.

(** The sentence of the specification: a 401 is retried exactly once, so a
    call that returns has made at most two GETs. *)
Definition retriedOnce (env : Env) (w : World) : Prop :=
  ∀ fuel origin destination day adults result w',
    getPriceForDate fuel env w origin destination day adults
      = Some (result, w') →
    (gets w' ≤ gets w + 2)%nat.

End AmadeusApi.

(** ** The search handler of [App.tsx] *)

Module App.

Import JS FlightUtils.

(** The state slots of the component. *)
Record State : Type := {
  flights : list Flight;
  loading : bool;
  error : option string;
  hasSearched : bool;
  searchParams : option SearchParams;
  priceData : list PriceDataPoint;
  loadingPrices : bool;
  filters : Filters
}.

Definition initial : State :=
  {| flights := []; loading := false; error := None; hasSearched := false;
     searchParams := None; priceData := []; loadingPrices := false;
     filters := {| stops := None; maxPrice := None; airlines := [] |} |}.

Definition setFlights (v : list Flight) (s : State) : State :=
  {| flights := v; loading := loading s; error := error s;
     hasSearched := hasSearched s; searchParams := searchParams s;
     priceData := priceData s; loadingPrices := loadingPrices s;
     filters := filters s |}.

Definition setLoading (v : bool) (s : State) : State :=
  {| flights := flights s; loading := v; error := error s;
     hasSearched := hasSearched s; searchParams := searchParams s;
     priceData := priceData s; loadingPrices := loadingPrices s;
     filters := filters s |}.

Definition setError (v : option string) (s : State) : State :=
  {| flights := flights s; loading := loading s; error := v;
     hasSearched := hasSearched s; searchParams := searchParams s;
     priceData := priceData s; loadingPrices := loadingPrices s;
     filters := filters s |}.

Definition setHasSearched (v : bool) (s : State) : State :=
  {| flights := flights s; loading := loading s; error := error s;
     hasSearched := v; searchParams := searchParams s;
     priceData := priceData s; loadingPrices := loadingPrices s;
     filters := filters s |}.

Definition setSearchParams (v : option SearchParams) (s : State) : State :=
  {| flights := flights s; loading := loading s; error := error s;
     hasSearched := hasSearched s; searchParams := v;
     priceData := priceData s; loadingPrices := loadingPrices s;
     filters := filters s |}.

Definition setPriceData (v : list PriceDataPoint) (s : State) : State :=
  {| flights := flights s; loading := loading s; error := error s;
     hasSearched := hasSearched s; searchParams := searchParams s;
     priceData := v; loadingPrices := loadingPrices s;
     filters := filters s |}.

Definition setLoadingPrices (v : bool) (s : State) : State :=
  {| flights := flights s; loading := loading s; error := error s;
     hasSearched := hasSearched s; searchParams := searchParams s;
     priceData := priceData s; loadingPrices := v;
     filters := filters s |}.

Definition setFilters (v : Filters) (s : State) : State :=
  {| flights := flights s; loading := loading s; error := error s;
     hasSearched := hasSearched s; searchParams := searchParams s;
     priceData := priceData s; loadingPrices := loadingPrices s;
     filters := v |}.

(** [err instanceof Error ? err.message : 'Failed to search flights'] *)
Definition errorMessage (err : thrown) : string :=
  match err with
  | ErrorObj _ message => message
  | OtherValue => "Failed to search flights"
  end.

Section Handler.

Variable parseISO : string → DateFns.Date.
Variable getPriceForDate : string → string → string → number → FetchOutcome.

(** [await extractPriceData(results, searchParams)] with the events of the
    run dropped. *)
Definition awaitPriceData (results : list Flight)
    (context : option SearchParams)
  : option (outcome (list PriceDataPoint)) :=
  match extractPriceData parseISO getPriceForDate results context with
  | Some (r, _) => Some r
  | None => None
  end.

(** The inner [try / catch / finally] around the aggregation; the result is
    the state with the exception that leaves the block, if any. *)
Definition loadPrices (results : list Flight) (params : SearchParams)
    (s : State) : option (State * option thrown) :=
  let s := setLoadingPrices true s in
  r ← awaitPriceData results (Some params);
  match r with
  | Ok data => Some (setLoadingPrices false (setPriceData data s), None)
  | Throw _ =>
      r' ← awaitPriceData results None;
      match r' with
      | Ok basicData =>
          Some (setLoadingPrices false (setPriceData basicData s), None)
      | Throw err => Some (setLoadingPrices false s, Some err)
      end
  end.

(** What the outer [catch] does. *)
Definition searchFailed (err : thrown) (s : State) : State :=
  setPriceData [] (setFlights [] (setError (Some (errorMessage err)) s)).

(** [handleSearch(params)] given how [searchFlights(params)] settles; the
    state after the handler has run to its end. *)
Definition handleSearch (searched : outcome (list Flight))
    (params : SearchParams) (s : State) : option State :=
  let s := setLoading true s in
  let s := setError None s in
  let s := setHasSearched true s in
  let s := setSearchParams (Some params) s in
  let s := setFilters {| stops := None; maxPrice := None; airlines := [] |} s in
  match searched with
  | Ok results =>
      let s := setFlights results s in
      if (0 <? length results)%nat then
        '(s, raised) ← loadPrices results params s;
        match raised with
        | None => Some (setLoading false s)
        | Some err => Some (setLoading false (searchFailed err s))
        end
      else Some (setLoading false (setPriceData [] s))
  | Throw err => Some (setLoading false (searchFailed err s))
  end.

End Handler.

End App.

(** ** The two functions over a store of shared objects

    Arrays and objects of JavaScript are references.  Here a store holds
    the offer objects, the point objects and the arrays of references to
    them; a reference is an index into the store.  The functions of
    [flightUtils.ts] are written once more with every read, allocation and
    write of such an object made explicit.  [None] stands for a reference
    that does not lead to an object of the expected kind (and, in the
    loops, for fuel that ran out). *)

Module Store.

Import JS FlightUtils.

Inductive cell : Type :=
| FlightObject (flight : Flight)
| FlightArray (elems : list nat)
| PointObject (point : PriceDataPoint)
| PointArray (elems : list nat).

(** A new object lives behind the last cell of the store. *)
Definition alloc (c : cell) (h : list cell) : nat * list cell :=
  (length h, h ++ [c]).

Definition readFlight (h : list cell) (r : nat) : option Flight :=
  match h !! r with
  | Some (FlightObject flight) => Some flight
  | _ => None
  end.

Definition readFlightArray (h : list cell) (r : nat) : option (list nat) :=
  match h !! r with
  | Some (FlightArray elems) => Some elems
  | _ => None
  end.

Definition readPoint (h : list cell) (r : nat) : option PriceDataPoint :=
  match h !! r with
  | Some (PointObject point) => Some point
  | _ => None
  end.

Definition readPointArray (h : list cell) (r : nat) : option (list nat) :=
  match h !! r with
  | Some (PointArray elems) => Some elems
  | _ => None
  end.

(** The offers, and the points, that an array of the store holds. *)
Definition flightsAt (h : list cell) (arr : nat) : option (list Flight) :=
  elems ← readFlightArray h arr; mapM (readFlight h) elems.

Definition pointsAt (h : list cell) (arr : nat)
  : option (list PriceDataPoint) :=
  elems ← readPointArray h arr; mapM (readPoint h) elems.

(** The references [flights.filter(callback)] keeps. *)
Fixpoint filterRefs (h : list cell) (filters : Filters) (elems : list nat)
  : option (list nat) :=
  match elems with
  | [] => Some []
  | r :: rest =>
      flight ← readFlight h r;
      kept ← filterRefs h filters rest;
      Some (if keepFlight filters flight then r :: kept else kept)
  end.

(** [filterFlights(flights, filters)]: the reference of the returned array
    and the store after the call. *)
Definition filterFlights (h : list cell) (flights : nat) (filters : Filters)
  : option (nat * list cell) :=
  elems ← readFlightArray h flights;
  kept ← filterRefs h filters elems;
  Some (alloc (FlightArray kept) h).

(** [allDates.push({ date, price, count })] *)
Definition push (allDates : nat) (point : PriceDataPoint) (h : list cell)
  : option (list cell) :=
  elems ← readPointArray h allDates;
  let '(r, h1) := alloc (PointObject point) h in
  Some (<[allDates := PointArray (elems ++ [r])]> h1).

(** The references of the points without a price, with their indices. *)
Fixpoint gapEntries (h : list cell) (entries : list (nat * nat))
  : option (list (nat * nat)) :=
  match entries with
  | [] => Some []
  | entry :: rest =>
      dataPoint ← readPoint h entry.1;
      kept ← gapEntries h rest;
      Some (if isGap dataPoint then entry :: kept else kept)
  end.

Definition datesToFetch (h : list cell) (allDates : nat)
  : option (list (nat * nat)) :=
  elems ← readPointArray h allDates;
  gapEntries h (imap (λ index r, (r, index)) elems).

Section Aggregator.

Variable parseISO : string → DateFns.Date.
Variable getPriceForDate : string → string → string → number → FetchOutcome.

Fixpoint buildDates (fuel : nat) (priceMap : gmap string (number * nat))
    (endDate currentDate : DateFns.Date) (allDates : nat) (h : list cell)
  : option (outcome () * list cell) :=
  if DateFns.date_le currentDate endDate then
    match fuel with
    | O => None
    | S fuel' =>
        match DateFns.format currentDate with
        | Throw e => Some (Throw e, h)
        | Ok dateStr =>
            let flightData := priceMap !! dateStr in
            h' ← push allDates (pointOf dateStr flightData) h;
            buildDates fuel' priceMap endDate (DateFns.addDays currentDate 1)
              allDates h'
        end
    end
  else Some (Ok (), h).

(** One request settles.  [entry.1] is the [dataPoint] of the entry, whose
    date went into the request; the write goes through
    [allDates[index]]. *)
Definition settle (params : SearchParams) (allDates : nat) (h : list cell)
    (entry : nat * nat) : option (list cell) :=
  dataPoint ← readPoint h entry.1;
  match getPriceForDate (origin params) (destination params)
          (date dataPoint) (adults params) with
  | Resolved (Some found) =>
      elems ← readPointArray h allDates;
      r ← elems !! entry.2;
      p ← readPoint h r;
      Some (<[r := PointObject {| date := date p;
                                  pd_price := Some (Math_round found);
                                  count := 1 |}]> h)
  | Resolved None => Some h
  | Rejected _ => Some h
  end.

Fixpoint settleAll (params : SearchParams) (allDates : nat) (h : list cell)
    (batch : list (nat * nat)) : option (list cell) :=
  match batch with
  | [] => Some h
  | entry :: rest =>
      h' ← settle params allDates h entry;
      settleAll params allDates h' rest
  end.

Fixpoint fetchBatches (fuel : nat) (params : SearchParams)
    (toFetch : list (nat * nat)) (i : nat) (allDates : nat) (h : list cell)
  : option (list cell) :=
  if (i <? length toFetch)%nat then
    match fuel with
    | O => None
    | S fuel' =>
        let batch := slice toFetch i (i + BATCH_SIZE) in
        h' ← settleAll params allDates h batch;
        fetchBatches fuel' params toFetch (i + BATCH_SIZE) allDates h'
    end
  else Some h.

(** [extractPriceData(flights, searchParams)]: the reference of the
    returned array (or the exception) and the store after the call.  The
    offers are read from the store; [priceMap] and [flightDates] are local
    to the call and are computed from the offers read. *)
Definition extractPriceData (h : list cell) (flights : nat)
    (searchParams : option SearchParams)
  : option (outcome nat * list cell) :=
  offers ← flightsAt h flights;
  if (length offers =? 0)%nat then
    let '(empty, h1) := alloc (PointArray []) h in Some (Ok empty, h1)
  else
    match groupPrices parseISO offers ∅ with
    | Throw e => Some (Throw e, h)
    | Ok priceMap =>
        match flightDates parseISO offers with
        | Throw e => Some (Throw e, h)
        | Ok dates =>
            let earliestDate :=
              DateFns.new_Date (Math_min (map DateFns.getTime dates)) in
            let latestDate :=
              DateFns.new_Date (Math_max (map DateFns.getTime dates)) in
            let endDate := DateFns.addDays latestDate 5 in
            let '(allDates, h1) := alloc (PointArray []) h in
            '(r, h2) ← buildDates (loopFuel earliestDate endDate) priceMap
                         endDate earliestDate allDates h1;
            match r with
            | Throw e => Some (Throw e, h2)
            | Ok _ =>
                match searchParams with
                | Some params =>
                    toFetch ← datesToFetch h2 allDates;
                    h3 ← fetchBatches (length toFetch) params toFetch 0
                           allDates h2;
                    Some (Ok allDates, h3)
                | None => Some (Ok allDates, h2)
                end
            end
        end
    end.

End Aggregator.

(** What the store looks like while the aggregator runs on the store [h]:
    behind [h] the array [allDates], then one object per point. *)
Definition layout (h : list cell) (points : list PriceDataPoint)
  : list cell :=
  h ++ PointArray (seq (S (length h)) (length points))
       :: map PointObject points.

(** The entry of [datesToFetch] for a point of the running aggregation:
    the reference of the point with its index. *)
Definition entryRef (h : list cell) (entry : PriceDataPoint * nat)
  : nat * nat :=
  (S (length h + entry.2), entry.2).

(** Each entry stands for the point at its index, up to price and count. *)
Definition entriesOf (points : list PriceDataPoint)
    (entries : list (PriceDataPoint * nat)) : Prop :=
  Forall (λ entry, ∃ point,
            points !! entry.2 = Some point ∧ date point = date entry.1)
    entries.

End Store.

(** ** Sample offers *)

Module Sample.

Import JS.

Definition endpoint (code time : string) : Endpoint :=
  {| iataCode := code; at_ := time |}.

Definition segment (src dst time : string) (nstops : Z) : Segment :=
  {| departure := endpoint src time; arrival := endpoint dst time;
     carrierCode := "AA"; number_ := "100"; aircraft := "320";
     seg_duration := "PT2H"; numberOfStops := of_Z nstops |}.

(** A one-way offer with a single segment. *)
Definition offer (ident amount time : string) (nstops : Z)
    (codes : list string) : Flight :=
  {| id := ident;
     price := {| total := amount; currency := "USD" |};
     itineraries :=
       [ {| duration := "PT2H";
            segments := [ segment "JFK" "LAX" time nstops ] |} ];
     numberOfBookableSeats := of_Z 9;
     validatingAirlineCodes := codes |}.

(** An offer whose price text is not a number. *)
Definition unpriced : Flight := offer "1" "N/A" "2024-06-01T08:00:00" 0 ["AA"].

Definition ceiling_zero : Filters :=
  {| stops := None; maxPrice := Some (of_Z 0); airlines := [] |}.

(** Offers on 2024-06-01 priced 100 and 200 and on 2024-06-03 priced 150. *)
Definition scenarioA : list Flight :=
  [ offer "1" "100" "2024-06-01T08:00:00" 0 ["AA"];
    offer "2" "150" "2024-06-03T09:00:00" 0 ["AA"];
    offer "3" "200" "2024-06-01T10:00:00" 0 ["DL"] ].

(** The earliest offer leaves late in its day, the latest early in its. *)
Definition lateThenEarly : list Flight :=
  [ offer "1" "100" "2024-06-01T23:00:00" 0 ["AA"];
    offer "2" "150" "2024-06-03T01:00:00" 0 ["AA"] ].

(** Three offers on one day whose prices add up to 301.50; added as
    binary64 numbers in this order they give 301.49999999999994. *)
Definition cents : list Flight :=
  [ offer "1" "135.39" "2024-06-01T08:00:00" 0 ["AA"];
    offer "2" "135.52" "2024-06-01T09:00:00" 0 ["AA"];
    offer "3" "30.59" "2024-06-01T10:00:00" 0 ["DL"] ].

Definition params : SearchParams :=
  {| origin := "JFK"; destination := "LAX"; departureDate := "2024-06-01";
     returnDate := None; adults := of_Z 1 |}.

End Sample.

Module SampleSource.

Import JS FlightUtils.

(** A price source: 119.9 for 2024-06-02, a rejection for 2024-06-05, no
    offers for every other date. *)
Definition pricesFor (origin destination day : string) (adults : number)
  : FetchOutcome :=
  if String.eqb day "2024-06-02" then Resolved (Some (Fin (1199 # 10)))
  else if String.eqb day "2024-06-05" then Rejected OtherValue
  else Resolved None.

End SampleSource.

Module SampleApi.

Import JS AmadeusApi.

(** A source that answers 401 to the first two GETs and then offers one
    flight priced 100. *)
Definition twice401 : Env :=
  {| clock := λ _, 0;
     clientId := Some "id";
     clientSecret := Some "secret";
     tokenEndpoint := λ _, TokenOk (Some "token") 1800;
     offersEndpoint := λ k,
       if (k <? 2)%nat
       then OffersFail (Some {| status := 401; errors := None |})
       else OffersOk (Some [Sample.offer "1" "100" "2024-06-02T08:00:00" 0 ["AA"]]) |}.

Definition start : World :=
  {| accessToken := None; tokenExpiry := 0;
     readings := 0; posts := 0; gets := 0 |}.

(** A source that rejects every search with status 400 and a detail. *)
Definition rejecting : Env :=
  {| clock := λ _, 0;
     clientId := Some "id";
     clientSecret := Some "secret";
     tokenEndpoint := λ _, TokenOk (Some "token") 1800;
     offersEndpoint := λ _,
       OffersFail (Some {| status := 400;
                           errors := Some [ {| detail := Some "Invalid date";
                                               parameter := Some "departureDate" |} ] |}) |}.

End SampleApi.

Module SampleStore.

(** The offers of scenario A as three objects and the array of them. *)
Definition objects : list Store.cell :=
  map Store.FlightObject Sample.scenarioA ++ [Store.FlightArray [0; 1; 2]%nat].

Definition offers : nat := 3.

End SampleStore.

(** ** The other functions of [src/utils/flightUtils.ts] *)

(** The result of getMinMaxPrice. *)
Module MinMax.

Record t : Type := { min : JS.number; max : JS.number }.

End MinMax.

Module FlightUtilsMore.

Import JS FlightUtils.

(** [set.add(x)] on a [Set<string>], kept as the list of its elements in
    insertion order. *)
Definition Set_add (set : list string) (x : string) : list string :=
  if includes set x then set else set ++ [x].

(** [xs.sort()] on strings: ascending in the order of their code units
    (here: of their bytes).  The elements sorted below are distinct, so the
    result does not depend on the sorting algorithm. *)
Fixpoint insertSorted (x : string) (sorted : list string) : list string :=
  match sorted with
  | [] => [x]
  | y :: rest =>
      if String.leb x y then x :: y :: rest else y :: insertSorted x rest
  end.

Definition sort (xs : list string) : list string := foldr insertSorted [] xs.

(** The set after [flights.forEach(flight =>
    flight.validatingAirlineCodes.forEach(code => airlines.add(code)))]. *)
Definition collectAirlines (flights : list Flight) : list string :=
  foldl (λ airlines flight,
           foldl Set_add airlines (validatingAirlineCodes flight))
    [] flights.

Definition getAllAirlines (flights : list Flight) : list string :=
  sort (collectAirlines flights).

Definition getMinMaxPrice (flights : list Flight) : MinMax.t :=
  if (length flights =? 0)%nat then
    {| MinMax.min := of_Z 0; MinMax.max := of_Z 0 |}
  else
    let prices :=
      map (λ flight : Flight, parseFloat (total (price flight))) flights in
    {| MinMax.min := Math_min prices; MinMax.max := Math_max prices |}.

(** *** formatDuration *)

(** The text behind the first [PT] of a string: where a match of the
    pattern [/PT(?:(\d+)H)?(?:(\d+)M)?/] begins, if there is one. *)
Fixpoint afterPT (s : string) : option string :=
  match s with
  | String "P" (String "T" rest) => Some rest
  | String _ rest => afterPT rest
  | EmptyString => None
  end.

(** The optional group [(?:(\d+)U)?] at the start of [s]: the digits it
    captures and the text behind it; no capture, and [s] itself, when [s]
    does not start with digits followed by the unit letter. *)
Definition unitGroup (unit : ascii) (s : string)
  : option (list ascii) * string :=
  let '(digits, rest) := span_digits s in
  match digits, rest with
  | _ :: _, String c rest' =>
      if Ascii.eqb c unit then (Some digits, rest') else (None, s)
  | _, _ => (None, s)
  end.

(** [capture ? parseInt(capture) : 0]; the values are exact integers. *)
Definition capturedInt (capture : option (list ascii)) : Z :=
  match capture with
  | Some digits => digits_value digits
  | None => 0
  end.

(** [formatDuration(duration)].  An integer is printed in decimal, as
    JavaScript prints integers below 1e21. *)
Definition formatDuration (duration : string) : string :=
  match afterPT duration with
  | None => duration
  | Some rest =>
      let '(hoursText, rest1) := unitGroup "H" rest in
      let '(minutesText, _) := unitGroup "M" rest1 in
      let hours := capturedInt hoursText in
      let minutes := capturedInt minutesText in
      if hours =? 0 then pretty minutes +:+ "m"
      else if minutes =? 0 then pretty hours +:+ "h"
      else pretty hours +:+ "h " +:+ pretty minutes +:+ "m"
  end.

(** An ISO 8601 duration of [h] hours and [m] minutes. *)
Definition isoDuration (h m : N) : string :=
  "PT" +:+ pretty h +:+ "H" +:+ pretty m +:+ "M".

End FlightUtilsMore.

(** ** Reading the events of a run *)

Module Trace.

Import FlightUtils.

Definition isRequest (e : event) : bool :=
  match e with
  | Request _ _ => true
  | _ => false
  end.

Definition isSettled (e : event) : bool :=
  match e with
  | Settled _ _ => true
  | _ => false
  end.

Definition isPause (e : event) : bool :=
  match e with
  | Pause _ => true
  | _ => false
  end.

(** The requests of a run, in the order they were made. *)
Definition requests (trace : list event) : list event :=
  List.filter isRequest trace.

(** The settlements of a run, in order. *)
Definition settlements (trace : list event) : list event :=
  List.filter isSettled trace.

(** The number of pauses of a run. *)
Definition pauses (trace : list event) : nat :=
  length (List.filter isPause trace).

End Trace.

(** ** The contract of the search call *)

Module AmadeusApiMore.

Import JS AmadeusApi.

(** What a reply that is not a 401 makes [searchFlights] settle with. *)
Definition searchOfReply (reply : OffersReply) : outcome (list Flight) :=
  match reply with
  | OffersOk data => Ok (default [] data)
  | OffersFail response =>
      Throw (ErrorObj "Error" (searchErrorMessage (AxiosError response)))
  end.

(** The world after one more reading of the clock. *)
Definition afterReading (w : World) : World :=
  {| accessToken := accessToken w; tokenExpiry := tokenExpiry w;
     readings := S (readings w); posts := posts w; gets := gets w |}.

End AmadeusApiMore.

(** ** The derived offers and the price effect of [App.tsx] *)

Module AppMore.

Import JS FlightUtils App.

(** The [filters] state after a search or at the start. *)
Definition noFilters : Filters :=
  {| stops := None; maxPrice := None; airlines := [] |}.

(** [useMemo(() => filterFlights(flights, filters), [flights, filters])] *)
Definition filteredFlights (s : State) : list Flight :=
  filterFlights (flights s) (filters s).

(** [handleFiltersChange(newFilters)] *)
Definition handleFiltersChange (newFilters : Filters) (s : State) : State :=
  setFilters newFilters s.

Section Effect.

Variable parseISO : string → DateFns.Date.
Variable getPriceForDate : string → string → string → number → FetchOutcome.

(** [updatePriceData()] of the effect on [filteredFlights] and
    [searchParams], run to its end on the state of the render that
    started it; with the state comes the exception that rejects its
    promise, if any. *)
Definition updatePriceData (s : State) : option (State * option thrown) :=
  let filtered := filteredFlights s in
  if (length filtered =? 0)%nat then Some (setPriceData [] s, None)
  else
    let context := searchParams s in
    let s := setLoadingPrices true s in
    r ← awaitPriceData parseISO getPriceForDate filtered context;
    match r with
    | Ok data => Some (setLoadingPrices false (setPriceData data s), None)
    | Throw _ =>
        r' ← awaitPriceData parseISO getPriceForDate filtered None;
        match r' with
        | Ok basicData =>
            Some (setLoadingPrices false (setPriceData basicData s), None)
        | Throw err => Some (setLoadingPrices false s, Some err)
        end
    end.

End Effect.

End AppMore.

(** ** [src/components/Filters.tsx] *)

Module FiltersComponent.

Import JS FlightUtils FlightUtilsMore.

(** The memoized [priceRange], a pair [min, max]. *)
Definition priceRange (flights : list Flight) : number * number :=
  if (length flights =? 0)%nat then (of_Z 0, of_Z 10000)
  else
    let prices :=
      map (λ f : Flight, parseFloat (total (price f))) flights in
    (Math_min prices, Math_max prices).

(** A number is truthy unless it is 0 or NaN. *)
Definition truthyNumber (x : number) : bool :=
  match x with
  | NaN => false
  | Fin q => negb (Qeq_bool q 0)
  | _ => true
  end.

(** The effect on [priceRange[1]]: the filters it passes to
    [onFiltersChange], if it calls it. *)
Definition clampMaxPrice (filters : Filters) (flights : list Flight)
  : option Filters :=
  let top := (priceRange flights).2 in
  match maxPrice filters with
  | Some ceiling =>
      if truthyNumber ceiling && gt ceiling top && gt top (of_Z 0)
      then Some {| stops := stops filters; maxPrice := Some top;
                   airlines := airlines filters |}
      else None
  | None => None
  end.

End FiltersComponent.

(** ** The pages of [FlightResults] (in [src/components/PriceGraph.tsx]) *)

Module FlightResults.

(** [xs.slice(start, end)] with integer arguments: a negative index counts
    from the end, and both are clamped to the array. *)
Definition Array_slice {A} (xs : list A) (start end_ : Z) : list A :=
  let len := Z.of_nat (length xs) in
  let k := if start <? 0 then Z.max (len + start) 0 else Z.min start len in
  let final :=
    if end_ <? 0 then Z.max (len + end_) 0 else Z.min end_ len in
  take (Z.to_nat (final - k)) (drop (Z.to_nat k) xs).

Definition ITEMS_PER_PAGE : Z := 10.

(** [Math.ceil(flights.length / ITEMS_PER_PAGE)] *)
Definition totalPages {A} (flights : list A) : Z :=
  Qceiling (inject_Z (Z.of_nat (length flights)) / inject_Z ITEMS_PER_PAGE).

Definition paginatedFlights {A} (flights : list A) (page : Z) : list A :=
  let startIndex := (page - 1) * ITEMS_PER_PAGE in
  let endIndex := startIndex + ITEMS_PER_PAGE in
  Array_slice flights startIndex endIndex.

(** [displayRange]: the pair of [start] and [end]. *)
Definition displayRange {A} (flights : list A) (page : Z) : Z * Z :=
  ((page - 1) * ITEMS_PER_PAGE + 1,
   Z.min (page * ITEMS_PER_PAGE) (Z.of_nat (length flights))).

End FlightResults.

(** ** The airport options of [SearchForm] (in
    [src/components/PriceGraph.tsx]) *)

Module SearchForm.

Record AirportOption : Type := {
  iataCode : string;
  name : string
}.

(** The callback of [apiResults.forEach] in the options effect: a result
    is pushed unless an option with its code is there already. *)
Definition addSuggestion (combined : list AirportOption)
    (apiResult : AirportOption) : list AirportOption :=
  if existsb (λ item, String.eqb (iataCode item) (iataCode apiResult))
       combined
  then combined
  else combined ++ [apiResult].

(** The options the effect sets once the suggestions have arrived. *)
Definition combinedOptions (filteredPopular apiResults : list AirportOption)
  : list AirportOption :=
  foldl addSuggestion filteredPopular apiResults.

End SearchForm.

(** * Properties *)

Import JS DateFns FlightUtils.

(** ** Numbers *)

Lemma Qle_bool_false (a b : Q) : Qle_bool a b = false → (b < a)%Q.
Proof.
  intros H. apply Qnot_le_lt. intros Hle.
  apply Qle_bool_iff in Hle. congruence.
Qed.

Lemma Qle_bool_true (a b : Q) : Qle_bool a b = true → (a <= b)%Q.
Proof. apply Qle_bool_iff. Qed.

Ltac q_order :=
  repeat match goal with
  | H : Qle_bool _ _ = true |- _ => apply Qle_bool_true in H
  | H : Qle_bool _ _ = false |- _ => apply Qle_bool_false in H
  end;
  try lra.

Ltac q_cases :=
  repeat match goal with
  | |- context [Qle_bool ?a ?b] =>
      let E := fresh "E" in destruct (Qle_bool a b) eqn:E; simpl
  end.

Lemma max2_assoc (a b c : number) : max2 (max2 a b) c = max2 a (max2 b c).
Proof.
  destruct a, b, c; simpl; try reflexivity;
    unfold max2, gt; q_cases; try reflexivity; exfalso; q_order.
Qed.

Lemma max2_NegInf_l (x : number) : max2 NegInf x = x.
Proof. by destruct x. Qed.

Lemma max2_NegInf_r (x : number) : max2 x NegInf = x.
Proof. by destruct x. Qed.

Lemma foldl_max2 (a : number) (xs : list number) :
  foldl max2 a xs = max2 a (Math_max xs).
Proof.
  unfold Math_max. revert a.
  induction xs as [|x xs IH]; intros a; cbn [foldl].
  - by rewrite max2_NegInf_r.
  - rewrite IH, (IH (max2 NegInf x)), max2_NegInf_l. apply max2_assoc.
Qed.

Lemma Math_max_app (xs ys : list number) :
  Math_max (xs ++ ys) = max2 (Math_max xs) (Math_max ys).
Proof. unfold Math_max at 1. rewrite foldl_app. apply foldl_max2. Qed.

(** The maximum of the per-list maxima is the maximum of all elements. *)
Lemma Math_max_concat (xss : list (list number)) :
  Math_max (map Math_max xss) = Math_max (concat xss).
Proof.
  induction xss as [|xs xss IH]; [done|].
  cbn [map concat]. rewrite Math_max_app, <- IH.
  unfold Math_max at 1. cbn [foldl]. rewrite max2_NegInf_l. apply foldl_max2.
Qed.

Lemma gt_false_iff (x y : number) :
  gt x y = false ↔ le x y = true ∨ x = NaN ∨ y = NaN.
Proof.
  destruct x, y; simpl; try (split; [ intros; auto | done ]);
    try (split; [ done | intros [?|[?|?]]; done ]).
  destruct (Qle_bool q q0); simpl; split; auto. intros [?|[?|?]]; done.
Qed.

(** ** The result filter *)

Lemma includes_elem_of (xs : list string) (x : string) :
  includes xs x = true ↔ x ∈ xs.
Proof.
  unfold includes. rewrite existsb_exists. split.
  - intros (y & Hy & Heq). apply String.eqb_eq in Heq. subst y.
    by apply list_elem_of_In.
  - intros Hx. exists x. split; [by apply list_elem_of_In|].
    apply String.eqb_refl.
Qed.

Lemma nested_max_stops (flight : Flight) :
  Math_max (map (λ itinerary, Math_max (map numberOfStops (segments itinerary)))
              (itineraries flight))
  = max_stop_count flight.
Proof.
  unfold max_stop_count, all_segments.
  rewrite concat_map, <- Math_max_concat.
  f_equal. induction (itineraries flight) as [|it its IH]; [done|].
  simpl. by rewrite IH.
Qed.

Lemma stops_guard (spec : Filters) (flight : Flight) :
  match stops spec with
  | Some wanted =>
      strict_ne
        (Math_max (map (λ itinerary,
           Math_max (map numberOfStops (segments itinerary)))
           (itineraries flight))) wanted
  | None => false
  end = false ↔ stops_pass spec flight.
Proof.
  rewrite nested_max_stops. unfold stops_pass, strict_ne.
  destruct (stops spec) as [wanted|].
  - rewrite negb_false_iff. split.
    + intros H w [= <-]. exact H.
    + intros H. by apply H.
  - split; [intros _ w [=] | done].
Qed.

Lemma price_guard (spec : Filters) (flight : Flight) :
  match maxPrice spec with
  | Some ceiling => gt (parseFloat (total (price flight))) ceiling
  | None => false
  end = false ↔ price_pass_or_nan spec flight.
Proof.
  unfold price_pass_or_nan, total_price.
  destruct (maxPrice spec) as [ceiling|].
  - rewrite gt_false_iff. split.
    + intros H c [= <-]. exact H.
    + intros H. by apply H.
  - split; [intros _ c [=] | done].
Qed.

Lemma airlines_guard (spec : Filters) (flight : Flight) :
  (0 <? length (airlines spec))%nat
  && negb (existsb (λ airline, includes (airlines spec) airline)
             (validatingAirlineCodes flight)) = false
  ↔ airlines_pass spec flight.
Proof.
  unfold airlines_pass. rewrite andb_false_iff, negb_false_iff, existsb_exists.
  split.
  - intros [Hlen | (code & Hin & Hinc)] Hne.
    + apply Nat.ltb_ge in Hlen. destruct (airlines spec); [done | simpl in Hlen; lia].
    + exists code. split; [by apply list_elem_of_In | by apply includes_elem_of].
  - intros H. destruct (airlines spec) as [|a l] eqn:E; [by left|].
    right. destruct H as (code & Hin & Hacc); [done|].
    exists code. split; [by apply list_elem_of_In | by apply includes_elem_of].
Qed.

(** The callback keeps an offer exactly when the three predicates hold. *)
Lemma keepFlight_iff (spec : Filters) (flight : Flight) :
  keepFlight spec flight = true ↔ retained_or_nan spec flight.
Proof.
  unfold retained_or_nan.
  rewrite <- stops_guard, <- price_guard, <- airlines_guard.
  unfold keepFlight.
  repeat match goal with
  | |- context [if ?b then false else _] => destruct b eqn:?
  end; intuition congruence.
Qed.

Lemma filter_kept_subsequence {A} (P : A → Prop) (p : A → bool) (l : list A) :
  (∀ x, p x = true ↔ P x) → kept_subsequence P l (List.filter p l).
Proof.
  intros Hp. induction l as [|x l IH]; simpl; [constructor|].
  destruct (p x) eqn:E.
  - apply kept_keep; [by apply Hp | done].
  - apply kept_drop; [|done]. rewrite <- Hp. congruence.
Qed.

(** The relation fixes the result: a list has one such subsequence. *)
Lemma kept_subsequence_unique {A} (P : A → Prop) (l out1 out2 : list A) :
  kept_subsequence P l out1 → kept_subsequence P l out2 → out1 = out2.
Proof.
  intros H1. revert out2.
  induction H1 as [|x l out HP _ IH|x l out HP _ IH]; intros out2 H2;
    inversion H2; subst; try done.
  - f_equal. by apply IH.
  - by apply IH.
Qed.

(** C4 as the code has it: filterFlights returns the order-preserving
    subsequence of its input made of exactly the offers that pass the
    stops predicate (maximum stop count equal to the wanted one), the
    price predicate (total price at most the ceiling, or a comparison with
    NaN) and the airline predicate (one validating code is accepted). *)
Theorem filterFlights_kept_subsequence (flights : list Flight) (spec : Filters) :
  kept_subsequence (retained_or_nan spec) flights (filterFlights flights spec).
Proof. apply filter_kept_subsequence, keepFlight_iff. Qed.

(** C4 as stated fails: an offer whose price text is not a number passes a
    ceiling of 0, although its price is not at most 0. *)
Lemma filterFlights_keeps_unpriced :
  ¬ kept_subsequence (retained Sample.ceiling_zero) [Sample.unpriced]
      (filterFlights [Sample.unpriced] Sample.ceiling_zero).
Proof.
  change (filterFlights [Sample.unpriced] Sample.ceiling_zero)
    with [Sample.unpriced].
  intros H. inversion H as [| x l out Hret Hrest | x l out Hnot Hrest]; subst.
  - destruct Hret as (_ & Hprice & _).
    specialize (Hprice (of_Z 0) eq_refl). vm_compute in Hprice. discriminate.
  - inversion Hrest.
Qed.

(** C5: with no constraint the filter is the identity. *)
Theorem filterFlights_no_constraint (flights : list Flight) :
  filterFlights flights no_constraint = flights.
Proof.
  unfold filterFlights.
  induction flights as [|flight flights IH]; [done|].
  simpl. by rewrite IH.
Qed.

Lemma elem_of_filterFlights (flights : list Flight) (spec : Filters) (flight : Flight) :
  flight ∈ filterFlights flights spec
  ↔ flight ∈ flights ∧ retained_or_nan spec flight.
Proof.
  unfold filterFlights. rewrite list_elem_of_In, filter_In, <- list_elem_of_In.
  by rewrite keepFlight_iff.
Qed.

(** C10: with a price ceiling set, an offer whose price text parses to NaN
    is kept whenever the stops and the airline predicates pass, whatever
    the ceiling. *)
Theorem filterFlights_nan_price_kept
    (flights : list Flight) (spec : Filters) (ceiling : number) (flight : Flight) :
  maxPrice spec = Some ceiling →
  parseFloat (total (price flight)) = NaN →
  stops_pass spec flight →
  airlines_pass spec flight →
  flight ∈ flights →
  flight ∈ filterFlights flights spec.
Proof.
  intros _ Hnan Hstops Hair Hin.
  apply elem_of_filterFlights. split; [done|].
  split; [done|]. split; [|done].
  intros c _. right. by left.
Qed.

Lemma filterFlights_nan_price_kept_witness :
  Sample.unpriced ∈ filterFlights [Sample.unpriced] Sample.ceiling_zero.
Proof.
  apply (filterFlights_nan_price_kept [Sample.unpriced] Sample.ceiling_zero
           (of_Z 0) Sample.unpriced).
  - reflexivity.
  - vm_compute. reflexivity.
  - intros w H. vm_compute in H. discriminate.
  - intros H. exfalso. apply H. reflexivity.
  - apply list_elem_of_here.
Defined.

(** ** Arithmetic on numbers *)

(** The results of [parseFloat], [+] and [/] are the binary64 ones: 0.1 is
    not one tenth, 0.1 + 0.2 is 0.30000000000000004, 2^53 + 1 reads as
    2^53 (a tie, to the even significand), 1e309 reads as Infinity, and the
    smallest subnormal is kept while half of it is 0. *)
Example binary64_values :
  JS.parseFloat "0.1" = JS.Fin (3602879701896397 # 36028797018963968)
  ∧ JS.add (JS.parseFloat "0.1") (JS.parseFloat "0.2")
    = JS.Fin (1351079888211149 # 4503599627370496)
  ∧ JS.div (JS.of_Z 1) (JS.of_Z 3)
    = JS.Fin (6004799503160661 # 18014398509481984)
  ∧ JS.parseFloat "9007199254740993" = JS.of_Z 9007199254740992
  ∧ JS.parseFloat "1.7976931348623159e308" = JS.PosInf
  ∧ JS.parseFloat "-1e309" = JS.NegInf
  ∧ JS.parseFloat "5e-324" = JS.Fin (1 # Pos.pow 2 1074)
  ∧ JS.parseFloat "2.4e-324" = JS.Fin 0.
Proof. vm_compute. repeat split. Qed.

(** The prices 135.39, 135.52 and 30.59 add up to 301.50, whose third
    rounds to 101; added as numbers they give 301.49999999999994, and
    [Math.round] of a third of that is 100. *)
Example binary64_sum_of_prices :
  JS.add (JS.add (JS.add (JS.of_Z 0) (JS.parseFloat "135.39"))
            (JS.parseFloat "135.52")) (JS.parseFloat "30.59")
  = JS.Fin (5304044092391423 # 17592186044416)
  ∧ JS.Math_round (JS.Fin (((13539 # 100) + (13552 # 100) + (3059 # 100)) / 3))
    = JS.of_Z 101
  ∧ JS.Math_round
      (JS.div (JS.add (JS.add (JS.add (JS.of_Z 0) (JS.parseFloat "135.39"))
                         (JS.parseFloat "135.52")) (JS.parseFloat "30.59"))
         (JS.of_Z 3))
    = JS.of_Z 100.
Proof. vm_compute. repeat split. Qed.

(** ** Dates *)

Import AggregatorSpec.

Lemma date_le_Some (t e : Z) : date_le (Some t) (Some e) = (t <=? e).
Proof.
  unfold date_le, getTime, of_Z, le, Qle_bool, inject_Z. simpl.
  by rewrite !Z.mul_1_r.
Qed.

Lemma date_le_None_l (d : Date) : date_le None d = false.
Proof. done. Qed.

Lemma date_le_None_r (d : Date) : date_le d None = false.
Proof. by destruct d. Qed.

Lemma Qtrunc_inject_Z (z : Z) : Qtrunc (inject_Z z) = z.
Proof. unfold Qtrunc. destruct (Qle_bool 0 (inject_Z z)); [apply Qfloor_Z | apply Qceiling_Z]. Qed.

Lemma new_Date_of_Z (z : Z) : new_Date (of_Z z) = Some z.
Proof. unfold new_Date, of_Z. by rewrite Qtrunc_inject_Z. Qed.

Lemma day_of_add_days (t k : Z) : day_of (t + k * msPerDay) = day_of t + k.
Proof. unfold day_of. by rewrite Z.div_add. Qed.

(** ** The range loop *)

Section RangeLoop.

Variable priceMap : gmap string (number * nat).

Lemma rangePoint_shift (t : Z) (k : nat) :
  rangePoint priceMap (t + 1 * msPerDay) k = rangePoint priceMap t (S k).
Proof.
  unfold rangePoint.
  replace (t + 1 * msPerDay + Z.of_nat k * msPerDay)
    with (t + Z.of_nat (S k) * msPerDay) by (unfold msPerDay; lia).
  reflexivity.
Qed.

(** With enough fuel the loop returns one point per day from [t] while the
    time value is at most [e]. *)
Lemma buildDates_points (fuel : nat) (e t : Z) (acc : list PriceDataPoint) :
  (Z.to_nat ((e - t) / msPerDay + 1) ≤ fuel)%nat →
  buildDates fuel priceMap (Some e) (Some t) acc
  = Some (Ok (acc ++ map (rangePoint priceMap t)
                       (seq 0 (Z.to_nat ((e - t) / msPerDay + 1))))).
Proof.
  revert t acc. induction fuel as [|fuel IH]; intros t acc Hfuel.
  - cbn [buildDates]. rewrite date_le_Some.
    assert ((e - t) / msPerDay + 1 <= 0) as Hn by lia.
    destruct (Z.leb_spec t e) as [Hle|Hlt].
    + exfalso. assert (0 <= (e - t) / msPerDay); [|lia].
      apply Z.div_pos; unfold msPerDay; lia.
    + replace (Z.to_nat _) with 0%nat by lia. simpl. by rewrite app_nil_r.
  - cbn [buildDates]. rewrite date_le_Some.
    destruct (Z.leb_spec t e) as [Hle|Hlt].
    + assert (0 <= (e - t) / msPerDay) as Hpos.
      { apply Z.div_pos; unfold msPerDay; lia. }
      assert ((e - (t + 1 * msPerDay)) / msPerDay = (e - t) / msPerDay - 1)
        as Hstep.
      { replace (e - (t + 1 * msPerDay)) with (e - t + (-1) * msPerDay) by lia.
        rewrite Z.div_add; [lia | done]. }
      cbn [format addDays]. rewrite IH by (rewrite Hstep; lia).
      rewrite Hstep.
      replace (Z.to_nat ((e - t) / msPerDay + 1))
        with (S (Z.to_nat ((e - t) / msPerDay - 1 + 1))) by lia.
      cbn [seq map]. rewrite <- seq_shift, map_map, <- app_assoc.
      do 3 f_equal. simpl. f_equal.
      * unfold rangePoint. simpl. by rewrite Z.add_0_r.
      * apply map_ext. intros k. apply rangePoint_shift.
    + assert ((e - t) / msPerDay < 0) as Hneg.
      { apply Z.div_lt_upper_bound; unfold msPerDay; lia. }
      replace (Z.to_nat _) with 0%nat by lia. simpl. by rewrite app_nil_r.
Qed.

(** The loop never runs out of the fuel [loopFuel] grants, and it raises
    nothing. *)
Lemma buildDates_loopFuel (endDate currentDate : Date) :
  ∃ points,
    buildDates (loopFuel currentDate endDate) priceMap endDate currentDate []
    = Some (Ok points).
Proof.
  destruct currentDate as [t|], endDate as [e|].
  - eexists. unfold loopFuel. by rewrite buildDates_points.
  - exists []. unfold loopFuel. cbn [buildDates]. by rewrite date_le_None_r.
  - exists []. done.
  - exists []. done.
Qed.

End RangeLoop.

(** ** Minimum and maximum of time values *)

Lemma gt_of_Z (a b : Z) : gt (of_Z a) (of_Z b) = negb (a <=? b).
Proof.
  unfold gt, of_Z, Qle_bool, inject_Z. simpl. by rewrite !Z.mul_1_r.
Qed.

Lemma min2_of_Z (a b : Z) : min2 (of_Z a) (of_Z b) = of_Z (Z.min a b).
Proof.
  unfold min2, lt. change (gt (Fin (inject_Z a)) (Fin (inject_Z b)))
    with (gt (of_Z a) (of_Z b)).
  unfold of_Z at 1 2. cbn iota. rewrite gt_of_Z.
  destruct (Z.leb_spec a b); simpl; f_equal; lia.
Qed.

Lemma max2_of_Z (a b : Z) : max2 (of_Z a) (of_Z b) = of_Z (Z.max a b).
Proof.
  unfold max2. change (gt (Fin (inject_Z b)) (Fin (inject_Z a)))
    with (gt (of_Z b) (of_Z a)).
  unfold of_Z at 1 2. cbn iota. rewrite gt_of_Z.
  destruct (Z.leb_spec b a); simpl; f_equal; lia.
Qed.

Lemma foldl_min2_of_Z (a : Z) (ts : list Z) :
  ∃ z, foldl min2 (of_Z a) (map of_Z ts) = of_Z z
       ∧ z ∈ a :: ts ∧ z ≤ a ∧ Forall (λ t, z ≤ t) ts.
Proof.
  revert a. induction ts as [|t ts IH]; intros a.
  - exists a. repeat split; [apply list_elem_of_here | lia | constructor].
  - cbn [map foldl]. rewrite min2_of_Z.
    destruct (IH (Z.min a t)) as (z & Hz & Hin & Hle & Hall).
    exists z. repeat split; [done | | lia | constructor; [lia | done]].
    apply elem_of_cons in Hin as [-> | Hin].
    + destruct (Z.min_spec a t) as [[_ ->] | [_ ->]];
        [apply list_elem_of_here | apply list_elem_of_further, list_elem_of_here].
    + by do 2 apply list_elem_of_further.
Qed.

Lemma foldl_max2_of_Z (a : Z) (ts : list Z) :
  ∃ z, foldl max2 (of_Z a) (map of_Z ts) = of_Z z
       ∧ z ∈ a :: ts ∧ a ≤ z ∧ Forall (λ t, t ≤ z) ts.
Proof.
  revert a. induction ts as [|t ts IH]; intros a.
  - exists a. repeat split; [apply list_elem_of_here | lia | constructor].
  - cbn [map foldl]. rewrite max2_of_Z.
    destruct (IH (Z.max a t)) as (z & Hz & Hin & Hle & Hall).
    exists z. repeat split; [done | | lia | constructor; [lia | done]].
    apply elem_of_cons in Hin as [-> | Hin].
    + destruct (Z.max_spec a t) as [[_ ->] | [_ ->]];
        [apply list_elem_of_further, list_elem_of_here | apply list_elem_of_here].
    + by do 2 apply list_elem_of_further.
Qed.

Lemma getTime_valid (ts : list Z) : map getTime (map Some ts) = map of_Z ts.
Proof. by rewrite map_map. Qed.

(** The earliest of a non-empty list of valid dates. *)
Lemma Math_min_times (ts : list Z) :
  ts ≠ [] →
  ∃ z, Math_min (map getTime (map Some ts)) = of_Z z
       ∧ z ∈ ts ∧ Forall (λ t, z ≤ t) ts.
Proof.
  destruct ts as [|a ts]; [done | intros _].
  rewrite getTime_valid. unfold Math_min. cbn [map foldl].
  change (min2 PosInf (of_Z a)) with (of_Z a).
  destruct (foldl_min2_of_Z a ts) as (z & Hz & Hin & Hle & Hall).
  exists z. repeat split; [done | done | by constructor].
Qed.

(** The latest of a non-empty list of valid dates. *)
Lemma Math_max_times (ts : list Z) :
  ts ≠ [] →
  ∃ z, Math_max (map getTime (map Some ts)) = of_Z z
       ∧ z ∈ ts ∧ Forall (λ t, t ≤ z) ts.
Proof.
  destruct ts as [|a ts]; [done | intros _].
  rewrite getTime_valid. unfold Math_max. cbn [map foldl].
  change (max2 NegInf (of_Z a)) with (of_Z a).
  destruct (foldl_max2_of_Z a ts) as (z & Hz & Hin & Hle & Hall).
  exists z. repeat split; [done | done | by constructor].
Qed.

(** ** Grouping and range construction *)

Section AggregatorFacts.

Variable parseISO : string → Date.


Lemma groupStep_Ok (priceMap priceMap' : gmap string (number * nat))
    (flight : Flight) :
  groupStep parseISO priceMap flight = Ok priceMap' →
  ∃ dateStr,
    departureDay parseISO flight = Ok dateStr
    ∧ priceMap' =
        <[dateStr := (add (default (of_Z 0, 0%nat) (priceMap !! dateStr)).1
                        (total_price flight),
                      S (default (of_Z 0, 0%nat) (priceMap !! dateStr)).2)]>
          priceMap.
Proof.
  unfold groupStep, departureDay.
  destruct (firstDeparture flight) as [departureAt|e]; [|done]. simpl.
  destruct (format (parseISO departureAt)) as [dateStr|e]; [|done]. simpl.
  intros [= <-]. by exists dateStr.
Qed.

Lemma departsOn_true (day : string) (flight : Flight) :
  departsOn parseISO day flight = true ↔ departureDay parseISO flight = Ok day.
Proof.
  unfold departsOn. destruct (departureDay parseISO flight) as [day'|e].
  - rewrite String.eqb_eq. split; [by intros -> | by intros [= ->]].
  - done.
Qed.

Lemma groupPrices_lookup (flights : list Flight)
    (priceMap0 priceMap : gmap string (number * nat)) (day : string) :
  groupPrices parseISO flights priceMap0 = Ok priceMap →
  priceMap !! day = grouped (priceMap0 !! day) (offersOn parseISO day flights).
Proof.
  revert priceMap0. induction flights as [|flight rest IH]; intros priceMap0.
  - simpl. by intros [= ->].
  - cbn [groupPrices].
    destruct (groupStep parseISO priceMap0 flight) as [priceMap1|e] eqn:Hstep; [|done].
    simpl. intros Hrest. rewrite (IH _ Hrest).
    apply groupStep_Ok in Hstep as (dateStr & Hday & ->).
    unfold offersOn. cbn [List.filter].
    destruct (departsOn parseISO day flight) eqn:Hon.
    + apply departsOn_true in Hon. rewrite Hday in Hon.
      injection Hon as ->. rewrite lookup_insert_eq.
      destruct (List.filter _ rest) as [|o os]; simpl.
      * do 2 f_equal. lia.
      * do 2 f_equal. lia.
    + assert (dateStr ≠ day) as Hne.
      { intros ->. apply departsOn_true in Hday. congruence. }
      by rewrite lookup_insert_ne.
Qed.

(** After grouping from the empty map, a date with offers holds their sum
    and their number. *)
Lemma groupPrices_offers (flights : list Flight)
    (priceMap : gmap string (number * nat)) (day : string) :
  groupPrices parseISO flights ∅ = Ok priceMap →
  offersOn parseISO day flights ≠ [] →
  priceMap !! day
  = Some (priceSum (offersOn parseISO day flights), length (offersOn parseISO day flights)).
Proof.
  intros Hgroup Hne. rewrite (groupPrices_lookup _ _ _ _ Hgroup).
  rewrite lookup_empty. unfold grouped.
  destruct (offersOn parseISO day flights); [done|]. reflexivity.
Qed.

(** Grouping succeeds only if every offer has a valid departure date. *)
Lemma groupPrices_departures (flights : list Flight)
    (priceMap0 priceMap : gmap string (number * nat)) :
  groupPrices parseISO flights priceMap0 = Ok priceMap →
  ∃ ts, Forall2 (λ flight t,
           departureTime parseISO flight = Some t
           ∧ departureDay parseISO flight = Ok (format_day (day_of t))) flights ts.
Proof.
  revert priceMap0. induction flights as [|flight rest IH]; intros priceMap0.
  - exists []. constructor.
  - cbn [groupPrices].
    destruct (groupStep parseISO priceMap0 flight) as [priceMap1|e] eqn:Hstep; [|done].
    simpl. intros Hrest. destruct (IH _ Hrest) as (ts & Hts).
    apply groupStep_Ok in Hstep as (dateStr & Hday & _).
    unfold departureDay in Hday.
    destruct (firstDeparture flight) as [departureAt|e] eqn:Hfirst; [|done].
    simpl in Hday. destruct (parseISO departureAt) as [t|] eqn:Hparse; [|done].
    exists (t :: ts). constructor; [|done].
    unfold departureDay, departureTime. rewrite Hfirst. simpl.
    by rewrite Hparse.
Qed.

Lemma flightDates_valid (flights : list Flight) (ts : list Z) :
  Forall2 (λ flight t, departureTime parseISO flight = Some t) flights ts →
  flightDates parseISO flights = Ok (map Some ts).
Proof.
  induction 1 as [|flight t rest ts Ht _ IH]; [done|].
  cbn [flightDates]. unfold departureTime in Ht.
  destruct (firstDeparture flight) as [departureAt|e]; [|done].
  simpl. rewrite IH. simpl. by rewrite Ht.
Qed.

(** The range of a non-empty offer list: an exception of grouping, or one
    point per day from the earliest departure while the time value is at
    most that of the latest departure plus five days. *)
Lemma buildRange_cases (flights : list Flight) :
  flights ≠ [] →
  (∃ e, buildRange parseISO flights = Some (Throw e))
  ∨ (∃ priceMap ts earliest latest,
       groupPrices parseISO flights ∅ = Ok priceMap
       ∧ Forall2 (λ flight t,
            departureTime parseISO flight = Some t
            ∧ departureDay parseISO flight = Ok (format_day (day_of t))) flights ts
       ∧ earliest ∈ ts ∧ latest ∈ ts
       ∧ Forall (λ t, earliest ≤ t ≤ latest) ts
       ∧ buildRange parseISO flights
         = Some (Ok (map (rangePoint priceMap earliest)
               (seq 0 (Z.to_nat
                  ((latest + 5 * msPerDay - earliest) / msPerDay + 1)))))).
Proof.
  intros Hne. unfold buildRange.
  destruct (groupPrices parseISO flights ∅) as [priceMap|e] eqn:Hgroup;
    [|left; by exists e].
  right. destruct (groupPrices_departures _ _ _ Hgroup) as (ts & Hts).
  assert (ts ≠ []) as Hts_ne.
  { intros ->. apply Forall2_nil_inv_r in Hts. done. }
  rewrite (flightDates_valid flights ts)
    by (eapply Forall2_impl; [exact Hts | by intros ?? [? _]]).
  destruct (Math_min_times ts Hts_ne) as (earliest & -> & Hein & Hemin).
  destruct (Math_max_times ts Hts_ne) as (latest & -> & Hlin & Hlmax).
  rewrite !new_Date_of_Z. cbn [addDays].
  exists priceMap, ts, earliest, latest.
  repeat split; try done.
  - rewrite Forall_forall in Hemin, Hlmax. apply Forall_forall.
    intros t Ht. split; auto.
  - unfold loopFuel. by rewrite buildDates_points.
Qed.

(** The range construction never runs out of fuel. *)
Lemma buildRange_total (flights : list Flight) :
  ∃ r, buildRange parseISO flights = Some r.
Proof.
  unfold buildRange.
  destruct (groupPrices parseISO flights ∅) as [priceMap|e]; [|by eexists].
  destruct (flightDates parseISO flights) as [dates|e]; [|by eexists].
  cbv zeta.
  destruct (buildDates_loopFuel priceMap
              (addDays (new_Date (Math_max (map getTime dates))) 5)
              (new_Date (Math_min (map getTime dates)))) as (points & ->).
  by eexists.
Qed.

End AggregatorFacts.

(** ** Gap fill *)

Section GapFill.

Variable getPriceForDate : string → string → string → number → FetchOutcome.
Variable params : SearchParams.

Lemma settle_gap (filled rest : list PriceDataPoint) (point : PriceDataPoint) :
  isGap point = true →
  settle getPriceForDate params (filled ++ point :: rest)
    (point, length filled)
  = filled ++ gapFilled getPriceForDate params point :: rest.
Proof.
  unfold isGap, settle, gapFilled. cbn [fst snd].
  destruct (pd_price point); [done | intros _].
  destruct (getPriceForDate _ _ _ _) as [[found|]|e]; try done.
  replace (length filled) with (length filled + 0)%nat by lia.
  by rewrite alter_app_r.
Qed.

Lemma gapFilled_known (point : PriceDataPoint) :
  isGap point = false → gapFilled getPriceForDate params point = point.
Proof. unfold isGap, gapFilled. by destruct (pd_price point). Qed.

(** Settling the requests of all gaps, in index order, fills each point on
    its own. *)
Lemma settle_all (filled rest : list PriceDataPoint) :
  foldl (settle getPriceForDate params) (filled ++ rest)
    (List.filter (λ entry, isGap entry.1)
       (imap (λ index dataPoint, (dataPoint, (length filled + index)%nat)) rest))
  = filled ++ map (gapFilled getPriceForDate params) rest.
Proof.
  revert filled. induction rest as [|point rest IH]; intros filled; [done|].
  rewrite imap_cons. cbn [List.filter fst map].
  assert (∀ point' : PriceDataPoint,
            imap ((λ index dataPoint,
                     (dataPoint, (length filled + index)%nat)) ∘ S) rest
            = imap (λ index dataPoint,
                      (dataPoint, (length (filled ++ [point']) + index)%nat))
                rest)
    as Hshift.
  { intros point'. apply imap_ext. intros i x _. simpl.
    rewrite length_app. simpl. f_equal. lia. }
  destruct (isGap point) eqn:Hgap.
  - cbn [foldl]. rewrite Nat.add_0_r, settle_gap by done.
    rewrite (Hshift (gapFilled getPriceForDate params point)).
    rewrite (cons_middle _ filled rest), app_assoc, IH.
    by rewrite <- app_assoc.
  - rewrite (Hshift point).
    rewrite (cons_middle _ filled rest), app_assoc, IH.
    rewrite <- app_assoc. simpl. by rewrite gapFilled_known.
Qed.

Lemma settle_datesToFetch (allDates : list PriceDataPoint) :
  foldl (settle getPriceForDate params) allDates (datesToFetch allDates)
  = map (gapFilled getPriceForDate params) allDates.
Proof. exact (settle_all [] allDates). Qed.

Lemma slice_batch {A} (xs : list A) (i : nat) :
  slice xs i (i + BATCH_SIZE) = take BATCH_SIZE (drop i xs).
Proof. unfold slice. f_equal. lia. Qed.

(** The batch loop: with enough fuel it settles every remaining request,
    and its events are those of a schedule that cuts the remaining requests
    into batches of one to five. *)
Lemma fetchBatches_schedule (fuel : nat)
    (toFetch : list (PriceDataPoint * nat)) (i : nat)
    (allDates : list PriceDataPoint) (trace : list event) :
  (length toFetch - i ≤ fuel)%nat →
  ∃ batches,
    concat batches = drop i toFetch
    ∧ Forall (λ batch, (1 ≤ length batch ≤ BATCH_SIZE)%nat) batches
    ∧ fetchBatches getPriceForDate fuel params toFetch i allDates trace
      = Some (foldl (settle getPriceForDate params) allDates (drop i toFetch),
              trace ++ scheduleTrace getPriceForDate params batches).
Proof.
  revert i allDates trace.
  induction fuel as [|fuel IH]; intros i allDates trace Hfuel.
  - exists []. cbn [fetchBatches].
    destruct (Nat.ltb_spec i (length toFetch)); [lia|].
    rewrite drop_ge by lia. simpl. by rewrite app_nil_r.
  - cbn [fetchBatches].
    destruct (Nat.ltb_spec i (length toFetch)) as [Hlt|Hge].
    + rewrite slice_batch.
      destruct (IH (i + BATCH_SIZE)%nat
                  (foldl (settle getPriceForDate params) allDates
                     (take BATCH_SIZE (drop i toFetch)))
                  (if (i + BATCH_SIZE <? length toFetch)%nat
                   then (trace ++ batchEvents getPriceForDate params
                                    (take BATCH_SIZE (drop i toFetch)))
                        ++ [Pause 200]
                   else trace ++ batchEvents getPriceForDate params
                                   (take BATCH_SIZE (drop i toFetch))))
        as (batches & Hcat & Hlen & Hrun).
      { unfold BATCH_SIZE. lia. }
      exists (take BATCH_SIZE (drop i toFetch) :: batches).
      split; [|split].
      * cbn [concat]. rewrite Hcat, <- drop_drop. apply take_drop.
      * constructor; [|done].
        rewrite length_take, length_drop. unfold BATCH_SIZE. lia.
      * rewrite Hrun, <- foldl_app.
        rewrite <- drop_drop, take_drop. f_equal.
        cbn [scheduleTrace].
        destruct (Nat.ltb_spec (i + BATCH_SIZE) (length toFetch)) as [Hmore|Hlast].
        -- destruct batches as [|batch batches].
           { exfalso. simpl in Hcat. symmetry in Hcat.
             apply drop_nil_inv in Hcat. lia. }
           by rewrite <- !app_assoc.
        -- destruct batches as [|batch batches].
           { simpl. by rewrite !app_nil_r. }
           exfalso. apply Forall_cons in Hlen as [Hb _].
           rewrite drop_ge in Hcat by lia.
           destruct batch; simpl in *; [lia | done].
    + exists []. rewrite drop_ge by lia. simpl. by rewrite app_nil_r.
Qed.

End GapFill.

(** ** The aggregator *)

Section AggregatorTheorems.

Variable parseISO : string → Date.
Variable getPriceForDate : string → string → string → number → FetchOutcome.

(** A run without context returns the range as it was built. *)
Lemma extractPriceData_no_context (flights : list Flight)
    (base : list PriceDataPoint) (trace : list event) :
  extractPriceData parseISO getPriceForDate flights None
    = Some (Ok base, trace) →
  trace = []
  ∧ (flights = [] ∧ base = []
     ∨ flights ≠ [] ∧ buildRange parseISO flights = Some (Ok base)).
Proof.
  unfold extractPriceData. destruct flights as [|flight rest].
  - simpl. intros [= <- <-]. split; [done | by left].
  - cbn [length Nat.eqb].
    destruct (buildRange parseISO (flight :: rest)) as [[points|e]|];
      [|done|done].
    intros [= <- <-]. split; [done | by right].
Qed.

(** A run with context returns the gap-filled range, and its events are
    those of a schedule of batches of one to five requests. *)
Lemma extractPriceData_context (flights : list Flight) (params : SearchParams)
    (base : list PriceDataPoint) :
  extractPriceData parseISO getPriceForDate flights None = Some (Ok base, []) →
  ∃ batches,
    concat batches = datesToFetch base
    ∧ Forall (λ batch, (1 ≤ length batch ≤ BATCH_SIZE)%nat) batches
    ∧ extractPriceData parseISO getPriceForDate flights (Some params)
      = Some (Ok (map (gapFilled getPriceForDate params) base),
              scheduleTrace getPriceForDate params batches).
Proof.
  intros Hbase.
  apply extractPriceData_no_context in Hbase
    as (_ & [[-> ->] | [Hne Hrange]]).
  - exists []. by repeat split.
  - unfold extractPriceData. destruct flights as [|flight rest]; [done|].
    cbn [length Nat.eqb]. rewrite Hrange.
    destruct (fetchBatches_schedule getPriceForDate params
                (length (datesToFetch base)) (datesToFetch base) 0 base [])
      as (batches & Hcat & Hlen & ->); [lia|].
    exists batches. cbn [drop] in *. rewrite settle_datesToFetch.
    by repeat split.
Qed.

(** Every run with context that returns has a run without context behind
    it. *)
Lemma extractPriceData_context_inv (flights : list Flight)
    (params : SearchParams) (out : list PriceDataPoint) (trace : list event) :
  extractPriceData parseISO getPriceForDate flights (Some params)
    = Some (Ok out, trace) →
  ∃ base,
    extractPriceData parseISO getPriceForDate flights None
    = Some (Ok base, []).
Proof.
  unfold extractPriceData. destruct (length flights =? 0)%nat; [by eexists|].
  destruct (buildRange parseISO flights) as [[points|e]|]; [|done|done].
  intros _. by eexists.
Qed.

(** The model never runs out of fuel: every call returns or raises. *)
Lemma extractPriceData_total (flights : list Flight)
    (searchParams : option SearchParams) :
  ∃ r, extractPriceData parseISO getPriceForDate flights searchParams = Some r.
Proof.
  unfold extractPriceData. destruct (length flights =? 0)%nat; [by eexists|].
  destruct (buildRange_total parseISO flights) as ([points|e] & ->);
    [|by eexists].
  destruct searchParams as [params|]; [|by eexists].
  destruct (fetchBatches_schedule getPriceForDate params
              (length (datesToFetch points)) (datesToFetch points) 0 points [])
    as (batches & _ & _ & ->); [lia|].
  by eexists.
Qed.

Lemma gapFilled_date (params : SearchParams) (point : PriceDataPoint) :
  date (gapFilled getPriceForDate params point) = date point.
Proof.
  unfold gapFilled. destruct (pd_price point); [done|].
  by destruct (getPriceForDate _ _ _ _) as [[found|]|e].
Qed.

Lemma gapFilled_priced (params : SearchParams) (point : PriceDataPoint)
    (known : number) :
  pd_price point = Some known →
  gapFilled getPriceForDate params point = point.
Proof. unfold gapFilled. by intros ->. Qed.

(** The points a run returns are the points of its range, gap-filled when
    there is a context. *)
Lemma extractPriceData_points (flights : list Flight)
    (searchParams : option SearchParams) (out : list PriceDataPoint)
    (trace : list event) :
  extractPriceData parseISO getPriceForDate flights searchParams
    = Some (Ok out, trace) →
  flights ≠ [] →
  ∃ base,
    buildRange parseISO flights = Some (Ok base)
    ∧ (out = base
       ∨ ∃ params, out = map (gapFilled getPriceForDate params) base).
Proof.
  intros Hrun Hne. destruct searchParams as [params|].
  - destruct (extractPriceData_context_inv _ _ _ _ Hrun) as (base & Hbase).
    destruct (extractPriceData_context flights params base Hbase)
      as (batches & _ & _ & Hctx).
    rewrite Hctx in Hrun. injection Hrun as <- _.
    apply extractPriceData_no_context in Hbase as (_ & [[-> _] | [_ Hrange]]);
      [done|].
    exists base. split; [done|]. right. by exists params.
  - apply extractPriceData_no_context in Hrun as (_ & [[-> _] | [_ Hrange]]);
      [done|].
    exists out. split; [done | by left].
Qed.

Lemma day_in_range (earliest latest t : Z) :
  earliest ≤ t ≤ latest →
  0 ≤ day_of t - day_of earliest
    < (latest + 5 * msPerDay - earliest) / msPerDay + 1.
Proof.
  unfold day_of, msPerDay. intros H. Z.div_mod_to_equations. lia.
Qed.

(** C2: for every date that has an offer, the returned sequence has a point
    of that date, and every point of that date carries round(sum / count)
    of the total prices of the offers of that date and their number.  The
    sum and the quotient are those of JavaScript numbers: the prices are
    added from 0 in the order of the offers, each result rounded to
    binary64. *)
Theorem extractPriceData_group_average (flights : list Flight)
    (searchParams : option SearchParams) (out : list PriceDataPoint)
    (trace : list event) (day : string) :
  extractPriceData parseISO getPriceForDate flights searchParams
    = Some (Ok out, trace) →
  offersOn parseISO day flights ≠ [] →
  (∃ point, point ∈ out ∧ date point = day)
  ∧ ∀ point, point ∈ out → date point = day →
      pd_price point = Some (averagePrice (offersOn parseISO day flights))
      ∧ count point = length (offersOn parseISO day flights).
Proof.
  intros Hrun Hoffers.
  assert (flights ≠ []) as Hne by (by intros ->).
  destruct (extractPriceData_points _ _ _ _ Hrun Hne) as (base & Hrange & Hout).
  destruct (buildRange_cases parseISO flights Hne)
    as [(e & He) | (priceMap & ts & earliest & latest
                    & Hgroup & Hts & _ & _ & Hbounds & Hpoints)];
    [congruence|].
  rewrite Hrange in Hpoints. injection Hpoints as ->.
  pose proof (groupPrices_offers parseISO _ _ day Hgroup Hoffers) as Hlookup.
  (* every point of the range with this date carries the average *)
  assert (∀ point,
            point ∈ map (rangePoint priceMap earliest)
                      (seq 0 (Z.to_nat ((latest + 5 * msPerDay - earliest)
                                          / msPerDay + 1))) →
            date point = day →
            pd_price point = Some (averagePrice (offersOn parseISO day flights))
            ∧ count point = length (offersOn parseISO day flights)) as Hbase.
  { intros point Hin Hdate. apply list_elem_of_In, in_map_iff in Hin
      as (k & <- & _).
    unfold rangePoint in *. simpl in Hdate. rewrite Hdate, Hlookup.
    by split. }
  split.
  - (* some point has this date *)
    destruct (offersOn parseISO day flights) as [|flight others] eqn:Hon;
      [done|].
    assert (In flight (offersOn parseISO day flights)) as Hin
      by (rewrite Hon; by left).
    apply filter_In in Hin as (Hin & Hday).
    apply departsOn_true in Hday.
    apply list_elem_of_In, list_elem_of_lookup in Hin as (i & Hi).
    destruct (Forall2_lookup_l _ _ _ _ _ Hts Hi) as (t & Ht & _ & Hday').
    rewrite Hday in Hday'. injection Hday' as ->.
    rewrite Forall_forall in Hbounds.
    pose proof (day_in_range earliest latest t
                  (Hbounds t (list_elem_of_lookup_2 _ _ _ Ht))) as Hk.
    set (k := Z.to_nat (day_of t - day_of earliest)).
    assert (date (rangePoint priceMap earliest k) = format_day (day_of t))
      as Hdate.
    { unfold rangePoint. simpl. rewrite day_of_add_days. f_equal.
      unfold k. lia. }
    assert (rangePoint priceMap earliest k
            ∈ map (rangePoint priceMap earliest)
                (seq 0 (Z.to_nat ((latest + 5 * msPerDay - earliest)
                                    / msPerDay + 1)))) as Hin.
    { apply list_elem_of_In, in_map, in_seq. unfold k. lia. }
    destruct Hout as [-> | (params & ->)].
    + by exists (rangePoint priceMap earliest k).
    + exists (gapFilled getPriceForDate params (rangePoint priceMap earliest k)).
      split; [|by rewrite gapFilled_date].
      by apply list_elem_of_In, in_map, list_elem_of_In.
  - intros point Hin Hdate. destruct Hout as [-> | (params & ->)]; [auto|].
    apply list_elem_of_In, in_map_iff in Hin as (point0 & <- & Hin0).
    rewrite gapFilled_date in Hdate.
    destruct (Hbase point0 (proj2 (list_elem_of_In _ _) Hin0) Hdate)
      as (Hprice & Hcount).
    by rewrite (gapFilled_priced _ _ _ Hprice).
Qed.

(** A point of the range without a price has count 0. *)
Lemma range_gap_count (flights : list Flight) (base : list PriceDataPoint)
    (point : PriceDataPoint) :
  extractPriceData parseISO getPriceForDate flights None = Some (Ok base, []) →
  point ∈ base → pd_price point = None → count point = 0%nat.
Proof.
  intros Hbase Hin Hgap.
  apply extractPriceData_no_context in Hbase
    as (_ & [[_ ->] | [Hne Hrange]]).
  - by apply elem_of_nil in Hin.
  - destruct (buildRange_cases parseISO flights Hne)
      as [(e & He) | (priceMap & ts & earliest & latest
                      & _ & _ & _ & _ & _ & Hpoints)];
      [congruence|].
    rewrite Hrange in Hpoints. injection Hpoints as ->.
    apply list_elem_of_In, in_map_iff in Hin as (k & <- & _).
    unfold rangePoint, pointOf in *. simpl in *.
    by destruct (priceMap !! _).
Qed.

(** C3: when the range is built (the run without context returns [base]),
    the run with a context returns too, whatever the price source does, and
    its result has the points of [base] in place, where a point without a
    price (its count is 0) has become [{price: round(p), count: 1}] if its
    fetch resolved to a price [p], and is unchanged if the fetch resolved to
    null or was rejected. *)
Theorem extractPriceData_gap_fill (flights : list Flight)
    (params : SearchParams) (base : list PriceDataPoint) :
  extractPriceData parseISO getPriceForDate flights None = Some (Ok base, []) →
  ∃ out trace,
    extractPriceData parseISO getPriceForDate flights (Some params)
      = Some (Ok out, trace)
    ∧ length out = length base
    ∧ ∀ i point,
        base !! i = Some point → pd_price point = None →
        count point = 0%nat
        ∧ match getPriceForDate (origin params) (destination params)
                  (date point) (adults params) with
          | Resolved (Some found) =>
              out !! i = Some {| date := date point;
                                 pd_price := Some (Math_round found);
                                 count := 1 |}
          | Resolved None => out !! i = Some point
          | Rejected _ => out !! i = Some point
          end.
Proof.
  intros Hbase.
  destruct (extractPriceData_context flights params base Hbase)
    as (batches & _ & _ & Hrun).
  exists (map (gapFilled getPriceForDate params) base),
         (scheduleTrace getPriceForDate params batches).
  split; [done|]. split; [apply length_map|].
  intros i point Hi Hgap. split.
  - eapply range_gap_count; [done | | done].
    by eapply list_elem_of_lookup_2.
  - assert (map (gapFilled getPriceForDate params) base !! i
            = Some (gapFilled getPriceForDate params point)) as Hout.
    { change (map ?f ?l) with (f <$> l).
      by rewrite list_lookup_fmap, Hi. }
    rewrite Hout. unfold gapFilled. rewrite Hgap.
    by destruct (getPriceForDate _ _ _ _) as [[found|]|e].
Qed.

(** The filter over the indexed points picks the gaps, in order. *)
Lemma datesToFetch_gapsFrom (points : list PriceDataPoint) (index : nat) :
  List.filter (λ entry : PriceDataPoint * nat, isGap entry.1)
    (imap (λ i point, (point, (index + i)%nat)) points)
  = gapsFrom index points.
Proof.
  revert index. induction points as [|point rest IH]; intros index; [done|].
  rewrite imap_cons. cbn [List.filter gapsFrom fst]. rewrite Nat.add_0_r.
  assert (imap ((λ i point, (point, (index + i)%nat)) ∘ S) rest
          = imap (λ i point, (point, (S index + i)%nat)) rest) as ->.
  { apply imap_ext. intros i other _. simpl. f_equal. lia. }
  rewrite IH. unfold isGap. by destruct (pd_price point).
Qed.

Lemma datesToFetch_gaps (points : list PriceDataPoint) :
  datesToFetch points = gaps points.
Proof. exact (datesToFetch_gapsFrom points 0). Qed.

Lemma inFlight_requests (bound pending : nat)
    (batch : list (PriceDataPoint * nat)) (rest : list event) :
  (pending + length batch ≤ bound)%nat →
  Forall (λ n, (n ≤ bound)%nat) (inFlight (pending + length batch) rest) →
  Forall (λ n, (n ≤ bound)%nat) (inFlight pending (map requested batch ++ rest)).
Proof.
  revert pending. induction batch as [|gap batch IH]; intros pending Hle Hrest.
  - by rewrite Nat.add_0_r in Hrest.
  - cbn [map app inFlight requested length] in *. constructor; [lia|].
    apply IH; [lia|]. by replace (S pending + length batch)%nat
                         with (pending + S (length batch))%nat by lia.
Qed.

Lemma inFlight_settled (bound pending : nat) (params : SearchParams)
    (batch : list (PriceDataPoint * nat)) (rest : list event) :
  (pending ≤ bound)%nat →
  Forall (λ n, (n ≤ bound)%nat) (inFlight (pending - length batch) rest) →
  Forall (λ n, (n ≤ bound)%nat)
    (inFlight pending (map (settled getPriceForDate params) batch ++ rest)).
Proof.
  revert pending. induction batch as [|gap batch IH]; intros pending Hle Hrest.
  - by rewrite Nat.sub_0_r in Hrest.
  - cbn [map app inFlight settled length] in *. constructor; [lia|].
    apply IH; [lia|]. by replace (pred pending - length batch)%nat
                         with (pending - S (length batch))%nat by lia.
Qed.

(** While a schedule of batches of at most five runs, never more than five
    requests are out. *)
Lemma inFlight_schedule (params : SearchParams)
    (batches : list (list (PriceDataPoint * nat))) :
  Forall (λ batch, (1 ≤ length batch ≤ 5)%nat) batches →
  Forall (λ n, (n ≤ 5)%nat)
    (inFlight 0 (scheduleTrace getPriceForDate params batches)).
Proof.
  induction 1 as [|batch rest Hlen _ IH]; [constructor|].
  cbn [scheduleTrace]. unfold batchTrace. rewrite <- app_assoc.
  apply inFlight_requests; [simpl; lia|].
  apply inFlight_settled; [simpl; lia|].
  cbn [Nat.add]. rewrite Nat.sub_diag.
  destruct rest as [|next rest]; [constructor|].
  change (Forall (λ n, (n ≤ 5)%nat)
            (0%nat :: inFlight 0 (scheduleTrace getPriceForDate params
                                    (next :: rest)))).
  constructor; [lia | exact IH].
Qed.

(** C6: the requests of a run with context are those for the points
    without a price, in index order, cut into batches of one to five.  The
    events of the run are: every request of the first batch goes out, then
    each of them settles, resolved or rejected; then a pause of 200 ms and
    the second batch in the same way; and so on, with no pause after the
    last batch.  At no moment are more than five requests out. *)
Theorem extractPriceData_batches (flights : list Flight)
    (params : SearchParams) (out : list PriceDataPoint) (trace : list event) :
  extractPriceData parseISO getPriceForDate flights (Some params)
    = Some (Ok out, trace) →
  ∃ base batches,
    extractPriceData parseISO getPriceForDate flights None
      = Some (Ok base, [])
    ∧ concat batches = gaps base
    ∧ Forall (λ batch, (1 ≤ length batch ≤ 5)%nat) batches
    ∧ trace = scheduleTrace getPriceForDate params batches
    ∧ Forall (λ pending, (pending ≤ 5)%nat) (inFlight 0 trace).
Proof.
  intros Hrun.
  destruct (extractPriceData_context_inv _ _ _ _ Hrun) as (base & Hbase).
  destruct (extractPriceData_context flights params base Hbase)
    as (batches & Hcat & Hlen & Hctx).
  rewrite Hctx in Hrun. injection Hrun as _ <-.
  exists base, batches. rewrite <- datesToFetch_gaps.
  repeat split; try done. by apply inFlight_schedule.
Qed.

End AggregatorTheorems.

(** ** The aggregator on the sample offers *)

Lemma extractPriceData_group_average_witness :
  ∃ out trace,
    extractPriceData parseISO_local SampleSource.pricesFor Sample.cents
      None = Some (Ok out, trace)
    ∧ offersOn parseISO_local "2024-06-01" Sample.cents = Sample.cents
    ∧ averagePrice Sample.cents = of_Z 100
    ∧ (∃ point, point ∈ out ∧ date point = "2024-06-01")
    ∧ ∀ point, point ∈ out → date point = "2024-06-01" →
        pd_price point = Some (of_Z 100) ∧ count point = 3%nat.
Proof.
  do 2 eexists. split; [vm_compute; reflexivity|].
  split; [vm_compute; reflexivity|].
  split; [vm_compute; reflexivity|].
  change (of_Z 100)
    with (averagePrice (offersOn parseISO_local "2024-06-01" Sample.cents)).
  change 3%nat
    with (length (offersOn parseISO_local "2024-06-01" Sample.cents)).
  eapply (extractPriceData_group_average parseISO_local SampleSource.pricesFor
            Sample.cents None).
  - vm_compute. reflexivity.
  - vm_compute. discriminate.
Defined.

Lemma extractPriceData_gap_fill_witness :
  ∃ base,
    extractPriceData parseISO_local SampleSource.pricesFor Sample.scenarioA
      None = Some (Ok base, [])
    ∧ ∃ out trace,
        extractPriceData parseISO_local SampleSource.pricesFor
          Sample.scenarioA (Some Sample.params) = Some (Ok out, trace)
        ∧ length out = length base
        ∧ ∀ i point,
            base !! i = Some point → pd_price point = None →
            count point = 0%nat
            ∧ match SampleSource.pricesFor (origin Sample.params)
                      (destination Sample.params) (date point)
                      (adults Sample.params) with
              | Resolved (Some found) =>
                  out !! i = Some {| date := date point;
                                     pd_price := Some (Math_round found);
                                     count := 1 |}
              | Resolved None => out !! i = Some point
              | Rejected _ => out !! i = Some point
              end.
Proof.
  eexists. split; [vm_compute; reflexivity|].
  apply (extractPriceData_gap_fill parseISO_local SampleSource.pricesFor
           Sample.scenarioA Sample.params).
  vm_compute. reflexivity.
Defined.

Lemma extractPriceData_batches_witness :
  ∃ out trace,
    extractPriceData parseISO_local SampleSource.pricesFor Sample.scenarioA
      (Some Sample.params) = Some (Ok out, trace)
    ∧ ∃ base batches,
        extractPriceData parseISO_local SampleSource.pricesFor
          Sample.scenarioA None = Some (Ok base, [])
        ∧ concat batches = gaps base
        ∧ Forall (λ batch, (1 ≤ length batch ≤ 5)%nat) batches
        ∧ trace = scheduleTrace SampleSource.pricesFor Sample.params batches
        ∧ Forall (λ pending, (pending ≤ 5)%nat) (inFlight 0 trace).
Proof.
  do 2 eexists. split; [vm_compute; reflexivity|].
  eapply (extractPriceData_batches parseISO_local SampleSource.pricesFor
            Sample.scenarioA Sample.params).
  vm_compute. reflexivity.
Defined.

(** Scenario A of the specification, and scenario C with the sample
    source. *)
Example extractPriceData_scenarioA :
  extractPriceData parseISO_local SampleSource.pricesFor Sample.scenarioA None
  = Some (Ok [ {| date := "2024-06-01"; pd_price := Some (of_Z 150); count := 2 |};
               {| date := "2024-06-02"; pd_price := None; count := 0 |};
               {| date := "2024-06-03"; pd_price := Some (of_Z 150); count := 1 |};
               {| date := "2024-06-04"; pd_price := None; count := 0 |};
               {| date := "2024-06-05"; pd_price := None; count := 0 |};
               {| date := "2024-06-06"; pd_price := None; count := 0 |};
               {| date := "2024-06-07"; pd_price := None; count := 0 |};
               {| date := "2024-06-08"; pd_price := None; count := 0 |} ],
          []).
Proof. vm_compute. reflexivity. Qed.

Example extractPriceData_scenarioC :
  extractPriceData parseISO_local SampleSource.pricesFor Sample.scenarioA
    (Some Sample.params)
  = Some (Ok [ {| date := "2024-06-01"; pd_price := Some (of_Z 150); count := 2 |};
               {| date := "2024-06-02"; pd_price := Some (of_Z 120); count := 1 |};
               {| date := "2024-06-03"; pd_price := Some (of_Z 150); count := 1 |};
               {| date := "2024-06-04"; pd_price := None; count := 0 |};
               {| date := "2024-06-05"; pd_price := None; count := 0 |};
               {| date := "2024-06-06"; pd_price := None; count := 0 |};
               {| date := "2024-06-07"; pd_price := None; count := 0 |};
               {| date := "2024-06-08"; pd_price := None; count := 0 |} ],
          [ Request 1 "2024-06-02"; Request 3 "2024-06-04";
            Request 4 "2024-06-05"; Request 5 "2024-06-06";
            Request 6 "2024-06-07";
            Settled 1 (Resolved (Some (Fin (1199 # 10))));
            Settled 3 (Resolved None); Settled 4 (Rejected OtherValue);
            Settled 5 (Resolved None); Settled 6 (Resolved None);
            Pause 200;
            Request 7 "2024-06-08"; Settled 7 (Resolved None) ]).
Proof. vm_compute. reflexivity. Qed.

(** C1 at two offers leaving 2024-06-01 23:00 and 2024-06-03 01:00: the
    departure dates are two days apart, so the range should have 2 + 6 = 8
    points, through 2024-06-08; the loop compares time values and stops
    after 2024-06-07, returning 7 points. *)
Theorem extractPriceData_late_then_early :
  extractPriceData parseISO_local SampleSource.pricesFor Sample.lateThenEarly
    None
  = Some (Ok [ {| date := "2024-06-01"; pd_price := Some (of_Z 100); count := 1 |};
               {| date := "2024-06-02"; pd_price := None; count := 0 |};
               {| date := "2024-06-03"; pd_price := Some (of_Z 150); count := 1 |};
               {| date := "2024-06-04"; pd_price := None; count := 0 |};
               {| date := "2024-06-05"; pd_price := None; count := 0 |};
               {| date := "2024-06-06"; pd_price := None; count := 0 |};
               {| date := "2024-06-07"; pd_price := None; count := 0 |} ],
          []).
Proof. vm_compute. reflexivity. Qed.

(** ** The price fetch *)

Import AmadeusApi.

Lemma getAccessToken_ok (env : Env) (w : World) :
  canAuthenticate env →
  ∃ token w1,
    getAccessToken env w = (inl token, w1)
    ∧ gets w1 = gets w
    ∧ (posts w ≤ posts w1)%nat
    ∧ (accessToken w = None → posts w1 = S (posts w)).
Proof.
  intros (Hid & Hsecret & Htoken). unfold getAccessToken.
  destruct (truthy (accessToken w) && (clock env (readings w) <? tokenExpiry w))
    eqn:Hcached.
  - do 2 eexists. split; [done|]. simpl. repeat split; [lia|].
    intros Hnone. rewrite Hnone in Hcached. done.
  - rewrite Hid, Hsecret. simpl.
    destruct (Htoken (posts w)) as (token & expires_in & -> & ->).
    do 2 eexists. split; [done|]. simpl. repeat split; lia.
Qed.

(** The call never raises: whatever it returns is a fulfilled result. *)
Lemma getPriceForDate_never_raises (fuel : nat) (env : Env) (w w' : World)
    (origin destination day : string) (adults : number)
    (result : outcome (option number)) :
  getPriceForDate fuel env w origin destination day adults
    = Some (result, w') →
  ∃ found, result = Ok found.
Proof.
  revert w. induction fuel as [|fuel IH]; intros w; [done|].
  cbn [getPriceForDate].
  destruct (priceAttempt env w) as [[found|e] w1].
  - intros [= <- _]. by eexists.
  - case_bool_decide.
    + intros [= <- _]. by eexists.
    + apply IH.
Qed.

Lemma priceAttempt_reply (env : Env) (w : World) :
  canAuthenticate env →
  ∃ w1,
    gets w1 = S (gets w)
    ∧ (posts w ≤ posts w1)%nat
    ∧ (accessToken w = None → posts w1 = S (posts w))
    ∧ priceAttempt env w
      = (match offersEndpoint env (gets w) with
         | OffersOk data => inl (priceOfReply (OffersOk data))
         | OffersFail response => inr (AxiosError response)
         end, w1).
Proof.
  intros Hauth. unfold priceAttempt.
  destruct (getAccessToken_ok env w Hauth)
    as (token & w0 & -> & Hgets & Hposts & Hfresh).
  rewrite Hgets. exists (afterGet w0). simpl.
  repeat split; [lia | done | done |].
  destruct (offersEndpoint env (gets w)) as [[[|flight rest]|]|response]; done.
Qed.

Lemma status_401 (response : option Response) :
  bool_decide (responseStatus (AxiosError response) ≠ Some 401)
  = negb (unauthorized (OffersFail response)).
Proof.
  destruct response as [[st errs]|]; simpl; [|done].
  destruct (Z.eqb_spec st 401) as [->|Hne]; simpl; [done|].
  rewrite bool_decide_true; [done | congruence].
Qed.

(** C7 as the code has it: when the source answers 401 to [n] GETs in a
    row and then something else, the call makes [n + 1] GETs, having
    obtained a new token for each retry, and returns what the last reply
    holds: the minimum of the total prices of its offers, or null when it
    has no offers or is a failure.  It does so for every [n]. *)
Theorem getPriceForDate_retries (env : Env) (n : nat) (reply : OffersReply)
    (w : World) (origin destination day : string) (adults : number)
    (fuel : nat) :
  canAuthenticate env →
  (∀ k, (k < n)%nat →
     unauthorized (offersEndpoint env (gets w + k)) = true) →
  offersEndpoint env (gets w + n) = reply →
  unauthorized reply = false →
  (n < fuel)%nat →
  ∃ w',
    getPriceForDate fuel env w origin destination day adults
      = Some (Ok (priceOfReply reply), w')
    ∧ gets w' = (gets w + n + 1)%nat
    ∧ (posts w + n ≤ posts w')%nat
    ∧ (accessToken w = None → posts w' = (posts w + n + 1)%nat).
Proof.
  intros Hauth. revert w fuel.
  induction n as [|n IH]; intros w fuel H401 Hreply Hnot Hfuel.
  - destruct fuel as [|fuel]; [lia|]. cbn [getPriceForDate].
    destruct (priceAttempt_reply env w Hauth)
      as (w1 & Hgets & Hposts & Hfresh & ->).
    rewrite Nat.add_0_r in Hreply. rewrite Hreply.
    exists w1. destruct reply as [data|response].
    + repeat split; [lia | lia | intros H; rewrite (Hfresh H); lia].
    + rewrite status_401, Hnot. simpl.
      repeat split; [lia | lia | intros H; rewrite (Hfresh H); lia].
  - destruct fuel as [|fuel]; [lia|]. cbn [getPriceForDate].
    destruct (priceAttempt_reply env w Hauth)
      as (w1 & Hgets & Hposts & Hfresh & ->).
    pose proof (H401 0%nat ltac:(lia)) as Hfirst.
    rewrite Nat.add_0_r in Hfirst.
    destruct (offersEndpoint env (gets w)) as [data|response]; [done|].
    rewrite status_401, Hfirst. simpl.
    destruct (IH (dropToken w1) fuel) as (w' & Hrun & Hgets' & Hposts' & Hfresh').
    + intros k Hk. simpl. rewrite Hgets.
      replace (S (gets w) + k)%nat with (gets w + S k)%nat by lia.
      apply H401. lia.
    + simpl. rewrite Hgets.
      by replace (S (gets w) + n)%nat with (gets w + S n)%nat by lia.
    + done.
    + lia.
    + exists w'. simpl in *. specialize (Hfresh' eq_refl).
      repeat split; [done | lia | lia | intros H; rewrite (Hfresh H) in *; lia].
Qed.

Lemma getPriceForDate_retries_witness :
  ∃ w',
    getPriceForDate 3 SampleApi.twice401 SampleApi.start
      "JFK" "LAX" "2024-06-02" (of_Z 1)
      = Some (Ok (priceOfReply
                    (OffersOk (Some [Sample.offer "1" "100"
                                       "2024-06-02T08:00:00" 0 ["AA"]]))), w')
    ∧ gets w' = (gets SampleApi.start + 2 + 1)%nat
    ∧ (posts SampleApi.start + 2 ≤ posts w')%nat
    ∧ (accessToken SampleApi.start = None
       → posts w' = (posts SampleApi.start + 2 + 1)%nat).
Proof.
  apply (getPriceForDate_retries SampleApi.twice401 2).
  - split; [reflexivity|]. split; [reflexivity|].
    intros k. exists (Some "token"), 1800. by split.
  - intros k Hk. simpl.
    destruct k as [|[|k]]; [reflexivity | reflexivity | lia].
  - reflexivity.
  - reflexivity.
  - lia.
Defined.

(** C7 as stated fails: the source may answer 401 twice, and the call then
    retries twice (three GETs) before it returns. *)
Lemma getPriceForDate_three_gets :
  ¬ retriedOnce SampleApi.twice401 SampleApi.start.
Proof.
  intros Honce.
  specialize (Honce 3%nat "JFK" "LAX" "2024-06-02" (of_Z 1) _ _ eq_refl).
  simpl in Honce. lia.
Qed.

(** ** The search handler *)

(** What searchFlights raises is an [Error] with a message. *)
Lemma searchFlights_raises (fuel : nat) (env : Env) (w w' : World)
    (params : SearchParams) (err : thrown) :
  searchFlights fuel env w params = Some (Throw err, w') →
  ∃ e, err = ErrorObj "Error" (searchErrorMessage e).
Proof.
  revert w. induction fuel as [|fuel IH]; intros w; [done|].
  cbn [searchFlights].
  destruct (searchAttempt env w) as [[results|e] w1]; [done|].
  case_bool_decide.
  - apply IH.
  - intros [= <- _]. by exists e.
Qed.

(** C8: when the search of the external source fails, what it raises is an
    error with a message, and the handler ends with loading off and the
    search made (Ready), no offers, an empty price series, and that message
    as the readable error. *)
Theorem handleSearch_source_fails
    (parseISO : string → Date)
    (getPriceForDate : string → string → string → number → FetchOutcome)
    (fuel : nat) (env : Env) (w w' : World)
    (params : SearchParams) (err : thrown) (s : App.State) :
  searchFlights fuel env w params = Some (Throw err, w') →
  ∃ message s',
    err = ErrorObj "Error" message
    ∧ App.handleSearch parseISO getPriceForDate (Throw err) params s = Some s'
    ∧ App.loading s' = false
    ∧ App.hasSearched s' = true
    ∧ App.flights s' = []
    ∧ App.priceData s' = []
    ∧ App.error s' = Some message.
Proof.
  intros Hfail. destruct (searchFlights_raises _ _ _ _ _ _ Hfail) as (e & ->).
  do 2 eexists. split; [reflexivity|]. split; [reflexivity|]. by repeat split.
Qed.

Lemma handleSearch_source_fails_witness :
  ∃ message s',
    ErrorObj "Error" "Invalid date (Parameter: departureDate)"
      = ErrorObj "Error" message
    ∧ App.handleSearch parseISO_local SampleSource.pricesFor
        (Throw (ErrorObj "Error" "Invalid date (Parameter: departureDate)"))
        Sample.params App.initial = Some s'
    ∧ App.loading s' = false
    ∧ App.hasSearched s' = true
    ∧ App.flights s' = []
    ∧ App.priceData s' = []
    ∧ App.error s' = Some message.
Proof.
  eapply (handleSearch_source_fails parseISO_local SampleSource.pricesFor
            1 SampleApi.rejecting SampleApi.start).
  vm_compute. reflexivity.
Defined.

(** ** Inputs are not mutated *)

Section StoreReads.

Variables h h' : list Store.cell.
Hypothesis Hext : h `prefix_of` h'.

Lemma readFlight_prefix (r : nat) (flight : Flight) :
  Store.readFlight h r = Some flight → Store.readFlight h' r = Some flight.
Proof.
  unfold Store.readFlight. destruct (h !! r) as [c|] eqn:Hr; [|done].
  by rewrite (prefix_lookup_Some _ _ _ _ Hr Hext).
Qed.

Lemma readFlightArray_prefix (r : nat) (elems : list nat) :
  Store.readFlightArray h r = Some elems →
  Store.readFlightArray h' r = Some elems.
Proof.
  unfold Store.readFlightArray. destruct (h !! r) as [c|] eqn:Hr; [|done].
  by rewrite (prefix_lookup_Some _ _ _ _ Hr Hext).
Qed.

(** A store that extends another holds the same offers in the same
    arrays. *)
Lemma flightsAt_prefix (arr : nat) (offers : list Flight) :
  Store.flightsAt h arr = Some offers → Store.flightsAt h' arr = Some offers.
Proof.
  unfold Store.flightsAt.
  destruct (Store.readFlightArray h arr) as [elems|] eqn:Harr; [|done].
  rewrite (readFlightArray_prefix _ _ Harr). simpl.
  rewrite !mapM_Some. intros Hall.
  eapply Forall2_impl; [exact Hall|]. intros r flight. apply readFlight_prefix.
Qed.

End StoreReads.

Lemma prefix_alloc (c : Store.cell) (h : list Store.cell) :
  h `prefix_of` (Store.alloc c h).2.
Proof. by apply prefix_app_r. Qed.

Lemma alloc_fresh (c : Store.cell) (h : list Store.cell) :
  h !! (Store.alloc c h).1 = None.
Proof. by apply lookup_ge_None_2. Qed.

Lemma filterRefs_kept (h : list Store.cell) (filters : Filters)
    (elems : list nat) (offers : list Flight) :
  mapM (Store.readFlight h) elems = Some offers →
  ∃ kept,
    Store.filterRefs h filters elems = Some kept
    ∧ mapM (Store.readFlight h) kept
      = Some (List.filter (keepFlight filters) offers).
Proof.
  rewrite mapM_Some. induction 1 as [|r flight elems offers Hr _ IH].
  - by exists [].
  - destruct IH as (kept & Hkept & Hread).
    cbn [Store.filterRefs List.filter]. rewrite Hr, Hkept. simpl.
    destruct (keepFlight filters flight).
    + exists (r :: kept). split; [done|].
      apply mapM_Some. constructor; [done | by apply mapM_Some].
    + by exists kept.
Qed.

(** filterFlights over the store: the store is extended by one array, which
    holds the offers the filter keeps; nothing that was there is changed. *)
Lemma store_filterFlights (h : list Store.cell) (arr : nat)
    (offers : list Flight) (filters : Filters) :
  Store.flightsAt h arr = Some offers →
  ∃ out h',
    Store.filterFlights h arr filters = Some (out, h')
    ∧ h `prefix_of` h'
    ∧ h !! out = None
    ∧ Store.flightsAt h' out = Some (filterFlights offers filters).
Proof.
  unfold Store.flightsAt, Store.filterFlights.
  destruct (Store.readFlightArray h arr) as [elems|]; [|done]. simpl.
  intros Hread.
  destruct (filterRefs_kept h filters elems offers Hread)
    as (kept & -> & Hkept).
  simpl. do 2 eexists. split; [done|].
  split; [by apply prefix_app_r|]. split; [by apply lookup_ge_None_2|].
  unfold Store.readFlightArray. rewrite list_lookup_middle by done. simpl.
  apply mapM_Some. apply mapM_Some in Hkept.
  eapply Forall2_impl; [exact Hkept|]. intros r flight.
  apply readFlight_prefix. by apply prefix_app_r.
Qed.

(** *** The points of a running aggregation *)

Section Layout.

Variable h : list Store.cell.

Lemma layout_length (points : list PriceDataPoint) :
  length (Store.layout h points) = (length h + S (length points))%nat.
Proof. unfold Store.layout. rewrite length_app. simpl. by rewrite length_map. Qed.

Lemma layout_prefix (points : list PriceDataPoint) :
  h `prefix_of` Store.layout h points.
Proof. by apply prefix_app_r. Qed.

Lemma layout_array (points : list PriceDataPoint) :
  Store.readPointArray (Store.layout h points) (length h)
  = Some (seq (S (length h)) (length points)).
Proof.
  unfold Store.readPointArray, Store.layout.
  by rewrite list_lookup_middle.
Qed.

Lemma layout_point (points : list PriceDataPoint) (k : nat) :
  Store.readPoint (Store.layout h points) (S (length h + k)) = points !! k.
Proof.
  unfold Store.readPoint, Store.layout.
  rewrite (cons_middle _ h), app_assoc.
  replace (S (length h + k))%nat
    with (length (h ++ [Store.PointArray (seq (S (length h)) (length points))]) + k)%nat
    by (rewrite length_app; simpl; lia).
  rewrite lookup_app_r by lia.
  replace (_ + k - _)%nat with k by lia.
  change (map Store.PointObject points) with (Store.PointObject <$> points).
  rewrite list_lookup_fmap. by destruct (points !! k).
Qed.

Lemma layout_points (points : list PriceDataPoint) :
  Store.pointsAt (Store.layout h points) (length h) = Some points.
Proof.
  unfold Store.pointsAt. rewrite layout_array. simpl.
  apply mapM_Some, Forall2_same_length_lookup. split.
  - by rewrite length_seq.
  - intros i r point Hr Hpoint.
    apply lookup_seq in Hr as [-> _]. simpl. by rewrite layout_point.
Qed.

Lemma layout_push (points : list PriceDataPoint) (point : PriceDataPoint) :
  Store.push (length h) point (Store.layout h points)
  = Some (Store.layout h (points ++ [point])).
Proof.
  unfold Store.push. rewrite layout_array. simpl. f_equal.
  rewrite layout_length. unfold Store.layout.
  rewrite <- app_assoc. cbn [app].
  replace (length h) with (length h + 0)%nat at 1 by lia.
  rewrite insert_app_r. cbn [insert list_insert]. f_equal. f_equal.
  - f_equal. rewrite length_app. simpl.
    rewrite Nat.add_1_r, seq_S. do 2 f_equal. lia.
  - by rewrite map_app.
Qed.

Lemma layout_write (points : list PriceDataPoint) (k : nat)
    (point : PriceDataPoint) :
  <[S (length h + k) := Store.PointObject point]> (Store.layout h points)
  = Store.layout h (<[k := point]> points).
Proof.
  unfold Store.layout. rewrite length_insert.
  rewrite (cons_middle _ h (map Store.PointObject points)),
    (cons_middle _ h (map Store.PointObject (<[k:=point]> points))),
    !app_assoc.
  replace (S (length h + k))%nat
    with (length (h ++ [Store.PointArray (seq (S (length h)) (length points))]) + k)%nat
    by (rewrite length_app; simpl; lia).
  rewrite insert_app_r. f_equal.
  change (map Store.PointObject ?l) with (Store.PointObject <$> l).
  by rewrite list_fmap_insert.
Qed.

End Layout.

Section StoreAggregator.

Variable parseISO : string → Date.
Variable getPriceForDate : string → string → string → number → FetchOutcome.
Variable h : list Store.cell.

Lemma store_buildDates (fuel : nat) (priceMap : gmap string (number * nat))
    (endDate currentDate : Date) (acc acc' : list PriceDataPoint) :
  buildDates fuel priceMap endDate currentDate acc = Some (Ok acc') →
  Store.buildDates fuel priceMap endDate currentDate (length h)
    (Store.layout h acc)
  = Some (Ok (), Store.layout h acc').
Proof.
  revert currentDate acc. induction fuel as [|fuel IH]; intros currentDate acc.
  - cbn [buildDates Store.buildDates].
    destruct (date_le currentDate endDate); [done | by intros [= ->]].
  - cbn [buildDates Store.buildDates].
    destruct (date_le currentDate endDate); [|by intros [= ->]].
    destruct (format currentDate) as [dateStr|e]; [|done].
    intros Hrun. rewrite layout_push. simpl. by apply IH.
Qed.

Lemma store_gapEntries (points : list PriceDataPoint)
    (entries : list (PriceDataPoint * nat)) :
  Forall (λ entry, points !! entry.2 = Some entry.1) entries →
  Store.gapEntries (Store.layout h points) (map (Store.entryRef h) entries)
  = Some (map (Store.entryRef h)
            (List.filter (λ entry, isGap entry.1) entries)).
Proof.
  induction 1 as [|entry entries Hentry _ IH]; [done|].
  cbn [map Store.gapEntries List.filter].
  change ((Store.entryRef h entry).1) with (S (length h + entry.2)).
  rewrite layout_point, Hentry. simpl. rewrite IH. simpl.
  by destruct (isGap entry.1).
Qed.

Lemma store_datesToFetch (points : list PriceDataPoint) :
  Store.datesToFetch (Store.layout h points) (length h)
  = Some (map (Store.entryRef h) (datesToFetch points)).
Proof.
  unfold Store.datesToFetch, datesToFetch. rewrite layout_array. simpl.
  assert (imap (λ index r, (r, index)) (seq (S (length h)) (length points))
          = map (Store.entryRef h)
              (imap (λ index dataPoint, (dataPoint, index)) points)) as ->.
  { change (map ?f ?l) with (f <$> l). apply list_eq. intros i.
    rewrite list_lookup_fmap, !list_lookup_imap.
    destruct (points !! i) as [point|] eqn:Hi; simpl.
    - rewrite lookup_seq_lt by (by eapply lookup_lt_Some). done.
    - rewrite lookup_seq_ge by (by apply lookup_ge_None). done. }
  apply store_gapEntries. apply Forall_forall. intros entry Hin.
  apply list_elem_of_lookup in Hin as (i & Hi).
  rewrite list_lookup_imap in Hi.
  destruct (points !! i) as [point|] eqn:Hpoint; [|done].
  by injection Hi as <-.
Qed.

Lemma entriesOf_datesToFetch (points : list PriceDataPoint) :
  Store.entriesOf points (datesToFetch points).
Proof.
  apply Forall_forall. intros entry Hin. unfold datesToFetch in Hin.
  apply list_elem_of_In, filter_In in Hin as [Hin _].
  apply list_elem_of_In, list_elem_of_lookup in Hin as (i & Hi).
  rewrite list_lookup_imap in Hi.
  destruct (points !! i) as [point|] eqn:Hpoint; [|done].
  injection Hi as <-. by exists point.
Qed.

Lemma settle_lookup (params : SearchParams) (points : list PriceDataPoint)
    (entry : PriceDataPoint * nat) (j : nat) (point : PriceDataPoint) :
  points !! j = Some point →
  ∃ point',
    settle getPriceForDate params points entry !! j = Some point'
    ∧ date point' = date point.
Proof.
  intros Hj. unfold settle.
  destruct (getPriceForDate _ _ _ _) as [[found|]|e]; try by exists point.
  destruct (decide (entry.2 = j)) as [->|Hne].
  - rewrite list_lookup_alter_eq, Hj. by eexists.
  - rewrite list_lookup_alter_ne by done. by exists point.
Qed.

Lemma entriesOf_settle (params : SearchParams) (points : list PriceDataPoint)
    (entry : PriceDataPoint * nat) (entries : list (PriceDataPoint * nat)) :
  Store.entriesOf points entries →
  Store.entriesOf (settle getPriceForDate params points entry) entries.
Proof.
  unfold Store.entriesOf. intros Hok. eapply Forall_impl; [exact Hok|].
  intros e (point & Hpoint & Hdate).
  destruct (settle_lookup params points entry _ _ Hpoint)
    as (point' & Hpoint' & Hdate').
  exists point'. split; [done | congruence].
Qed.

Lemma entriesOf_settled (params : SearchParams)
    (batch entries : list (PriceDataPoint * nat))
    (points : list PriceDataPoint) :
  Store.entriesOf points entries →
  Store.entriesOf (foldl (settle getPriceForDate params) points batch) entries.
Proof.
  revert points. induction batch as [|entry batch IH]; intros points; [done|].
  intros Hok. cbn [foldl]. by apply IH, entriesOf_settle.
Qed.

Lemma store_settle (params : SearchParams) (points : list PriceDataPoint)
    (entry : PriceDataPoint * nat) (point : PriceDataPoint) :
  points !! entry.2 = Some point → date point = date entry.1 →
  Store.settle getPriceForDate params (length h) (Store.layout h points)
    (Store.entryRef h entry)
  = Some (Store.layout h (settle getPriceForDate params points entry)).
Proof.
  intros Hpoint Hdate. unfold Store.settle, settle, Store.entryRef.
  cbn [fst snd]. rewrite layout_point, Hpoint. simpl. rewrite Hdate.
  destruct (getPriceForDate _ _ _ _) as [[found|]|e]; try done.
  rewrite layout_array. simpl.
  rewrite lookup_seq_lt by (by eapply lookup_lt_Some). simpl.
  rewrite layout_point, Hpoint. simpl. rewrite layout_write.
  do 2 f_equal. rewrite list_insert_alter.
  apply list_alter_ext; [|done]. intros p Hp. congruence.
Qed.

Lemma store_settleAll (params : SearchParams)
    (batch : list (PriceDataPoint * nat)) (points : list PriceDataPoint) :
  Store.entriesOf points batch →
  Store.settleAll getPriceForDate params (length h) (Store.layout h points)
    (map (Store.entryRef h) batch)
  = Some (Store.layout h (foldl (settle getPriceForDate params) points batch)).
Proof.
  revert points. induction batch as [|entry batch IH]; intros points Hok;
    [done|].
  apply Forall_cons in Hok as [(point & Hpoint & Hdate) Hok].
  cbn [map Store.settleAll foldl].
  rewrite (store_settle params points entry point Hpoint Hdate). simpl.
  by apply IH, entriesOf_settle.
Qed.

Lemma slice_map {A B} (f : A → B) (xs : list A) (i j : nat) :
  slice (map f xs) i j = map f (slice xs i j).
Proof.
  unfold slice. change (map f ?l) with (f <$> l).
  by rewrite fmap_take, fmap_drop.
Qed.

Lemma store_fetchBatches (fuel : nat) (params : SearchParams)
    (toFetch : list (PriceDataPoint * nat)) (i : nat)
    (points points' : list PriceDataPoint) (trace trace' : list event) :
  Store.entriesOf points toFetch →
  fetchBatches getPriceForDate fuel params toFetch i points trace
    = Some (points', trace') →
  Store.fetchBatches getPriceForDate fuel params
    (map (Store.entryRef h) toFetch) i (length h) (Store.layout h points)
  = Some (Store.layout h points').
Proof.
  revert i points trace. induction fuel as [|fuel IH]; intros i points trace Hok.
  - cbn [fetchBatches Store.fetchBatches]. rewrite length_map.
    destruct (i <? length toFetch)%nat; [done | by intros [= -> _]].
  - cbn [fetchBatches Store.fetchBatches]. rewrite length_map.
    destruct (i <? length toFetch)%nat; [|by intros [= -> _]].
    intros Hrun. rewrite slice_map, store_settleAll.
    + simpl. eapply IH; [|exact Hrun]. by apply entriesOf_settled.
    + unfold slice. by apply Forall_take, Forall_drop.
Qed.

End StoreAggregator.

Section StoreFrame.

Variable parseISO : string → Date.
Variable getPriceForDate : string → string → string → number → FetchOutcome.

(** extractPriceData over the store does what the function on values does;
    the store is extended by the returned array and its points; nothing
    that was there is changed. *)
Lemma store_extractPriceData (h : list Store.cell) (arr : nat)
    (offers : list Flight) (searchParams : option SearchParams)
    (result : outcome (list PriceDataPoint)) (trace : list event) :
  Store.flightsAt h arr = Some offers →
  extractPriceData parseISO getPriceForDate offers searchParams
    = Some (result, trace) →
  ∃ result' h',
    Store.extractPriceData parseISO getPriceForDate h arr searchParams
      = Some (result', h')
    ∧ h `prefix_of` h'
    ∧ match result with
      | Ok points =>
          ∃ out, result' = Ok out ∧ h !! out = None
                 ∧ Store.pointsAt h' out = Some points
      | Throw e => result' = Throw e
      end.
Proof.
  intros Hread. unfold extractPriceData, Store.extractPriceData.
  rewrite Hread. simpl.
  destruct (length offers =? 0)%nat.
  { intros [= <- _]. exists (Ok (length h)), (Store.layout h []).
    split; [done|]. split; [apply layout_prefix|].
    exists (length h). split; [done|].
    split; [by apply lookup_ge_None_2 | apply layout_points]. }
  unfold buildRange.
  destruct (groupPrices parseISO offers ∅) as [priceMap|e].
  2: { intros [= <- _]. by exists (Throw e), h. }
  destruct (flightDates parseISO offers) as [dates|e].
  2: { intros [= <- _]. by exists (Throw e), h. }
  cbv zeta.
  destruct (buildDates_loopFuel priceMap
              (addDays (new_Date (Math_max (map getTime dates))) 5)
              (new_Date (Math_min (map getTime dates)))) as (points & Hloop).
  rewrite Hloop. unfold Store.alloc.
  change (h ++ [Store.PointArray []]) with (Store.layout h []).
  rewrite (store_buildDates h _ _ _ _ _ _ Hloop). simpl.
  destruct searchParams as [params|].
  - rewrite store_datesToFetch. simpl. rewrite length_map.
    destruct (fetchBatches getPriceForDate (length (datesToFetch points))
                params (datesToFetch points) 0 points [])
      as [[points' trace']|] eqn:Hfetch; [|done].
    intros [= <- _].
    rewrite (store_fetchBatches getPriceForDate h _ _ _ _ _ _ _ _
               (entriesOf_datesToFetch points) Hfetch). simpl.
    exists (Ok (length h)), (Store.layout h points').
    split; [done|]. split; [apply layout_prefix|].
    exists (length h). split; [done|].
    split; [by apply lookup_ge_None_2 | apply layout_points].
  - intros [= <- _].
    exists (Ok (length h)), (Store.layout h points).
    split; [done|]. split; [apply layout_prefix|].
    exists (length h). split; [done|].
    split; [by apply lookup_ge_None_2 | apply layout_points].
Qed.

(** C9: on every store, for an input array [arr] holding [offers], each of
    the two functions returns; the store after the call extends the store
    before it, so the input array and every offer object are as they were;
    and the returned array is a new one, holding what the function
    computes. *)
Theorem inputs_not_mutated (h : list Store.cell) (arr : nat)
    (offers : list Flight) :
  Store.flightsAt h arr = Some offers →
  (∀ filters, ∃ out h',
      Store.filterFlights h arr filters = Some (out, h')
      ∧ h `prefix_of` h'
      ∧ Store.flightsAt h' arr = Some offers
      ∧ h !! out = None
      ∧ Store.flightsAt h' out = Some (filterFlights offers filters))
  ∧ (∀ searchParams, ∃ result h',
      Store.extractPriceData parseISO getPriceForDate h arr searchParams
        = Some (result, h')
      ∧ h `prefix_of` h'
      ∧ Store.flightsAt h' arr = Some offers
      ∧ match result with
        | Ok out =>
            h !! out = None
            ∧ ∃ points trace,
                Store.pointsAt h' out = Some points
                ∧ extractPriceData parseISO getPriceForDate offers
                    searchParams = Some (Ok points, trace)
        | Throw e =>
            ∃ trace,
              extractPriceData parseISO getPriceForDate offers searchParams
              = Some (Throw e, trace)
        end).
Proof.
  intros Hread. split.
  - intros filters.
    destruct (store_filterFlights h arr offers filters Hread)
      as (out & h' & Hrun & Hext & Hfresh & Hout).
    exists out, h'. repeat split; try done.
    by apply (flightsAt_prefix h h' Hext).
  - intros searchParams.
    destruct (extractPriceData_total parseISO getPriceForDate offers
                searchParams) as ([result trace] & Hpure).
    destruct (store_extractPriceData h arr offers searchParams result trace
                Hread Hpure) as (result' & h' & Hrun & Hext & Hres).
    exists result', h'. split; [done|]. split; [done|].
    split; [by apply (flightsAt_prefix h h' Hext)|].
    destruct result as [points|e].
    + destruct Hres as (out & -> & Hfresh & Hpoints).
      split; [done|]. by exists points, trace.
    + subst result'. by exists trace.
Qed.

End StoreFrame.

Lemma inputs_not_mutated_witness :
  (∀ filters, ∃ out h',
      Store.filterFlights SampleStore.objects SampleStore.offers filters
        = Some (out, h')
      ∧ SampleStore.objects `prefix_of` h'
      ∧ Store.flightsAt h' SampleStore.offers = Some Sample.scenarioA
      ∧ SampleStore.objects !! out = None
      ∧ Store.flightsAt h' out
        = Some (filterFlights Sample.scenarioA filters))
  ∧ (∀ searchParams, ∃ result h',
      Store.extractPriceData parseISO_local SampleSource.pricesFor
        SampleStore.objects SampleStore.offers searchParams
        = Some (result, h')
      ∧ SampleStore.objects `prefix_of` h'
      ∧ Store.flightsAt h' SampleStore.offers = Some Sample.scenarioA
      ∧ match result with
        | Ok out =>
            SampleStore.objects !! out = None
            ∧ ∃ points trace,
                Store.pointsAt h' out = Some points
                ∧ extractPriceData parseISO_local SampleSource.pricesFor
                    Sample.scenarioA searchParams = Some (Ok points, trace)
        | Throw e =>
            ∃ trace,
              extractPriceData parseISO_local SampleSource.pricesFor
                Sample.scenarioA searchParams = Some (Throw e, trace)
        end).
Proof.
  apply (inputs_not_mutated parseISO_local SampleSource.pricesFor
           SampleStore.objects SampleStore.offers Sample.scenarioA).
  reflexivity.
Defined.

(** ** The extent of the range *)

Section RangeExtent.

Variable parseISO : string → Date.
Variable getPriceForDate : string → string → string → number → FetchOutcome.

(** An empty offer list gives an empty sequence and no fetch. *)
Lemma extractPriceData_empty (searchParams : option SearchParams) :
  extractPriceData parseISO getPriceForDate [] searchParams = Some (Ok [], []).
Proof. reflexivity. Qed.

(** The loop makes one point more than there are whole days between the
    earliest time value and the latest one plus five days: the number of
    calendar days from the earliest to the latest departure plus 6 when
    the earliest departure is not later in its day than the latest one is
    in its own, and plus 5 otherwise. *)
Lemma range_length_cases (earliest latest : Z) :
  (latest + 5 * msPerDay - earliest) / msPerDay + 1
  = day_of latest - day_of earliest
    + (if earliest mod msPerDay <=? latest mod msPerDay then 6 else 5).
Proof.
  unfold day_of, msPerDay.
  destruct (Z.leb_spec (earliest mod 86400000) (latest mod 86400000));
    Z.div_mod_to_equations; lia.
Qed.

(** The dates of a returned sequence are consecutive calendar days from
    the day of the earliest departure. *)
Lemma extractPriceData_range (flights : list Flight)
    (searchParams : option SearchParams) (out : list PriceDataPoint)
    (trace : list event) :
  extractPriceData parseISO getPriceForDate flights searchParams
    = Some (Ok out, trace) →
  flights ≠ [] →
  ∃ ts earliest latest,
    Forall2 (λ flight t, departureTime parseISO flight = Some t) flights ts
    ∧ earliest ∈ ts ∧ latest ∈ ts
    ∧ Forall (λ t, earliest ≤ t ≤ latest) ts
    ∧ map date out
      = map (λ k, format_day (day_of earliest + Z.of_nat k))
          (seq 0 (Z.to_nat (day_of latest - day_of earliest
                            + (if earliest mod msPerDay <=? latest mod msPerDay
                               then 6 else 5)))).
Proof.
  intros Hrun Hne.
  destruct (extractPriceData_points _ _ _ _ _ _ Hrun Hne)
    as (base & Hrange & Hout).
  destruct (buildRange_cases parseISO flights Hne)
    as [(e & He) | (priceMap & ts & earliest & latest
                    & _ & Hts & Hein & Hlin & Hbounds & Hpoints)];
    [congruence|].
  rewrite Hrange in Hpoints. injection Hpoints as ->.
  exists ts, earliest, latest.
  split; [eapply Forall2_impl; [exact Hts | by intros ?? [? _]]|].
  repeat split; try done.
  rewrite <- range_length_cases.
  assert (map date (map (rangePoint priceMap earliest)
                      (seq 0 (Z.to_nat ((latest + 5 * msPerDay - earliest)
                                          / msPerDay + 1))))
          = map (λ k, format_day (day_of earliest + Z.of_nat k))
              (seq 0 (Z.to_nat ((latest + 5 * msPerDay - earliest)
                                  / msPerDay + 1)))) as Hdates.
  { rewrite map_map. apply map_ext. intros k. unfold rangePoint. simpl.
    by rewrite day_of_add_days. }
  destruct Hout as [-> | (params & ->)]; [done|].
  rewrite <- Hdates, (map_map (gapFilled getPriceForDate params) date).
  apply map_ext. intros point. apply gapFilled_date.
Qed.

End RangeExtent.

(** ** Runs on valid input return *)

Section Returns.

Variable parseISO : string → Date.
Variable getPriceForDate : string → string → string → number → FetchOutcome.

Lemma groupPrices_valid (flights : list Flight)
    (priceMap0 : gmap string (number * nat)) :
  Forall (λ flight, is_Some (departureTime parseISO flight)) flights →
  ∃ priceMap, groupPrices parseISO flights priceMap0 = Ok priceMap.
Proof.
  intros Hvalid. revert priceMap0.
  induction Hvalid as [|flight rest [t Ht] _ IH]; intros priceMap0.
  - by eexists.
  - cbn [groupPrices]. unfold groupStep, departureTime in *.
    destruct (firstDeparture flight) as [departureAt|e]; [|done].
    simpl. rewrite Ht. simpl. apply IH.
Qed.

(** When every offer has a first segment with a valid departure time, the
    aggregator returns a sequence, with or without context. *)
Lemma extractPriceData_returns (flights : list Flight)
    (searchParams : option SearchParams) :
  Forall (λ flight, is_Some (departureTime parseISO flight)) flights →
  ∃ out trace,
    extractPriceData parseISO getPriceForDate flights searchParams
    = Some (Ok out, trace).
Proof.
  intros Hvalid.
  destruct (groupPrices_valid flights ∅ Hvalid) as (priceMap & Hgroup).
  assert (∃ base, extractPriceData parseISO getPriceForDate flights None
                  = Some (Ok base, [])) as (base & Hbase).
  { unfold extractPriceData. destruct (length flights =? 0)%nat; [by eexists|].
    unfold buildRange. rewrite Hgroup.
    destruct (groupPrices_departures parseISO _ _ _ Hgroup) as (ts & Hts).
    rewrite (flightDates_valid parseISO flights ts)
      by (eapply Forall2_impl; [exact Hts | by intros ?? [? _]]).
    cbv zeta.
    destruct (buildDates_loopFuel priceMap
                (addDays (new_Date (Math_max (map getTime (map Some ts)))) 5)
                (new_Date (Math_min (map getTime (map Some ts)))))
      as (points & ->).
    by eexists. }
  destruct searchParams as [params|]; [|by eexists _, _].
  destruct (extractPriceData_context parseISO getPriceForDate flights params
              base Hbase) as (batches & _ & _ & Hrun).
  by eexists _, _.
Qed.

End Returns.

(** ** The order of numbers *)

Import FlightUtilsMore.

Lemma le_refl_number (x : number) : x ≠ NaN → le x x = true.
Proof.
  destruct x; try done. intros _. simpl. apply Qle_bool_iff. lra.
Qed.

Lemma le_trans_number (x y z : number) :
  le x y = true → le y z = true → le x z = true.
Proof.
  destruct x, y, z; simpl; try done.
  intros H1 H2. apply Qle_bool_iff. q_order.
Qed.

Lemma le_gt_false (x y : number) : le x y = true → gt x y = false.
Proof. destruct x, y; simpl; try done. by intros ->. Qed.

Lemma max2_pick (a x : number) : max2 a x = a ∨ max2 a x = x.
Proof.
  destruct a, x; simpl; auto; unfold max2, gt; q_cases; auto.
Qed.

Lemma min2_pick (a x : number) : min2 a x = a ∨ min2 a x = x.
Proof.
  destruct a, x; simpl; auto; unfold min2, lt, gt; q_cases; auto.
Qed.

Lemma max2_upper (a x : number) :
  a ≠ NaN → x ≠ NaN →
  max2 a x ≠ NaN ∧ le a (max2 a x) = true ∧ le x (max2 a x) = true.
Proof.
  destruct a, x; try done; intros _ _; simpl;
    unfold max2, gt; q_cases; simpl; repeat split; try done;
    try (apply Qle_bool_iff; q_order); exfalso; q_order.
Qed.

Lemma min2_lower (a x : number) :
  a ≠ NaN → x ≠ NaN →
  min2 a x ≠ NaN ∧ le (min2 a x) a = true ∧ le (min2 a x) x = true.
Proof.
  destruct a, x; try done; intros _ _; simpl;
    unfold min2, lt, gt; q_cases; simpl; repeat split; try done;
    try (apply Qle_bool_iff; q_order); exfalso; q_order.
Qed.

Lemma foldl_max2_upper (xs : list number) (a : number) :
  a ≠ NaN → Forall (λ x, x ≠ NaN) xs →
  foldl max2 a xs ≠ NaN
  ∧ le a (foldl max2 a xs) = true
  ∧ Forall (λ x, le x (foldl max2 a xs) = true) xs.
Proof.
  revert a. induction xs as [|x xs IH]; intros a Ha Hxs.
  - simpl. repeat split; [done | by apply le_refl_number | constructor].
  - apply Forall_cons in Hxs as [Hx Hxs]. cbn [foldl].
    destruct (max2_upper a x Ha Hx) as (Hm & Hma & Hmx).
    destruct (IH (max2 a x) Hm Hxs) as (Hr & Hle & Hall).
    repeat split; [done | by eapply le_trans_number|].
    constructor; [by eapply le_trans_number | done].
Qed.

Lemma foldl_min2_lower (xs : list number) (a : number) :
  a ≠ NaN → Forall (λ x, x ≠ NaN) xs →
  foldl min2 a xs ≠ NaN
  ∧ le (foldl min2 a xs) a = true
  ∧ Forall (λ x, le (foldl min2 a xs) x = true) xs.
Proof.
  revert a. induction xs as [|x xs IH]; intros a Ha Hxs.
  - simpl. repeat split; [done | by apply le_refl_number | constructor].
  - apply Forall_cons in Hxs as [Hx Hxs]. cbn [foldl].
    destruct (min2_lower a x Ha Hx) as (Hm & Hma & Hmx).
    destruct (IH (min2 a x) Hm Hxs) as (Hr & Hle & Hall).
    repeat split; [done | by eapply le_trans_number|].
    constructor; [by eapply le_trans_number | done].
Qed.

Lemma foldl_max2_NaN (xs : list number) : foldl max2 NaN xs = NaN.
Proof. induction xs as [|x xs IH]; [done|]. cbn [foldl]. exact IH. Qed.

Lemma foldl_min2_NaN (xs : list number) : foldl min2 NaN xs = NaN.
Proof. induction xs as [|x xs IH]; [done|]. cbn [foldl]. exact IH. Qed.

Lemma foldl_max2_has_NaN (xs : list number) (a : number) :
  NaN ∈ xs → foldl max2 a xs = NaN.
Proof.
  revert a. induction xs as [|x xs IH]; intros a Hin.
  - by apply elem_of_nil in Hin.
  - cbn [foldl]. apply elem_of_cons in Hin as [<- | Hin]; [|by apply IH].
    replace (max2 a NaN) with NaN by (by destruct a). apply foldl_max2_NaN.
Qed.

Lemma foldl_min2_has_NaN (xs : list number) (a : number) :
  NaN ∈ xs → foldl min2 a xs = NaN.
Proof.
  revert a. induction xs as [|x xs IH]; intros a Hin.
  - by apply elem_of_nil in Hin.
  - cbn [foldl]. apply elem_of_cons in Hin as [<- | Hin]; [|by apply IH].
    replace (min2 a NaN) with NaN by (by destruct a). apply foldl_min2_NaN.
Qed.

Lemma foldl_max2_elem (xs : list number) (a : number) :
  foldl max2 a xs ∈ a :: xs.
Proof.
  revert a. induction xs as [|x xs IH]; intros a; [apply list_elem_of_here|].
  cbn [foldl]. specialize (IH (max2 a x)).
  apply elem_of_cons in IH as [-> | IH].
  - destruct (max2_pick a x) as [-> | ->];
      [apply list_elem_of_here | apply list_elem_of_further, list_elem_of_here].
  - by do 2 apply list_elem_of_further.
Qed.

Lemma foldl_min2_elem (xs : list number) (a : number) :
  foldl min2 a xs ∈ a :: xs.
Proof.
  revert a. induction xs as [|x xs IH]; intros a; [apply list_elem_of_here|].
  cbn [foldl]. specialize (IH (min2 a x)).
  apply elem_of_cons in IH as [-> | IH].
  - destruct (min2_pick a x) as [-> | ->];
      [apply list_elem_of_here | apply list_elem_of_further, list_elem_of_here].
  - by do 2 apply list_elem_of_further.
Qed.

(** The maximum of a non-empty list is one of its elements, and so is the
    minimum. *)
Lemma Math_max_elem (xs : list number) : xs ≠ [] → Math_max xs ∈ xs.
Proof.
  destruct xs as [|x xs]; [done | intros _].
  unfold Math_max. cbn [foldl]. rewrite max2_NegInf_l. apply foldl_max2_elem.
Qed.

Lemma min2_PosInf_l (x : number) : min2 PosInf x = x.
Proof. by destruct x. Qed.

Lemma Math_min_elem (xs : list number) : xs ≠ [] → Math_min xs ∈ xs.
Proof.
  destruct xs as [|x xs]; [done | intros _].
  unfold Math_min. cbn [foldl]. rewrite min2_PosInf_l. apply foldl_min2_elem.
Qed.

Lemma Math_max_upper (xs : list number) (x : number) :
  Forall (λ y, y ≠ NaN) xs → x ∈ xs → le x (Math_max xs) = true.
Proof.
  intros Hxs Hx. unfold Math_max.
  destruct (foldl_max2_upper xs NegInf ltac:(done) Hxs) as (_ & _ & Hall).
  rewrite Forall_forall in Hall. by apply Hall.
Qed.

Lemma Math_min_lower (xs : list number) (x : number) :
  Forall (λ y, y ≠ NaN) xs → x ∈ xs → le (Math_min xs) x = true.
Proof.
  intros Hxs Hx. unfold Math_min.
  destruct (foldl_min2_lower xs PosInf ltac:(done) Hxs) as (_ & _ & Hall).
  rewrite Forall_forall in Hall. by apply Hall.
Qed.

Lemma NaN_or_none (xs : list number) :
  NaN ∈ xs ∨ Forall (λ y, y ≠ NaN) xs.
Proof.
  induction xs as [|x xs [IH | IH]].
  - right. constructor.
  - left. by apply list_elem_of_further.
  - destruct x; try (right; by constructor).
    left. apply list_elem_of_here.
Qed.

(** No element is greater than the maximum, NaN or not. *)
Lemma Math_max_not_exceeded (xs : list number) (x : number) :
  x ∈ xs → gt x (Math_max xs) = false.
Proof.
  intros Hx. destruct (NaN_or_none xs) as [Hnan | Hnan].
  - unfold Math_max. rewrite foldl_max2_has_NaN by done. by destruct x.
  - by apply le_gt_false, Math_max_upper.
Qed.

(** ** getMinMaxPrice *)

Lemma prices_total_price (flights : list Flight) :
  map (λ flight : Flight, parseFloat (total (price flight))) flights
  = map total_price flights.
Proof. done. Qed.

Lemma getMinMaxPrice_nonempty (flights : list Flight) :
  flights ≠ [] →
  getMinMaxPrice flights
  = {| MinMax.min := Math_min (map total_price flights);
       MinMax.max := Math_max (map total_price flights) |}.
Proof. by destruct flights. Qed.

Lemma elem_of_prices (flights : list Flight) (x : number) :
  x ∈ map total_price flights ↔ ∃ flight, flight ∈ flights ∧ x = total_price flight.
Proof.
  rewrite list_elem_of_In, in_map_iff. split.
  - intros (flight & <- & Hin). exists flight. by rewrite list_elem_of_In.
  - intros (flight & Hin & ->). exists flight. by rewrite <- list_elem_of_In.
Qed.

(** X1: when every price is a number, getMinMaxPrice bounds the price of
    every offer: min <= price <= max. *)
Theorem getMinMaxPrice_bounds (flights : list Flight) (flight : Flight) :
  (∀ other, other ∈ flights → total_price other ≠ NaN) →
  flight ∈ flights →
  le (MinMax.min (getMinMaxPrice flights)) (total_price flight) = true
  ∧ le (total_price flight) (MinMax.max (getMinMaxPrice flights)) = true.
Proof.
  intros Hnum Hin.
  assert (flights ≠ []) as Hne by (intros ->; by apply elem_of_nil in Hin).
  rewrite getMinMaxPrice_nonempty by done. simpl.
  assert (Forall (λ y, y ≠ NaN) (map total_price flights)) as Hall.
  { apply Forall_forall. intros y Hy.
    apply elem_of_prices in Hy as (other & Hother & ->). by apply Hnum. }
  assert (total_price flight ∈ map total_price flights) as Hprice
    by (apply elem_of_prices; by exists flight).
  split; [by apply Math_min_lower | by apply Math_max_upper].
Qed.

Lemma getMinMaxPrice_bounds_witness :
  le (MinMax.min (getMinMaxPrice Sample.scenarioA))
     (total_price (Sample.offer "2" "150" "2024-06-03T09:00:00" 0 ["AA"]))
  = true
  ∧ le (total_price (Sample.offer "2" "150" "2024-06-03T09:00:00" 0 ["AA"]))
       (MinMax.max (getMinMaxPrice Sample.scenarioA)) = true.
Proof.
  apply (getMinMaxPrice_bounds Sample.scenarioA).
  - intros other Hin.
    repeat (apply elem_of_cons in Hin as [-> | Hin]; [by vm_compute|]).
    by apply elem_of_nil in Hin.
  - apply list_elem_of_further, list_elem_of_here.
Defined.

(** X2: for a non-empty list, the minimum and the maximum getMinMaxPrice
    returns are each the price of one of the offers. *)
Theorem getMinMaxPrice_attained (flights : list Flight) :
  flights ≠ [] →
  ∃ cheapest dearest,
    cheapest ∈ flights ∧ dearest ∈ flights
    ∧ MinMax.min (getMinMaxPrice flights) = total_price cheapest
    ∧ MinMax.max (getMinMaxPrice flights) = total_price dearest.
Proof.
  intros Hne. rewrite getMinMaxPrice_nonempty by done. simpl.
  assert (map total_price flights ≠ []) as Hprices by (by destruct flights).
  pose proof (Math_min_elem _ Hprices) as Hmin.
  pose proof (Math_max_elem _ Hprices) as Hmax.
  apply elem_of_prices in Hmin as (cheapest & Hc & Hmin).
  apply elem_of_prices in Hmax as (dearest & Hd & Hmax).
  by exists cheapest, dearest.
Qed.

Lemma getMinMaxPrice_attained_witness :
  ∃ cheapest dearest,
    cheapest ∈ Sample.scenarioA ∧ dearest ∈ Sample.scenarioA
    ∧ MinMax.min (getMinMaxPrice Sample.scenarioA) = total_price cheapest
    ∧ MinMax.max (getMinMaxPrice Sample.scenarioA) = total_price dearest.
Proof. apply (getMinMaxPrice_attained Sample.scenarioA). discriminate. Defined.

(** X3: one offer whose price text is not a number makes both the minimum and
    the maximum NaN. *)
Theorem getMinMaxPrice_NaN (flights : list Flight) (flight : Flight) :
  flight ∈ flights → total_price flight = NaN →
  MinMax.min (getMinMaxPrice flights) = NaN
  ∧ MinMax.max (getMinMaxPrice flights) = NaN.
Proof.
  intros Hin Hnan.
  assert (flights ≠ []) as Hne by (intros ->; by apply elem_of_nil in Hin).
  rewrite getMinMaxPrice_nonempty by done. simpl.
  assert (NaN ∈ map total_price flights) as Hprice
    by (apply elem_of_prices; by exists flight).
  unfold Math_min, Math_max.
  by rewrite foldl_min2_has_NaN, foldl_max2_has_NaN.
Qed.

Lemma getMinMaxPrice_NaN_witness :
  MinMax.min (getMinMaxPrice (Sample.unpriced :: Sample.scenarioA)) = NaN
  ∧ MinMax.max (getMinMaxPrice (Sample.unpriced :: Sample.scenarioA)) = NaN.
Proof.
  apply (getMinMaxPrice_NaN (Sample.unpriced :: Sample.scenarioA)
           Sample.unpriced).
  - apply list_elem_of_here.
  - by vm_compute.
Defined.

(** X4: a price ceiling set to the maximum getMinMaxPrice returns excludes no
    offer. *)
Theorem filterFlights_at_max_price (flights : list Flight) :
  filterFlights flights
    {| stops := None;
       maxPrice := Some (MinMax.max (getMinMaxPrice flights));
       airlines := [] |}
  = flights.
Proof.
  destruct flights as [|first rest] eqn:Hflights; [done|].
  rewrite <- Hflights.
  assert (flights ≠ []) as Hne by (by rewrite Hflights).
  rewrite getMinMaxPrice_nonempty by done. cbn [MinMax.max].
  unfold filterFlights.
  assert (∀ flight, flight ∈ flights →
            keepFlight {| stops := None;
                          maxPrice := Some (Math_max (map total_price flights));
                          airlines := [] |} flight = true) as Hkeep.
  { intros flight Hin. unfold keepFlight. cbn [stops maxPrice airlines].
    change (parseFloat (total (price flight))) with (total_price flight).
    rewrite Math_max_not_exceeded; [done|].
    apply elem_of_prices. by exists flight. }
  clear Hflights Hne. revert Hkeep.
  generalize (Math_max (map total_price flights)). intros ceiling.
  induction flights as [|flight flights IH]; intros Hkeep; [done|].
  cbn [List.filter]. rewrite Hkeep by apply list_elem_of_here.
  f_equal. apply IH. intros other Hin. by apply Hkeep, list_elem_of_further.
Qed.

(** ** The order of strings *)

Lemma ascii_compare_refl (c : ascii) : Ascii.compare c c = Eq.
Proof. unfold Ascii.compare. apply N.compare_refl. Qed.

Lemma ascii_compare_lt_trans (a b c : ascii) :
  Ascii.compare a b = Lt → Ascii.compare b c = Lt → Ascii.compare a c = Lt.
Proof.
  unfold Ascii.compare. rewrite !N.compare_lt_iff. apply N.lt_trans.
Qed.

Lemma string_compare_lt_trans (s1 s2 s3 : string) :
  String.compare s1 s2 = Lt → String.compare s2 s3 = Lt →
  String.compare s1 s3 = Lt.
Proof.
  revert s2 s3. induction s1 as [|c1 s1 IH]; intros [|c2 s2] [|c3 s3];
    simpl; try done.
  destruct (Ascii.compare c1 c2) eqn:H12; try done;
    destruct (Ascii.compare c2 c3) eqn:H23; try done.
  - apply Ascii.compare_eq_iff in H12, H23. subst.
    rewrite ascii_compare_refl. apply IH.
  - apply Ascii.compare_eq_iff in H12. subst. by rewrite H23.
  - apply Ascii.compare_eq_iff in H23. subst. by rewrite H12.
  - by rewrite (ascii_compare_lt_trans _ _ _ H12 H23).
Qed.

Lemma string_compare_refl (s : string) : String.compare s s = Eq.
Proof.
  induction s as [|c s IH]; [done|]. simpl. by rewrite ascii_compare_refl.
Qed.

Lemma string_leb_cases (s1 s2 : string) :
  String.leb s1 s2 = true ↔ s1 = s2 ∨ String.ltb s1 s2 = true.
Proof.
  unfold String.leb, String.ltb.
  destruct (String.compare s1 s2) eqn:Hcmp.
  - apply String.compare_eq_iff in Hcmp. naive_solver.
  - naive_solver.
  - split; [done|]. intros [-> | ?]; [|done].
    rewrite string_compare_refl in Hcmp. done.
Qed.

Lemma string_ltb_trans (s1 s2 s3 : string) :
  String.ltb s1 s2 = true → String.ltb s2 s3 = true → String.ltb s1 s3 = true.
Proof.
  unfold String.ltb.
  destruct (String.compare s1 s2) eqn:H12; try done.
  destruct (String.compare s2 s3) eqn:H23; try done.
  by rewrite (string_compare_lt_trans _ _ _ H12 H23).
Qed.

Lemma string_leb_trans (s1 s2 s3 : string) :
  String.leb s1 s2 = true → String.leb s2 s3 = true → String.leb s1 s3 = true.
Proof.
  rewrite !string_leb_cases.
  intros [-> | H12] [-> | H23]; auto.
  right. by eapply string_ltb_trans.
Qed.

Lemma string_leb_false (s1 s2 : string) :
  String.leb s1 s2 = false → String.leb s2 s1 = true.
Proof.
  intros H. destruct (String.leb_total s1 s2) as [H' | H']; [congruence | done].
Qed.

(** ** Sorting *)

Lemma insertSorted_perm (x : string) (l : list string) :
  insertSorted x l ≡ₚ x :: l.
Proof.
  induction l as [|y l IH]; [done|]. simpl.
  destruct (String.leb x y); [done|].
  rewrite IH. apply Permutation_swap.
Qed.

Lemma sort_perm (l : list string) : sort l ≡ₚ l.
Proof.
  induction l as [|x l IH]; [done|].
  unfold sort in *. simpl. rewrite insertSorted_perm. by constructor.
Qed.

Lemma insertSorted_sorted (x : string) (l : list string) :
  StronglySorted (λ a b, String.leb a b = true) l →
  StronglySorted (λ a b, String.leb a b = true) (insertSorted x l).
Proof.
  induction 1 as [|y l Hsorted IH Hall]; simpl.
  - repeat constructor.
  - destruct (String.leb x y) eqn:Hxy.
    + constructor; [by constructor|].
      constructor; [done|].
      eapply Forall_impl; [exact Hall|]. intros z Hz.
      by eapply string_leb_trans.
    + constructor; [done|].
      rewrite insertSorted_perm. constructor; [|done].
      by apply string_leb_false.
Qed.

Lemma sort_sorted (l : list string) :
  StronglySorted (λ a b, String.leb a b = true) (sort l).
Proof.
  induction l as [|x l IH]; [constructor|].
  unfold sort in *. simpl. by apply insertSorted_sorted.
Qed.

Lemma sorted_strict (l : list string) :
  NoDup l →
  StronglySorted (λ a b, String.leb a b = true) l →
  StronglySorted (λ a b, String.ltb a b = true) l.
Proof.
  intros Hnodup. induction 1 as [|x l Hsorted IH Hall]; [constructor|].
  apply NoDup_cons in Hnodup as [Hx Hnodup].
  constructor; [by apply IH|].
  apply Forall_forall. intros y Hy.
  rewrite Forall_forall in Hall. specialize (Hall y Hy).
  apply string_leb_cases in Hall as [-> | Hlt]; done.
Qed.

(** ** getAllAirlines *)

Lemma Set_add_elem (set : list string) (x y : string) :
  y ∈ Set_add set x ↔ y ∈ set ∨ y = x.
Proof.
  unfold Set_add. destruct (includes set x) eqn:Hinc.
  - apply includes_elem_of in Hinc. split; [auto | by intros [? | ->]].
  - rewrite elem_of_app, list_elem_of_singleton. done.
Qed.

Lemma Set_add_NoDup (set : list string) (x : string) :
  NoDup set → NoDup (Set_add set x).
Proof.
  intros Hnodup. unfold Set_add. destruct (includes set x) eqn:Hinc; [done|].
  apply NoDup_app. split; [done|]. split; [|apply NoDup_singleton].
  intros y Hy Hyx. apply list_elem_of_singleton in Hyx as ->.
  apply includes_elem_of in Hy. congruence.
Qed.

Lemma addAll_elem (codes set : list string) (y : string) :
  y ∈ foldl Set_add set codes ↔ y ∈ set ∨ y ∈ codes.
Proof.
  revert set. induction codes as [|x codes IH]; intros set; simpl.
  - rewrite elem_of_nil. tauto.
  - rewrite IH, Set_add_elem, elem_of_cons. tauto.
Qed.

Lemma addAll_NoDup (codes set : list string) :
  NoDup set → NoDup (foldl Set_add set codes).
Proof.
  revert set. induction codes as [|x codes IH]; intros set Hnodup; [done|].
  simpl. by apply IH, Set_add_NoDup.
Qed.

Lemma collect_elem (flights : list Flight) (set : list string) (y : string) :
  y ∈ foldl (λ airlines flight,
               foldl Set_add airlines (validatingAirlineCodes flight))
        set flights
  ↔ y ∈ set ∨ ∃ flight, flight ∈ flights ∧ y ∈ validatingAirlineCodes flight.
Proof.
  revert set. induction flights as [|flight flights IH]; intros set; simpl.
  - split; [auto|]. intros [? | (f & Hf & _)]; [done|].
    by apply elem_of_nil in Hf.
  - rewrite IH, addAll_elem. split.
    + intros [[? | ?] | (f & Hf & Hy)]; [by left | |].
      * right. exists flight. split; [apply list_elem_of_here | done].
      * right. exists f. split; [by apply list_elem_of_further | done].
    + intros [? | (f & Hf & Hy)]; [by left; left|].
      apply elem_of_cons in Hf as [-> | Hf]; [by left; right|].
      right. by exists f.
Qed.

Lemma collect_NoDup (flights : list Flight) (set : list string) :
  NoDup set →
  NoDup (foldl (λ airlines flight,
                  foldl Set_add airlines (validatingAirlineCodes flight))
           set flights).
Proof.
  revert set. induction flights as [|flight flights IH]; intros set Hnodup;
    [done|].
  simpl. by apply IH, addAll_NoDup.
Qed.

Lemma getAllAirlines_elem_of (flights : list Flight) (code : string) :
  code ∈ getAllAirlines flights
  ↔ ∃ flight, flight ∈ flights ∧ code ∈ validatingAirlineCodes flight.
Proof.
  unfold getAllAirlines, collectAirlines.
  rewrite sort_perm, collect_elem, elem_of_nil. tauto.
Qed.

(** X5: getAllAirlines returns its codes in strictly ascending order, so none
    of them twice. *)
Theorem getAllAirlines_ascending (flights : list Flight) :
  StronglySorted (λ a b, String.ltb a b = true) (getAllAirlines flights).
Proof.
  unfold getAllAirlines. apply sorted_strict; [|apply sort_sorted].
  rewrite sort_perm. apply collect_NoDup. constructor.
Qed.

(** X6: getAllAirlines returns exactly the validating airline codes of the
    offers. *)
Theorem getAllAirlines_codes (flights : list Flight) (code : string) :
  code ∈ getAllAirlines flights
  ↔ ∃ flight, flight ∈ flights ∧ code ∈ validatingAirlineCodes flight.
Proof. apply getAllAirlines_elem_of. Qed.

(** X7: with every available airline selected, the filter keeps each offer
    that has a validating airline code. *)
Theorem filterFlights_all_airlines (flights : list Flight) (flight : Flight) :
  flight ∈ flights →
  validatingAirlineCodes flight ≠ [] →
  flight ∈ filterFlights flights
             {| stops := None; maxPrice := None;
                airlines := getAllAirlines flights |}.
Proof.
  intros Hin Hcodes. apply elem_of_filterFlights. split; [done|].
  split; [by intros wanted [=]|]. split; [by intros ceiling [=]|].
  intros _. cbn [airlines].
  destruct (validatingAirlineCodes flight) as [|code codes] eqn:Hc; [done|].
  exists code. split; [apply list_elem_of_here|].
  apply getAllAirlines_elem_of. exists flight. split; [done|].
  rewrite Hc. apply list_elem_of_here.
Qed.

Lemma filterFlights_all_airlines_witness :
  Sample.offer "3" "200" "2024-06-01T10:00:00" 0 ["DL"]
  ∈ filterFlights Sample.scenarioA
      {| stops := None; maxPrice := None;
         airlines := getAllAirlines Sample.scenarioA |}.
Proof.
  apply (filterFlights_all_airlines Sample.scenarioA).
  - do 2 apply list_elem_of_further. apply list_elem_of_here.
  - discriminate.
Defined.

(** ** formatDuration *)

Lemma afterPT_cons (c : ascii) (s : string) :
  afterPT (String c s)
  = match s with
    | String t rest =>
        if Ascii.eqb c "P" && Ascii.eqb t "T" then Some rest else afterPT s
    | EmptyString => None
    end.
Proof.
  destruct (Ascii.eqb_spec c "P") as [-> | Hc].
  - destruct s as [|t rest]; [done|].
    destruct (Ascii.eqb_spec t "T") as [-> | Ht]; [done|].
    destruct t as [[] [] [] [] [] [] [] []]; done.
  - destruct c as [[] [] [] [] [] [] [] []]; try done; by destruct s.
Qed.

Lemma afterPT_found (before after : string) :
  is_Some (afterPT (before +:+ "PT" +:+ after)).
Proof.
  induction before as [|c before IH]; [by eexists|].
  change (String c before +:+ "PT" +:+ after)
    with (String c (before +:+ "PT" +:+ after)).
  rewrite afterPT_cons.
  destruct (before +:+ "PT" +:+ after) as [|t rest]; [by destruct IH|].
  by destruct (Ascii.eqb c "P" && Ascii.eqb t "T").
Qed.

Lemma afterPT_Some (s rest : string) :
  afterPT s = Some rest → ∃ before, s = before +:+ "PT" +:+ rest.
Proof.
  induction s as [|c s IH]; [done|]. rewrite afterPT_cons.
  destruct s as [|t s']; [done|].
  destruct (Ascii.eqb_spec c "P") as [-> | Hc];
    [destruct (Ascii.eqb_spec t "T") as [-> | Ht]|]; simpl.
  - intros [= ->]. by exists "".
  - intros Hrest. destruct (IH Hrest) as (before & ->).
    by exists (String "P" before).
  - intros Hrest. destruct (IH Hrest) as (before & ->).
    by exists (String c before).
Qed.

(** [afterPT] finds nothing exactly in the strings without [PT]. *)
Lemma afterPT_None (s : string) :
  afterPT s = None ↔ ∀ before after, s ≠ before +:+ "PT" +:+ after.
Proof.
  split.
  - intros Hnone before after ->.
    destruct (afterPT_found before after) as (rest & Hrest). congruence.
  - intros Hno. destruct (afterPT s) as [rest|] eqn:Hs; [|done].
    apply afterPT_Some in Hs as (before & ->). by destruct (Hno before rest).
Qed.

(** X8: a duration text without [PT] in it comes back unchanged. *)
Theorem formatDuration_no_match (duration : string) :
  (∀ before after, duration ≠ before +:+ "PT" +:+ after) →
  formatDuration duration = duration.
Proof.
  intros Hno. apply afterPT_None in Hno. unfold formatDuration.
  by rewrite Hno.
Qed.

Lemma formatDuration_no_match_witness :
  formatDuration "90 min" = "90 min".
Proof.
  apply formatDuration_no_match. apply afterPT_None. reflexivity.
Defined.

(** *** Printing and reading back a natural number *)

Lemma pretty_N_char_digit (d : N) :
  (d < 10)%N →
  is_digit (pretty_N_char d) = true ∧ digit_val (pretty_N_char d) = Z.of_N d.
Proof.
  intros Hd.
  assert (d = 0 ∨ d = 1 ∨ d = 2 ∨ d = 3 ∨ d = 4 ∨ d = 5 ∨ d = 6 ∨ d = 7
          ∨ d = 8 ∨ d = 9)%N as Hcases by lia.
  repeat (destruct Hcases as [-> | Hcases]; [by vm_compute|]).
  subst. by vm_compute.
Qed.

Lemma digits_value_snoc (ds : list ascii) (c : ascii) :
  digits_value (ds ++ [c]) = 10 * digits_value ds + digit_val c.
Proof. unfold digits_value. by rewrite foldl_app. Qed.

(** The digits [pretty_N_go] puts in front of a text. *)
Lemma pretty_N_go_digits (x : N) (s : string) :
  ∃ ds,
    pretty_N_go x s = foldr String s ds
    ∧ Forall (λ c, is_digit c = true) ds
    ∧ digits_value ds = Z.of_N x
    ∧ (x ≠ 0%N → ds ≠ []).
Proof.
  revert s. induction (N.lt_wf_0 x) as [x _ IH]. intros s.
  destruct (decide (x = 0%N)) as [-> | Hx].
  - exists []. by rewrite pretty_N_go_0.
  - rewrite pretty_N_go_step by lia.
    destruct (IH (x `div` 10)%N ltac:(apply N.div_lt; lia)
                (String (pretty_N_char (x `mod` 10)) s))
      as (ds & -> & Hdigits & Hvalue & _).
    destruct (pretty_N_char_digit (x `mod` 10)%N) as [Hd Hv];
      [apply N.mod_lt; lia|].
    exists (ds ++ [pretty_N_char (x `mod` 10)]).
    split; [by rewrite foldr_app|]. split; [|split].
    + apply Forall_app. split; [done | by constructor].
    + rewrite digits_value_snoc, Hvalue, Hv.
      rewrite (N.div_mod x 10) at 3 by lia. lia.
    + intros _. by destruct ds.
Qed.

Lemma pretty_N_digits (n : N) :
  ∃ ds,
    pretty n = foldr String "" ds
    ∧ Forall (λ c, is_digit c = true) ds
    ∧ digits_value ds = Z.of_N n
    ∧ ds ≠ [].
Proof.
  unfold pretty, pretty_N. case_decide as Hn.
  - subst. exists ["0"%char]. repeat split; try done. by repeat constructor.
  - destruct (pretty_N_go_digits n "") as (ds & Hgo & Hdigits & Hvalue & Hne).
    exists ds. repeat split; try done. by apply Hne.
Qed.

Lemma foldr_String_app (ds : list ascii) (s rest : string) :
  foldr String s ds +:+ rest = foldr String (s +:+ rest) ds.
Proof. induction ds as [|d ds IH]; [done|]. simpl. by rewrite <- IH. Qed.

Lemma span_digits_prefix (ds : list ascii) (c : ascii) (rest : string) :
  Forall (λ d, is_digit d = true) ds → is_digit c = false →
  span_digits (foldr String (String c rest) ds) = (ds, String c rest).
Proof.
  intros Hds Hc. induction Hds as [|d ds Hd _ IH]; simpl.
  - by rewrite Hc.
  - by rewrite Hd, IH.
Qed.

(** The group [(\d+)U] reads back a printed number that is followed by the
    unit letter. *)
Lemma unitGroup_pretty (unit : ascii) (n : N) (rest : string) :
  is_digit unit = false →
  ∃ ds,
    unitGroup unit (pretty n +:+ String unit rest) = (Some ds, rest)
    ∧ digits_value ds = Z.of_N n.
Proof.
  intros Hunit.
  destruct (pretty_N_digits n) as (ds & -> & Hdigits & Hvalue & Hne).
  exists ds. split; [|done].
  unfold unitGroup. rewrite foldr_String_app.
  change ("" +:+ String unit rest) with (String unit rest).
  rewrite span_digits_prefix by done.
  destruct ds as [|d ds]; [done|]. by rewrite Ascii.eqb_refl.
Qed.

Lemma pretty_Z_of_N (n : N) : pretty (Z.of_N n) = pretty n.
Proof. by destruct n. Qed.

(** X9: formatDuration reads an ISO duration of [h] hours and [m] minutes back
    and prints it as [Hh Mm], leaving out the hours when they are 0 and
    the minutes when they are 0 and the hours are not. *)
Theorem formatDuration_isoDuration (h m : N) :
  (h < 2 ^ 53)%N → (m < 2 ^ 53)%N →
  formatDuration (isoDuration h m)
  = if (h =? 0)%N then pretty m +:+ "m"
    else if (m =? 0)%N then pretty h +:+ "h"
    else pretty h +:+ "h " +:+ pretty m +:+ "m".
Proof.
  intros _ _. unfold formatDuration, isoDuration.
  change (afterPT ("PT" +:+ ?s)) with (Some s). cbv iota.
  destruct (unitGroup_pretty "H" h (pretty m +:+ "M") eq_refl)
    as (hs & Hh & Hhv).
  change (pretty h +:+ "H" +:+ pretty m +:+ "M")
    with (pretty h +:+ String "H" (pretty m +:+ "M")).
  rewrite Hh.
  destruct (unitGroup_pretty "M" m "" eq_refl) as (ms & Hm & Hmv).
  change (pretty m +:+ "M") with (pretty m +:+ String "M" "").
  rewrite Hm. cbn [capturedInt]. rewrite Hhv, Hmv, !pretty_Z_of_N.
  destruct (N.eqb_spec h 0) as [-> | Hh0]; [done|].
  destruct (Z.eqb_spec (Z.of_N h) 0) as [? | _]; [lia|].
  destruct (N.eqb_spec m 0) as [-> | Hm0]; [done|].
  destruct (Z.eqb_spec (Z.of_N m) 0) as [? | _]; [lia | done].
Qed.

Lemma formatDuration_isoDuration_witness :
  formatDuration (isoDuration 2 30) = "2h 30m".
Proof. apply (formatDuration_isoDuration 2 30); reflexivity. Defined.

(** ** More on the result filter *)

Lemma filter_filter_andb {A} (p q : A → bool) (l : list A) :
  List.filter q (List.filter p l) = List.filter (λ x, p x && q x) l.
Proof.
  induction l as [|x l IH]; [done|]. simpl.
  destruct (p x) eqn:Hp; simpl; [|done].
  destruct (q x); by rewrite IH.
Qed.

Lemma filter_ext_bool {A} (p q : A → bool) (l : list A) :
  (∀ x, p x = q x) → List.filter p l = List.filter q l.
Proof.
  intros Hpq. induction l as [|x l IH]; [done|]. simpl.
  by rewrite Hpq, IH.
Qed.

Lemma keepFlight_split (spec : Filters) (flight : Flight) :
  keepFlight spec flight
  = keepFlight {| stops := stops spec; maxPrice := None; airlines := [] |}
      flight
    && keepFlight {| stops := None; maxPrice := maxPrice spec; airlines := [] |}
         flight
    && keepFlight {| stops := None; maxPrice := None;
                     airlines := airlines spec |} flight.
Proof.
  unfold keepFlight. cbn [stops maxPrice airlines length Nat.ltb Nat.leb].
  repeat match goal with
  | |- context [if ?b then false else _] => destruct b eqn:?
  end; done.
Qed.

(** X10: the three constraints act independently: filtering by a specification
    is filtering by its stops constraint, then by its price ceiling, then
    by its airlines. *)
Theorem filterFlights_one_by_one (flights : list Flight) (spec : Filters) :
  filterFlights flights spec
  = filterFlights
      (filterFlights
         (filterFlights flights
            {| stops := stops spec; maxPrice := None; airlines := [] |})
         {| stops := None; maxPrice := maxPrice spec; airlines := [] |})
      {| stops := None; maxPrice := None; airlines := airlines spec |}.
Proof.
  unfold filterFlights. rewrite !filter_filter_andb.
  apply filter_ext_bool. intros flight. cbv beta.
  rewrite andb_assoc. apply keepFlight_split.
Qed.

(** Filtering a second time by the same specification changes nothing. *)
Lemma filterFlights_idempotent (flights : list Flight) (spec : Filters) :
  filterFlights (filterFlights flights spec) spec = filterFlights flights spec.
Proof.
  unfold filterFlights. rewrite filter_filter_andb.
  apply filter_ext_bool. intros flight. by destruct (keepFlight spec flight).
Qed.

Lemma strict_eq_common (x a b : number) :
  strict_eq x a = true → strict_eq x b = true → strict_eq a b = true.
Proof.
  destruct x, a, b; simpl; try done.
  rewrite !Qeq_bool_iff. intros H1 H2. by rewrite <- H1, <- H2.
Qed.

(** X11: the stops constraints are exclusive: no offer passes two filters that
    want different stop counts. *)
Theorem filterFlights_stops_exclusive (flights : list Flight)
    (first second : Filters) (wanted1 wanted2 : number) :
  stops first = Some wanted1 → stops second = Some wanted2 →
  strict_eq wanted1 wanted2 = false →
  filterFlights (filterFlights flights first) second = [].
Proof.
  intros H1 H2 Hdiff.
  destruct (filterFlights (filterFlights flights first) second)
    as [|flight rest] eqn:Hres; [done|].
  assert (flight ∈ filterFlights (filterFlights flights first) second) as Hin
    by (rewrite Hres; apply list_elem_of_here).
  apply elem_of_filterFlights in Hin as (Hin & Hs2 & _).
  apply elem_of_filterFlights in Hin as (_ & Hs1 & _).
  specialize (Hs1 wanted1 H1). specialize (Hs2 wanted2 H2).
  rewrite (strict_eq_common _ _ _ Hs1 Hs2) in Hdiff. done.
Qed.

Lemma filterFlights_stops_exclusive_witness :
  filterFlights
    (filterFlights Sample.scenarioA
       {| stops := Some (of_Z 0); maxPrice := None; airlines := [] |})
    {| stops := Some (of_Z 1); maxPrice := None; airlines := [] |}
  = [].
Proof.
  apply (filterFlights_stops_exclusive Sample.scenarioA _ _ (of_Z 0) (of_Z 1));
    reflexivity.
Defined.

(** X12: an offer without any segment has the maximum stop count -Infinity, so
    a stops constraint with a finite count drops it. *)
Theorem filterFlights_no_segments (flights : list Flight) (spec : Filters)
    (wanted : Q) (flight : Flight) :
  stops spec = Some (Fin wanted) →
  all_segments flight = [] →
  flight ∉ filterFlights flights spec.
Proof.
  intros Hstops Hnone Hin.
  apply elem_of_filterFlights in Hin as (_ & Hpass & _).
  specialize (Hpass (Fin wanted) Hstops).
  unfold max_stop_count in Hpass. rewrite Hnone in Hpass. done.
Qed.

Lemma filterFlights_no_segments_witness :
  {| id := "0"; price := {| total := "10"; currency := "USD" |};
     itineraries := []; numberOfBookableSeats := of_Z 1;
     validatingAirlineCodes := [] |}
  ∉ filterFlights
      [ {| id := "0"; price := {| total := "10"; currency := "USD" |};
           itineraries := []; numberOfBookableSeats := of_Z 1;
           validatingAirlineCodes := [] |} ]
      {| stops := Some (of_Z 0); maxPrice := None; airlines := [] |}.
Proof.
  apply (filterFlights_no_segments _ _ (inject_Z 0)); reflexivity.
Defined.

(** ** More on the aggregator *)

Section AggregatorMore.

Variable parseISO : string → Date.
Variable getPriceForDate : string → string → string → number → FetchOutcome.

Lemma groupPrices_invalid (flights : list Flight)
    (priceMap0 : gmap string (number * nat)) (flight : Flight) :
  flight ∈ flights → departureTime parseISO flight = None →
  ∃ e, groupPrices parseISO flights priceMap0 = Throw e.
Proof.
  intros Hin Hbad. revert priceMap0.
  induction flights as [|first rest IH]; intros priceMap0.
  - by apply elem_of_nil in Hin.
  - cbn [groupPrices].
    destruct (groupStep parseISO priceMap0 first) as [priceMap1|e] eqn:Hstep;
      [|by exists e].
    apply elem_of_cons in Hin as [-> | Hin]; [|by apply IH].
    apply groupStep_Ok in Hstep as (dateStr & Hday & _).
    unfold departureDay, departureTime in *.
    destruct (firstDeparture first) as [departureAt|e]; [|done].
    simpl in Hday. by rewrite Hbad in Hday.
Qed.

(** An offer without a valid first departure makes every run raise, the
    same exception with and without context, before any fetch. *)
Lemma extractPriceData_invalid (offers : list Flight) (offer : Flight) :
  offer ∈ offers → departureTime parseISO offer = None →
  ∃ e, ∀ context,
    extractPriceData parseISO getPriceForDate offers context
    = Some (Throw e, []).
Proof.
  intros Hin Hbad.
  destruct (groupPrices_invalid offers ∅ offer Hin Hbad) as (e & Hgroup).
  exists e. intros context. unfold extractPriceData.
  destruct offers as [|first rest]; [by apply elem_of_nil in Hin|].
  cbn [length Nat.eqb]. unfold buildRange. by rewrite Hgroup.
Qed.

(** X13: extractPriceData returns a sequence exactly when every offer has
    a first segment of a first itinerary with a valid departure time; and
    exactly when some offer has none it raises, having made no fetch.
    This holds with and without context, however the fetches settle. *)
Theorem extractPriceData_returns_iff (flights : list Flight)
    (searchParams : option SearchParams) :
  ((∃ out trace,
      extractPriceData parseISO getPriceForDate flights searchParams
      = Some (Ok out, trace))
   ↔ Forall (λ flight, is_Some (departureTime parseISO flight)) flights)
  ∧ ((∃ e,
        extractPriceData parseISO getPriceForDate flights searchParams
        = Some (Throw e, []))
     ↔ ¬ Forall (λ flight, is_Some (departureTime parseISO flight)) flights).
Proof.
  assert (Forall (λ flight, is_Some (departureTime parseISO flight)) flights
          → ∃ out trace,
              extractPriceData parseISO getPriceForDate flights searchParams
              = Some (Ok out, trace)) as Hreturns
    by apply extractPriceData_returns.
  assert (¬ Forall (λ flight, is_Some (departureTime parseISO flight)) flights
          → ∃ e,
              extractPriceData parseISO getPriceForDate flights searchParams
              = Some (Throw e, [])) as Hraises.
  { intros Hnot. apply not_Forall_Exists in Hnot; [|apply _].
    apply Exists_exists in Hnot as (flight & Hin & Hbad).
    destruct (extractPriceData_invalid flights flight Hin) as (e & Hraise).
    { apply eq_None_not_Some. exact Hbad. }
    by exists e. }
  split; (split; [|done]).
  - intros (out & trace & Hrun).
    destruct (decide (Forall (λ flight,
                is_Some (departureTime parseISO flight)) flights))
      as [Hvalid | Hnot]; [done|].
    destruct (Hraises Hnot) as (e & Hraise). congruence.
  - intros (e & Hraise) Hvalid.
    destruct (Hreturns Hvalid) as (out & trace & Hrun). congruence.
Qed.

(** X14: whether extractPriceData raises, and what, does not depend on the
    search context: the run with context raises an exception exactly when
    the run without context raises it, and it has then made no fetch (its
    events are none). *)
Theorem extractPriceData_raises_alike (flights : list Flight)
    (params : SearchParams) (e : thrown) (trace : list event) :
  extractPriceData parseISO getPriceForDate flights (Some params)
    = Some (Throw e, trace)
  ↔ trace = []
    ∧ extractPriceData parseISO getPriceForDate flights None
      = Some (Throw e, []).
Proof.
  unfold extractPriceData. destruct (length flights =? 0)%nat.
  { split; [done | by intros [_ ?]]. }
  destruct (buildRange_total parseISO flights) as ([points|e'] & ->).
  - destruct (fetchBatches_schedule getPriceForDate params
                (length (datesToFetch points)) (datesToFetch points) 0
                points []) as (batches & _ & _ & ->); [lia|].
    split; [done | by intros [_ ?]].
  - split; [by intros [= -> <-] | by intros [-> [= ->]]].
Qed.

(** X15: in every returned point the price is absent exactly when the count
    is 0. *)
Theorem extractPriceData_price_iff_count (flights : list Flight)
    (searchParams : option SearchParams) (out : list PriceDataPoint)
    (trace : list event) (point : PriceDataPoint) :
  extractPriceData parseISO getPriceForDate flights searchParams
    = Some (Ok out, trace) →
  point ∈ out →
  pd_price point = None ↔ count point = 0%nat.
Proof.
  intros Hrun Hin.
  destruct (decide (flights = [])) as [-> | Hne].
  { rewrite extractPriceData_empty in Hrun. injection Hrun as <- _.
    by apply elem_of_nil in Hin. }
  destruct (extractPriceData_points _ _ _ _ _ _ Hrun Hne)
    as (base & Hrange & Hout).
  destruct (buildRange_cases parseISO flights Hne)
    as [(e & He) | (priceMap & ts & earliest & latest
                    & Hgroup & _ & _ & _ & _ & Hpoints)];
    [congruence|].
  rewrite Hrange in Hpoints. injection Hpoints as ->.
  assert (∀ k, pd_price (rangePoint priceMap earliest k) = None
               ↔ count (rangePoint priceMap earliest k) = 0%nat) as Hbase.
  { intros k. unfold rangePoint, pointOf. simpl.
    set (day := format_day _).
    rewrite (groupPrices_lookup parseISO _ _ _ day Hgroup), lookup_empty.
    unfold grouped. destruct (offersOn parseISO day flights); simpl; done. }
  destruct Hout as [-> | (params & ->)].
  - apply list_elem_of_In, in_map_iff in Hin as (k & <- & _). apply Hbase.
  - apply list_elem_of_In, in_map_iff in Hin as (point0 & <- & Hin0).
    apply in_map_iff in Hin0 as (k & <- & _).
    specialize (Hbase k). unfold gapFilled.
    destruct (pd_price (rangePoint priceMap earliest k)) eqn:Hprice;
      [by rewrite Hprice|].
    destruct (getPriceForDate _ _ _ _) as [[found|]|e];
      [done | |]; rewrite Hprice; exact Hbase.
Qed.

End AggregatorMore.

Section AggregatorEvents.

Variable parseISO : string → Date.
Variable getPriceForDate : string → string → string → number → FetchOutcome.

(** A run with context is the batch loop on the range of the run without
    context. *)
Lemma extractPriceData_context_run (flights : list Flight)
    (params : SearchParams) (out : list PriceDataPoint) (trace : list event) :
  extractPriceData parseISO getPriceForDate flights (Some params)
    = Some (Ok out, trace) →
  ∃ base,
    extractPriceData parseISO getPriceForDate flights None
      = Some (Ok base, [])
    ∧ out = map (gapFilled getPriceForDate params) base
    ∧ fetchBatches getPriceForDate (length (datesToFetch base)) params
        (datesToFetch base) 0 base [] = Some (out, trace).
Proof.
  unfold extractPriceData. destruct (length flights =? 0)%nat.
  { intros [= <- <-]. by exists []. }
  destruct (buildRange parseISO flights) as [[points|e]|]; [|done|done].
  destruct (fetchBatches getPriceForDate _ params _ 0 points [])
    as [[points' trace']|] eqn:Hfetch; [|done].
  intros [= <- <-]. exists points. split; [done|]. split; [|done].
  destruct (fetchBatches_schedule getPriceForDate params
              (length (datesToFetch points)) (datesToFetch points) 0
              points []) as (batches & _ & _ & Hrun); [lia|].
  rewrite Hrun in Hfetch. injection Hfetch as <- _.
  cbn [drop]. apply settle_datesToFetch.
Qed.

Lemma requests_batchEvents (params : SearchParams)
    (batch : list (PriceDataPoint * nat)) :
  Trace.requests (batchEvents getPriceForDate params batch)
  = map requestOf batch.
Proof.
  unfold Trace.requests, batchEvents. rewrite List.filter_app.
  assert (List.filter Trace.isRequest (map requestOf batch)
          = map requestOf batch) as ->.
  { induction batch as [|entry batch IH]; [done|]. simpl. by rewrite IH. }
  assert (List.filter Trace.isRequest
            (map (settledOf getPriceForDate params) batch) = []) as ->.
  { induction batch as [|entry batch IH]; [done|]. simpl. by rewrite IH. }
  by rewrite app_nil_r.
Qed.

Lemma settlements_batchEvents (params : SearchParams)
    (batch : list (PriceDataPoint * nat)) :
  Trace.settlements (batchEvents getPriceForDate params batch)
  = map (settledOf getPriceForDate params) batch.
Proof.
  unfold Trace.settlements, batchEvents. rewrite List.filter_app.
  assert (List.filter Trace.isSettled (map requestOf batch) = []) as ->.
  { induction batch as [|entry batch IH]; [done|]. simpl. by rewrite IH. }
  assert (List.filter Trace.isSettled
            (map (settledOf getPriceForDate params) batch)
          = map (settledOf getPriceForDate params) batch) as ->.
  { induction batch as [|entry batch IH]; [done|]. simpl. by rewrite IH. }
  done.
Qed.

Lemma requests_scheduleTrace (params : SearchParams)
    (batches : list (list (PriceDataPoint * nat))) :
  Trace.requests (scheduleTrace getPriceForDate params batches)
  = map requestOf (concat batches)
  ∧ Trace.settlements (scheduleTrace getPriceForDate params batches)
    = map (settledOf getPriceForDate params) (concat batches).
Proof.
  induction batches as [|batch rest [IHr IHs]]; [done|].
  cbn [scheduleTrace concat]. rewrite !map_app.
  unfold Trace.requests, Trace.settlements in *. rewrite !List.filter_app.
  fold (Trace.requests (batchEvents getPriceForDate params batch)).
  fold (Trace.settlements (batchEvents getPriceForDate params batch)).
  rewrite requests_batchEvents, settlements_batchEvents.
  destruct rest as [|next rest]; [done|].
  cbn [List.filter Trace.isRequest Trace.isSettled]. by rewrite IHr, IHs.
Qed.

(** Every date without offers is fetched exactly once, in date order, and
    each of these requests settles; dates that have offers are never
    fetched. *)
Lemma extractPriceData_fetches_gaps (flights : list Flight)
    (params : SearchParams) (out : list PriceDataPoint) (trace : list event) :
  extractPriceData parseISO getPriceForDate flights (Some params)
    = Some (Ok out, trace) →
  ∃ base,
    extractPriceData parseISO getPriceForDate flights None
      = Some (Ok base, [])
    ∧ Trace.requests trace
      = map requestOf (datesToFetch base)
    ∧ Trace.settlements trace
      = map (settledOf getPriceForDate params) (datesToFetch base).
Proof.
  intros Hrun.
  destruct (extractPriceData_context_inv _ _ _ _ _ _ Hrun) as (base & Hbase).
  destruct (extractPriceData_context parseISO getPriceForDate flights params
              base Hbase) as (batches & Hcat & _ & Hctx).
  rewrite Hctx in Hrun. injection Hrun as _ <-.
  exists base. split; [done|].
  destruct (requests_scheduleTrace params batches) as [-> ->].
  by rewrite Hcat.
Qed.

Lemma pauses_app (t1 t2 : list event) :
  Trace.pauses (t1 ++ t2) = (Trace.pauses t1 + Trace.pauses t2)%nat.
Proof. unfold Trace.pauses. by rewrite List.filter_app, length_app. Qed.

Lemma pauses_batchEvents (params : SearchParams)
    (batch : list (PriceDataPoint * nat)) :
  Trace.pauses (batchEvents getPriceForDate params batch) = 0%nat.
Proof.
  unfold batchEvents. rewrite pauses_app. unfold Trace.pauses.
  assert (∀ es, Forall (λ e, Trace.isPause e = false) es →
                length (List.filter Trace.isPause es) = 0%nat) as Hnone.
  { induction 1 as [|e es He _ IH]; [done|]. simpl. by rewrite He. }
  rewrite !Hnone; [done | |];
    apply Forall_forall; intros e He;
    apply list_elem_of_In, in_map_iff in He as (entry & <- & _); done.
Qed.

Lemma fetchBatches_pauses (fuel : nat) (params : SearchParams)
    (toFetch : list (PriceDataPoint * nat)) (i : nat)
    (allDates out : list PriceDataPoint) (trace trace' : list event) :
  fetchBatches getPriceForDate fuel params toFetch i allDates trace
    = Some (out, trace') →
  Trace.pauses trace'
  = (Trace.pauses trace + (length toFetch - i - 1) / BATCH_SIZE)%nat.
Proof.
  revert i allDates trace. induction fuel as [|fuel IH]; intros i allDates trace.
  - cbn [fetchBatches]. destruct (Nat.ltb_spec i (length toFetch)); [done|].
    intros [= _ <-]. replace (length toFetch - i - 1)%nat with 0%nat by lia.
    simpl. lia.
  - cbn [fetchBatches]. destruct (Nat.ltb_spec i (length toFetch)) as [Hlt|Hge].
    + intros Hrun. apply IH in Hrun. rewrite Hrun.
      destruct (Nat.ltb_spec (i + BATCH_SIZE) (length toFetch)) as [Hmore|Hlast].
      * rewrite !pauses_app, pauses_batchEvents.
        change (Trace.pauses [Pause 200]) with 1%nat.
        replace (length toFetch - i - 1)%nat
          with (length toFetch - (i + BATCH_SIZE) - 1 + 1 * BATCH_SIZE)%nat
          by (unfold BATCH_SIZE in *; lia).
        rewrite Nat.div_add by done. lia.
      * rewrite pauses_app, pauses_batchEvents.
        replace (length toFetch - (i + BATCH_SIZE) - 1)%nat with 0%nat by lia.
        rewrite (Nat.div_small (length toFetch - i - 1))
          by (unfold BATCH_SIZE in *; lia).
        simpl. lia.
    + intros [= _ <-]. replace (length toFetch - i - 1)%nat with 0%nat by lia.
      simpl. lia.
Qed.

(** X16: a run that fetches [g] dates pauses [(g - 1) / 5] times (never, when
    there is nothing to fetch): once between each two batches of five. *)
Theorem extractPriceData_pauses (flights : list Flight)
    (params : SearchParams) (out : list PriceDataPoint) (trace : list event) :
  extractPriceData parseISO getPriceForDate flights (Some params)
    = Some (Ok out, trace) →
  Trace.pauses trace = ((length (Trace.requests trace) - 1) / 5)%nat.
Proof.
  intros Hrun.
  destruct (extractPriceData_context_run _ _ _ _ Hrun)
    as (base & Hbase & _ & Hfetch).
  apply fetchBatches_pauses in Hfetch. rewrite Hfetch.
  destruct (extractPriceData_context parseISO getPriceForDate flights params
              base Hbase) as (batches & Hcat & _ & Hctx).
  rewrite Hctx in Hrun. injection Hrun as _ <-.
  destruct (requests_scheduleTrace params batches) as [-> _].
  rewrite Hcat, length_map. change (Trace.pauses []) with 0%nat.
  by rewrite Nat.add_0_l, Nat.sub_0_r.
Qed.

(** X17: gap fill touches nothing but the gaps: the dates of all points and the
    points that have a price from offers are as the range construction
    left them. *)
Theorem extractPriceData_keeps_known (flights : list Flight)
    (params : SearchParams) (out : list PriceDataPoint) (trace : list event) :
  extractPriceData parseISO getPriceForDate flights (Some params)
    = Some (Ok out, trace) →
  ∃ base,
    extractPriceData parseISO getPriceForDate flights None
      = Some (Ok base, [])
    ∧ map date out = map date base
    ∧ ∀ i point, base !! i = Some point → pd_price point ≠ None →
        out !! i = Some point.
Proof.
  intros Hrun.
  destruct (extractPriceData_context_run _ _ _ _ Hrun)
    as (base & Hbase & -> & _).
  exists base. split; [done|]. split.
  - rewrite map_map. apply map_ext. intros point.
    apply gapFilled_date.
  - intros i point Hi Hknown.
    change (map ?f ?l) with (f <$> l). rewrite list_lookup_fmap, Hi. simpl.
    destruct (pd_price point) as [known|] eqn:Hp; [|done].
    by rewrite (gapFilled_priced getPriceForDate params point known Hp).
Qed.

End AggregatorEvents.

Lemma extractPriceData_price_iff_count_witness :
  ∃ out trace point,
    extractPriceData parseISO_local SampleSource.pricesFor Sample.scenarioA
      (Some Sample.params) = Some (Ok out, trace)
    ∧ point ∈ out
    ∧ (pd_price point = None ↔ count point = 0%nat).
Proof.
  do 3 eexists. split; [vm_compute; reflexivity|].
  split; [apply list_elem_of_here|].
  eapply (extractPriceData_price_iff_count parseISO_local
            SampleSource.pricesFor Sample.scenarioA (Some Sample.params));
    [vm_compute; reflexivity | apply list_elem_of_here].
Defined.

Lemma extractPriceData_pauses_witness :
  ∃ out trace,
    extractPriceData parseISO_local SampleSource.pricesFor Sample.scenarioA
      (Some Sample.params) = Some (Ok out, trace)
    ∧ Trace.pauses trace = ((length (Trace.requests trace) - 1) / 5)%nat.
Proof.
  do 2 eexists. split; [vm_compute; reflexivity|].
  eapply (extractPriceData_pauses parseISO_local SampleSource.pricesFor
            Sample.scenarioA Sample.params).
  vm_compute. reflexivity.
Defined.

Lemma extractPriceData_keeps_known_witness :
  ∃ out trace,
    extractPriceData parseISO_local SampleSource.pricesFor Sample.scenarioA
      (Some Sample.params) = Some (Ok out, trace)
    ∧ ∃ base,
        extractPriceData parseISO_local SampleSource.pricesFor
          Sample.scenarioA None = Some (Ok base, [])
        ∧ map date out = map date base
        ∧ ∀ i point, base !! i = Some point → pd_price point ≠ None →
            out !! i = Some point.
Proof.
  do 2 eexists. split; [vm_compute; reflexivity|].
  eapply (extractPriceData_keeps_known parseISO_local SampleSource.pricesFor
            Sample.scenarioA Sample.params).
  vm_compute. reflexivity.
Defined.

(** ** The first point of the range, and dates without offers *)

Section RangeMore.

Variable parseISO : string → Date.
Variable getPriceForDate : string → string → string → number → FetchOutcome.

Lemma day_of_mono (a b : Z) : a ≤ b → day_of a ≤ day_of b.
Proof. unfold day_of, msPerDay. intros H. Z.div_mod_to_equations. lia. Qed.

(** X18: for a non-empty offer list, the first point of the returned
    sequence is on the calendar day of the earliest first departure, which
    is the departure day of an offer; that point has its price from the
    offers of the day, and a count of at least 1. *)
Theorem extractPriceData_first_point (flights : list Flight)
    (searchParams : option SearchParams) (out : list PriceDataPoint)
    (trace : list event) :
  extractPriceData parseISO getPriceForDate flights searchParams
    = Some (Ok out, trace) →
  flights ≠ [] →
  ∃ first offer earliest,
    head out = Some first
    ∧ offer ∈ flights
    ∧ departureTime parseISO offer = Some earliest
    ∧ Forall (λ other, ∃ t, departureTime parseISO other = Some t
                            ∧ earliest ≤ t) flights
    ∧ departureDay parseISO offer = Ok (date first)
    ∧ pd_price first
      = Some (averagePrice (offersOn parseISO (date first) flights))
    ∧ (1 ≤ count first)%nat.
Proof.
  intros Hrun Hne.
  destruct (extractPriceData_points _ _ _ _ _ _ Hrun Hne)
    as (base & Hrange & Hout).
  destruct (buildRange_cases parseISO flights Hne)
    as [(e & He) | (priceMap & ts & earliest & latest
                    & Hgroup & Hts & Hein & _ & Hbounds & Hpoints)];
    [congruence|].
  rewrite Hrange in Hpoints. injection Hpoints as ->.
  rewrite Forall_forall in Hbounds.
  apply list_elem_of_lookup in Hein as (i & Hi).
  destruct (Forall2_lookup_r _ _ _ _ _ Hts Hi)
    as (offer & Hoffer & Htime & Hday).
  pose proof (list_elem_of_lookup_2 _ _ _ Hoffer) as Hin.
  pose proof (proj2 (Hbounds earliest (list_elem_of_lookup_2 _ _ _ Hi)))
    as Hspan.
  assert (offersOn parseISO (format_day (day_of earliest)) flights ≠ [])
    as Hsome.
  { intros Hnone.
    assert (In offer (offersOn parseISO (format_day (day_of earliest))
                        flights)) as Hon.
    { apply filter_In. split; [by apply list_elem_of_In|].
      by apply departsOn_true. }
    by rewrite Hnone in Hon. }
  pose proof (groupPrices_offers parseISO _ _ _ Hgroup Hsome) as Hlookup.
  assert (0 < (latest + 5 * msPerDay - earliest) / msPerDay + 1) as Hlen
    by (unfold msPerDay; Z.div_mod_to_equations; lia).
  destruct (Z.to_nat ((latest + 5 * msPerDay - earliest) / msPerDay + 1))
    as [|n] eqn:Hn; [lia|].
  cbn [seq map] in Hout.
  assert (rangePoint priceMap earliest 0
          = {| date := format_day (day_of earliest);
               pd_price :=
                 Some (averagePrice
                         (offersOn parseISO (format_day (day_of earliest))
                            flights));
               count := length (offersOn parseISO
                                  (format_day (day_of earliest)) flights) |})
    as Hfirst.
  { unfold rangePoint. rewrite Z.mul_0_l, Z.add_0_r, Hlookup. done. }
  rewrite Hfirst in Hout.
  eexists _, offer, earliest. split.
  { destruct Hout as [-> | (params & ->)]; [done|].
    reflexivity. }
  cbn [date pd_price count].
  split; [done|]. split; [done|]. split; [|split; [done|split; [done|]]].
  - apply Forall_forall. intros other Hother.
    apply list_elem_of_lookup in Hother as (j & Hj).
    destruct (Forall2_lookup_l _ _ _ _ _ Hts Hj) as (t & Ht & Hdep & _).
    exists t. split; [done|].
    apply (Hbounds t (list_elem_of_lookup_2 _ _ _ Ht)).
  - destruct (offersOn parseISO _ flights); [done | simpl; lia].
Qed.

(** X19: without a search context, a point has no price exactly when no offer
    departs on its date. *)
Theorem extractPriceData_gap_iff_no_offers (flights : list Flight)
    (out : list PriceDataPoint) (trace : list event)
    (point : PriceDataPoint) :
  extractPriceData parseISO getPriceForDate flights None
    = Some (Ok out, trace) →
  point ∈ out →
  pd_price point = None ↔ offersOn parseISO (date point) flights = [].
Proof.
  intros Hrun Hin.
  apply extractPriceData_no_context in Hrun
    as (_ & [[_ ->] | [Hne Hrange]]).
  { by apply elem_of_nil in Hin. }
  destruct (buildRange_cases parseISO flights Hne)
    as [(e & He) | (priceMap & ts & earliest & latest
                    & Hgroup & _ & _ & _ & _ & Hpoints)];
    [congruence|].
  rewrite Hrange in Hpoints. injection Hpoints as ->.
  apply list_elem_of_In, in_map_iff in Hin as (k & <- & _).
  unfold rangePoint, pointOf. cbn [date pd_price].
  rewrite (groupPrices_lookup parseISO _ _ _ _ Hgroup), lookup_empty.
  unfold grouped.
  by destruct (offersOn parseISO _ flights).
Qed.

End RangeMore.

Lemma extractPriceData_first_point_witness :
  ∃ out trace,
    extractPriceData parseISO_local SampleSource.pricesFor
      Sample.lateThenEarly None = Some (Ok out, trace)
    ∧ Sample.lateThenEarly ≠ []
    ∧ ∃ first offer earliest,
        head out = Some first
        ∧ offer ∈ Sample.lateThenEarly
        ∧ departureTime parseISO_local offer = Some earliest
        ∧ Forall (λ other, ∃ t, departureTime parseISO_local other = Some t
                                ∧ earliest ≤ t) Sample.lateThenEarly
        ∧ departureDay parseISO_local offer = Ok (date first)
        ∧ pd_price first
          = Some (averagePrice
                    (offersOn parseISO_local (date first)
                       Sample.lateThenEarly))
        ∧ (1 ≤ count first)%nat.
Proof.
  do 2 eexists. split; [vm_compute; reflexivity|]. split; [done|].
  eapply (extractPriceData_first_point parseISO_local SampleSource.pricesFor
            Sample.lateThenEarly None); [vm_compute; reflexivity | done].
Defined.

Lemma extractPriceData_gap_iff_no_offers_witness :
  ∃ out trace point,
    extractPriceData parseISO_local SampleSource.pricesFor Sample.scenarioA
      None = Some (Ok out, trace)
    ∧ point ∈ out
    ∧ (pd_price point = None
       ↔ offersOn parseISO_local (date point) Sample.scenarioA = []).
Proof.
  do 3 eexists. split; [vm_compute; reflexivity|].
  split; [apply list_elem_of_further, list_elem_of_here|].
  eapply (extractPriceData_gap_iff_no_offers parseISO_local
            SampleSource.pricesFor Sample.scenarioA);
    [vm_compute; reflexivity | apply list_elem_of_further, list_elem_of_here].
Defined.

(** ** Token reuse, failed authentication and the retry of the search *)

Import AmadeusApiMore.

Lemma truthy_Some (s : option string) :
  truthy s = true → s = Some (default "" s).
Proof. by destruct s as [[|c rest]|]. Qed.

(** What getAccessToken raises is one of its two plain errors, never a
    response of the source. *)
Lemma getAccessToken_error (env : Env) (w w1 : World) (e : failure) :
  getAccessToken env w = (inr e, w1) →
  (e = notConfigured ∨ e = authFailed) ∧ gets w1 = gets w.
Proof.
  unfold getAccessToken.
  destruct (truthy (accessToken w) && _); [done|].
  destruct (negb (truthy (clientId env)) || _).
  { intros [= <- <-]. by split; [left|]. }
  destruct (tokenEndpoint env (posts w)) as [token expires_in|response].
  - destruct (truthy token); [done|]. intros [= <- <-]. by split; [right|].
  - intros [= <- <-]. by split; [right|].
Qed.

(** X20: a token handed out by the token endpoint is reused, without another
    POST, by a following call that reads a time before the time read at
    the fetch plus [(expires_in - 300) * 1000]; a call that reads that time
    or a later one makes a new POST. *)
Theorem getAccessToken_lifetime (env : Env) (w w1 : World)
    (token : string) (reply : option string) (expires_in : Z) :
  getAccessToken env w = (inl token, w1) →
  posts w1 = S (posts w) →
  tokenEndpoint env (posts w) = TokenOk reply expires_in →
  let expiry := clock env (readings w) + (expires_in - 300) * 1000 in
  (clock env (readings w1) < expiry →
   getAccessToken env w1 = (inl token, afterReading w1))
  ∧ (expiry ≤ clock env (readings w1) →
     posts (getAccessToken env w1).2 = S (posts w1)).
Proof.
  unfold getAccessToken at 1.
  destruct (truthy (accessToken w) && _).
  { intros [= <- <-]. simpl. lia. }
  destruct (negb (truthy (clientId env)) || negb (truthy (clientSecret env)))
    eqn:Hcreds; [done|].
  intros Hcall _ Hreply. rewrite Hreply in Hcall.
  destruct (truthy reply) eqn:Htoken; [|done].
  injection Hcall as <- <-. cbv zeta. unfold getAccessToken.
  cbn [accessToken tokenExpiry readings posts gets].
  rewrite Htoken, Hcreds. split.
  - intros Hbefore. apply Z.ltb_lt in Hbefore. by rewrite Hbefore.
  - intros Hafter. apply Z.ltb_ge in Hafter. rewrite Hafter.
    cbn [andb].
    by destruct (tokenEndpoint env (S (posts w))) as [t ex|r];
      [destruct (truthy t)|].
Qed.

Lemma getAccessToken_lifetime_witness :
  let expiry := clock SampleApi.twice401 (readings SampleApi.start)
                + (1800 - 300) * 1000 in
  (clock SampleApi.twice401 1 < expiry →
   getAccessToken SampleApi.twice401
     (getAccessToken SampleApi.twice401 SampleApi.start).2
   = (inl "token",
      afterReading (getAccessToken SampleApi.twice401 SampleApi.start).2))
  ∧ (expiry ≤ clock SampleApi.twice401 1 →
     posts (getAccessToken SampleApi.twice401
              (getAccessToken SampleApi.twice401 SampleApi.start).2).2
     = 2%nat).
Proof.
  apply (getAccessToken_lifetime SampleApi.twice401 SampleApi.start
           (getAccessToken SampleApi.twice401 SampleApi.start).2
           "token" (Some "token") 1800); reflexivity.
Defined.

(** X21: when no token can be had (credentials missing, or the token request
    fails or brings no token), neither call makes a GET or retries:
    [searchFlights] raises an [Error] with the general search message (the
    message of the authentication error is not passed on), and
    [getPriceForDate] returns null. *)
Theorem no_token_no_request (fuel : nat) (env : Env) (w w1 : World)
    (e : failure) (params : SearchParams)
    (origin destination day : string) (adults : number) :
  getAccessToken env w = (inr e, w1) →
  searchFlights (S fuel) env w params
    = Some (Throw (ErrorObj "Error" searchFailedMessage), w1)
  ∧ getPriceForDate (S fuel) env w origin destination day adults
    = Some (Ok None, w1)
  ∧ gets w1 = gets w.
Proof.
  intros Hauth. destruct (getAccessToken_error _ _ _ _ Hauth) as [He Hgets].
  cbn [searchFlights getPriceForDate]. unfold searchAttempt, priceAttempt.
  rewrite Hauth. by destruct He as [-> | ->].
Qed.

Lemma no_token_no_request_witness :
  searchFlights 1
    {| clock := λ _, 0; clientId := None; clientSecret := Some "secret";
       tokenEndpoint := λ _, TokenOk (Some "token") 1800;
       offersEndpoint := λ _, OffersOk None |}
    SampleApi.start Sample.params
  = Some (Throw (ErrorObj "Error" searchFailedMessage),
          afterReading SampleApi.start)
  ∧ getPriceForDate 1
      {| clock := λ _, 0; clientId := None; clientSecret := Some "secret";
         tokenEndpoint := λ _, TokenOk (Some "token") 1800;
         offersEndpoint := λ _, OffersOk None |}
      SampleApi.start "JFK" "LAX" "2024-06-02" (of_Z 1)
    = Some (Ok None, afterReading SampleApi.start)
  ∧ gets (afterReading SampleApi.start) = gets SampleApi.start.
Proof.
  apply (no_token_no_request 0 _ SampleApi.start
           (afterReading SampleApi.start) notConfigured).
  reflexivity.
Defined.

Lemma searchAttempt_reply (env : Env) (w : World) :
  canAuthenticate env →
  ∃ w1,
    gets w1 = S (gets w)
    ∧ (posts w ≤ posts w1)%nat
    ∧ (accessToken w = None → posts w1 = S (posts w))
    ∧ searchAttempt env w
      = (match offersEndpoint env (gets w) with
         | OffersOk data => inl (default [] data)
         | OffersFail response => inr (AxiosError response)
         end, w1).
Proof.
  intros Hauth. unfold searchAttempt.
  destruct (getAccessToken_ok env w Hauth)
    as (token & w0 & -> & Hgets & Hposts & Hfresh).
  rewrite Hgets. exists (afterGet w0). simpl.
  repeat split; [lia | done | done |].
  by destruct (offersEndpoint env (gets w)).
Qed.

Lemma search_status_401 (response : option Response) :
  bool_decide (responseStatus (AxiosError response) = Some 401)
  = unauthorized (OffersFail response).
Proof.
  destruct response as [[st errs]|]; simpl; [|done].
  destruct (Z.eqb_spec st 401) as [->|Hne]; simpl; [done|].
  rewrite bool_decide_false; [done | congruence].
Qed.

(** X22: the search retries a 401 like the price fetch does, with no bound:
    when the source answers 401 to [n] GETs in a row and then something
    else, [searchFlights] makes [n + 1] GETs, with a new token for each
    retry, and settles with what the last reply holds: its offers (none
    when the reply has no data), or an [Error] with the message made from
    the failed reply. *)
Theorem searchFlights_retries (env : Env) (n : nat) (reply : OffersReply)
    (w : World) (params : SearchParams) (fuel : nat) :
  canAuthenticate env →
  (∀ k, (k < n)%nat →
     unauthorized (offersEndpoint env (gets w + k)) = true) →
  offersEndpoint env (gets w + n) = reply →
  unauthorized reply = false →
  (n < fuel)%nat →
  ∃ w',
    searchFlights fuel env w params = Some (searchOfReply reply, w')
    ∧ gets w' = (gets w + n + 1)%nat
    ∧ (posts w + n ≤ posts w')%nat
    ∧ (accessToken w = None → posts w' = (posts w + n + 1)%nat).
Proof.
  intros Hauth. revert w fuel.
  induction n as [|n IH]; intros w fuel H401 Hreply Hnot Hfuel.
  - destruct fuel as [|fuel]; [lia|]. cbn [searchFlights].
    destruct (searchAttempt_reply env w Hauth)
      as (w1 & Hgets & Hposts & Hfresh & ->).
    rewrite Nat.add_0_r in Hreply. rewrite Hreply.
    exists w1. destruct reply as [data|response].
    + repeat split; [lia | lia | intros H; rewrite (Hfresh H); lia].
    + rewrite search_status_401, Hnot.
      repeat split; [lia | lia | intros H; rewrite (Hfresh H); lia].
  - destruct fuel as [|fuel]; [lia|]. cbn [searchFlights].
    destruct (searchAttempt_reply env w Hauth)
      as (w1 & Hgets & Hposts & Hfresh & ->).
    pose proof (H401 0%nat ltac:(lia)) as Hfirst.
    rewrite Nat.add_0_r in Hfirst.
    destruct (offersEndpoint env (gets w)) as [data|response]; [done|].
    rewrite search_status_401, Hfirst.
    destruct (IH (dropToken w1) fuel)
      as (w' & Hrun & Hgets' & Hposts' & Hfresh').
    + intros k Hk. simpl. rewrite Hgets.
      replace (S (gets w) + k)%nat with (gets w + S k)%nat by lia.
      apply H401. lia.
    + simpl. rewrite Hgets.
      by replace (S (gets w) + n)%nat with (gets w + S n)%nat by lia.
    + done.
    + lia.
    + exists w'. simpl in *. specialize (Hfresh' eq_refl).
      repeat split; [done | lia | lia | intros H; rewrite (Hfresh H) in *; lia].
Qed.

Lemma searchFlights_retries_witness :
  ∃ w',
    searchFlights 3 SampleApi.twice401 SampleApi.start Sample.params
      = Some (searchOfReply
                (OffersOk (Some [Sample.offer "1" "100"
                                   "2024-06-02T08:00:00" 0 ["AA"]])), w')
    ∧ gets w' = (gets SampleApi.start + 2 + 1)%nat
    ∧ (posts SampleApi.start + 2 ≤ posts w')%nat
    ∧ (accessToken SampleApi.start = None
       → posts w' = (posts SampleApi.start + 2 + 1)%nat).
Proof.
  apply (searchFlights_retries SampleApi.twice401 2).
  - split; [reflexivity|]. split; [reflexivity|].
    intros k. exists (Some "token"), 1800. by split.
  - intros k Hk. simpl.
    destruct k as [|[|k]]; [reflexivity | reflexivity | lia].
  - reflexivity.
  - reflexivity.
  - lia.
Defined.

(** ** The search handler and the price effect *)

Section AppFacts.

Import App AppMore.

Variable parseISO : string → Date.
Variable getPriceForDate : string → string → string → number → FetchOutcome.

Lemma filterFlights_noFilters (offers : list Flight) :
  filterFlights offers noFilters = offers.
Proof.
  unfold filterFlights. induction offers as [|offer offers IH]; [done|].
  simpl. by rewrite IH.
Qed.

Lemma length_eqb_0 {A} (l : list A) :
  (length l =? 0)%nat = negb (0 <? length l)%nat.
Proof. by destruct l. Qed.

(** A returned sequence for at least one offer has at least five
    points. *)
Lemma extractPriceData_five (offers : list Flight)
    (context : option SearchParams) (out : list PriceDataPoint)
    (trace : list event) :
  extractPriceData parseISO getPriceForDate offers context
    = Some (Ok out, trace) →
  offers ≠ [] → (5 ≤ length out)%nat.
Proof.
  intros Hrun Hne.
  destruct (extractPriceData_range parseISO getPriceForDate _ _ _ _ Hrun Hne)
    as (ts & earliest & latest & _ & Hein & _ & Hbounds & Hdates).
  rewrite Forall_forall in Hbounds.
  pose proof (day_of_mono _ _ (proj2 (Hbounds earliest Hein))) as Hdays.
  rewrite <- (length_map date out), Hdates, length_map, length_seq.
  destruct (_ <=? _); lia.
Qed.

(** X23: the state that the search handler leaves is a fixed point of the
    price effect: run on it, the effect computes the price series that is
    already there and changes nothing. *)
Theorem updatePriceData_after_handleSearch (searched : outcome (list Flight))
    (params : SearchParams) (s s' : State) :
  handleSearch parseISO getPriceForDate searched params s = Some s' →
  updatePriceData parseISO getPriceForDate s' = Some (s', None).
Proof.
  unfold handleSearch, updatePriceData, filteredFlights.
  destruct searched as [results|err].
  - destruct (0 <? length results)%nat eqn:Hsome.
    + unfold loadPrices.
      destruct (awaitPriceData parseISO getPriceForDate results (Some params))
        as [[data|e]|] eqn:Hdata; [| |done].
      * simpl. intros [= <-]. simpl.
        rewrite filterFlights_noFilters, length_eqb_0, Hsome. simpl.
        by rewrite Hdata.
      * simpl.
        destruct (awaitPriceData parseISO getPriceForDate results None)
          as [[basicData|e']|] eqn:Hbasic; [| |done].
        -- simpl. intros [= <-]. simpl.
           rewrite filterFlights_noFilters, length_eqb_0, Hsome. simpl.
           by rewrite Hdata, Hbasic.
        -- simpl. by intros [= <-].
    + intros [= <-]. simpl.
      rewrite filterFlights_noFilters, length_eqb_0, Hsome. done.
  - by intros [= <-].
Qed.

(** X24: when every offer of a successful search has a valid first departure,
    the handler keeps the offers, stores the gap-filled price series of the
    run with the search as context, and reports no error. *)
Theorem handleSearch_offers_valid (results : list Flight)
    (params : SearchParams) (s : State) :
  Forall (λ offer, is_Some (departureTime parseISO offer)) results →
  ∃ out trace s',
    extractPriceData parseISO getPriceForDate results (Some params)
      = Some (Ok out, trace)
    ∧ handleSearch parseISO getPriceForDate (Ok results) params s = Some s'
    ∧ flights s' = results
    ∧ priceData s' = out
    ∧ error s' = None
    ∧ loading s' = false
    ∧ (results ≠ [] → loadingPrices s' = false)
    ∧ filters s' = noFilters
    ∧ searchParams s' = Some params.
Proof.
  intros Hvalid.
  destruct (extractPriceData_returns parseISO getPriceForDate results
              (Some params) Hvalid) as (out & trace & Hrun).
  exists out, trace. unfold handleSearch, loadPrices, awaitPriceData.
  destruct results as [|offer rest].
  - rewrite extractPriceData_empty in Hrun. injection Hrun as <- <-.
    eexists. split; [done|]. split; [reflexivity|]. by repeat split.
  - cbn [length Nat.ltb Nat.leb]. rewrite Hrun. simpl.
    eexists. split; [done|]. split; [reflexivity|]. by repeat split.
Qed.

(** X25: when an offer of a successful search has no valid first departure, the
    aggregation raises twice, and the handler ends as after a failed
    search: the message of the exception as the error, no offers and no
    price series. *)
Theorem handleSearch_offer_invalid (results : list Flight) (offer : Flight)
    (params : SearchParams) (s : State) :
  offer ∈ results → departureTime parseISO offer = None →
  ∃ e s',
    extractPriceData parseISO getPriceForDate results None
      = Some (Throw e, [])
    ∧ handleSearch parseISO getPriceForDate (Ok results) params s = Some s'
    ∧ error s' = Some (errorMessage e)
    ∧ flights s' = []
    ∧ priceData s' = []
    ∧ loading s' = false
    ∧ loadingPrices s' = false.
Proof.
  intros Hin Hbad.
  destruct (extractPriceData_invalid parseISO getPriceForDate results offer
              Hin Hbad) as (e & Hraise).
  exists e. unfold handleSearch, loadPrices, awaitPriceData.
  destruct results as [|first rest]; [by apply elem_of_nil in Hin|].
  cbn [length Nat.ltb Nat.leb]. rewrite !Hraise. simpl.
  eexists. split; [done|]. split; [reflexivity|]. by repeat split.
Qed.

(** X26: after the effect has run without an exception, the price series is
    empty exactly when the filter leaves no offer. *)
Theorem updatePriceData_empty_iff (s s' : State) :
  updatePriceData parseISO getPriceForDate s = Some (s', None) →
  priceData s' = [] ↔ filteredFlights s = [].
Proof.
  unfold updatePriceData.
  destruct (filteredFlights s) as [|offer rest] eqn:Hfiltered.
  { intros [= <-]. done. }
  cbn [length Nat.eqb]. unfold awaitPriceData.
  assert (∀ context out trace,
            extractPriceData parseISO getPriceForDate (offer :: rest) context
              = Some (Ok out, trace) → out ≠ []) as Hfive.
  { intros context out trace Hrun ->.
    apply extractPriceData_five in Hrun; [simpl in Hrun; lia | done]. }
  destruct (extractPriceData parseISO getPriceForDate (offer :: rest)
              (searchParams s)) as [[[data|e] trace]|] eqn:Hdata; [| |done].
  - simpl. intros [= <-]. simpl. split; [|done].
    intros ->. exfalso. by eapply (Hfive _ _ _ Hdata).
  - simpl.
    destruct (extractPriceData parseISO getPriceForDate (offer :: rest) None)
      as [[[basicData|e'] trace']|] eqn:Hbasic; [| |done].
    + simpl. intros [= <-]. simpl. split; [|done].
      intros ->. exfalso. by eapply (Hfive _ _ _ Hbasic).
    + simpl. done.
Qed.

End AppFacts.

Lemma updatePriceData_after_handleSearch_witness :
  ∃ s',
    App.handleSearch parseISO_local SampleSource.pricesFor
      (Ok Sample.scenarioA) Sample.params App.initial = Some s'
    ∧ AppMore.updatePriceData parseISO_local SampleSource.pricesFor s'
      = Some (s', None).
Proof.
  eexists. split; [vm_compute; reflexivity|].
  eapply (updatePriceData_after_handleSearch parseISO_local
            SampleSource.pricesFor (Ok Sample.scenarioA) Sample.params
            App.initial).
  vm_compute. reflexivity.
Defined.

Lemma handleSearch_offers_valid_witness :
  ∃ out trace s',
    extractPriceData parseISO_local SampleSource.pricesFor Sample.scenarioA
      (Some Sample.params) = Some (Ok out, trace)
    ∧ App.handleSearch parseISO_local SampleSource.pricesFor
        (Ok Sample.scenarioA) Sample.params App.initial = Some s'
    ∧ App.flights s' = Sample.scenarioA
    ∧ App.priceData s' = out
    ∧ App.error s' = None
    ∧ App.loading s' = false
    ∧ (Sample.scenarioA ≠ [] → App.loadingPrices s' = false)
    ∧ App.filters s' = AppMore.noFilters
    ∧ App.searchParams s' = Some Sample.params.
Proof.
  apply (handleSearch_offers_valid parseISO_local SampleSource.pricesFor
           Sample.scenarioA Sample.params App.initial).
  repeat constructor; vm_compute; by eexists.
Defined.

Lemma handleSearch_offer_invalid_witness :
  ∃ e s',
    extractPriceData parseISO_local SampleSource.pricesFor
      [Sample.offer "1" "100" "soon" 0 ["AA"]] None = Some (Throw e, [])
    ∧ App.handleSearch parseISO_local SampleSource.pricesFor
        (Ok [Sample.offer "1" "100" "soon" 0 ["AA"]]) Sample.params
        App.initial = Some s'
    ∧ App.error s' = Some (App.errorMessage e)
    ∧ App.flights s' = []
    ∧ App.priceData s' = []
    ∧ App.loading s' = false
    ∧ App.loadingPrices s' = false.
Proof.
  apply (handleSearch_offer_invalid parseISO_local SampleSource.pricesFor
           [Sample.offer "1" "100" "soon" 0 ["AA"]]
           (Sample.offer "1" "100" "soon" 0 ["AA"])
           Sample.params App.initial).
  - apply list_elem_of_here.
  - vm_compute. reflexivity.
Defined.

Lemma updatePriceData_empty_iff_witness :
  ∃ s',
    AppMore.updatePriceData parseISO_local SampleSource.pricesFor
      (App.setFlights Sample.scenarioA App.initial) = Some (s', None)
    ∧ (App.priceData s' = []
       ↔ AppMore.filteredFlights (App.setFlights Sample.scenarioA App.initial)
         = []).
Proof.
  eexists. split; [vm_compute; reflexivity|].
  eapply (updatePriceData_empty_iff parseISO_local SampleSource.pricesFor).
  vm_compute. reflexivity.
Defined.

(** ** The filter panel *)

Import FiltersComponent.

Lemma gt_above (x top ceiling : number) :
  le x top = true → gt ceiling top = true → gt x ceiling = false.
Proof.
  destruct x, top, ceiling; simpl; try done.
  intros H1 H2. apply negb_true_iff in H2. apply negb_false_iff.
  apply Qle_bool_iff. q_order.
Qed.

(** X27: when the panel lowers a price ceiling that is above the highest price
    to that highest price, the filter keeps the same offers as before. *)
Theorem clampMaxPrice_keeps_offers (filters newFilters : Filters)
    (flights : list Flight) :
  clampMaxPrice filters flights = Some newFilters →
  filterFlights flights newFilters = filterFlights flights filters.
Proof.
  unfold clampMaxPrice.
  destruct (maxPrice filters) as [ceiling|] eqn:Hceiling; [|done].
  destruct (truthyNumber ceiling && _ && _) eqn:Hcond; [|done].
  intros [= <-].
  apply andb_true_iff in Hcond as [Hcond Hpositive].
  apply andb_true_iff in Hcond as [_ Habove].
  destruct flights as [|first rest] eqn:Hflights; [done|].
  rewrite <- Hflights in *.
  assert (priceRange flights
          = (Math_min (map total_price flights),
             Math_max (map total_price flights))) as Hrange
    by (by rewrite Hflights).
  rewrite Hrange in *. cbn [snd] in *.
  set (top := Math_max (map total_price flights)) in *.
  assert (Forall (λ y, y ≠ NaN) (map total_price flights)) as Hnum.
  { destruct (NaN_or_none (map total_price flights)) as [Hnan | Hnum];
      [|done].
    unfold top, Math_max in Hpositive.
    by rewrite foldl_max2_has_NaN in Hpositive. }
  unfold filterFlights. apply filter_ext_in. intros flight Hin.
  assert (le (total_price flight) top = true) as Hle.
  { apply Math_max_upper; [done|]. apply elem_of_prices.
    exists flight. by rewrite list_elem_of_In. }
  unfold keepFlight. cbn [stops maxPrice airlines]. rewrite Hceiling.
  change (parseFloat (total (price flight))) with (total_price flight).
  by rewrite (le_gt_false _ _ Hle), (gt_above _ _ _ Hle Habove).
Qed.

Lemma clampMaxPrice_keeps_offers_witness :
  filterFlights Sample.scenarioA
    {| stops := None; maxPrice := Some (of_Z 200); airlines := ["AA"] |}
  = filterFlights Sample.scenarioA
      {| stops := None; maxPrice := Some (of_Z 500); airlines := ["AA"] |}.
Proof.
  apply (clampMaxPrice_keeps_offers
           {| stops := None; maxPrice := Some (of_Z 500);
              airlines := ["AA"] |}).
  vm_compute. reflexivity.
Defined.

(** ** The pages of the result list *)

Section Pages.

Import FlightResults.

Context {A : Type}.

Lemma totalPages_div (flights : list A) :
  totalPages flights = (Z.of_nat (length flights) + 9) / 10.
Proof.
  unfold totalPages, ITEMS_PER_PAGE, Qceiling.
  set (n := Z.of_nat (length flights)).
  assert (- (inject_Z n / inject_Z 10) == (- n # 10))%Q as ->.
  { unfold Qdiv, Qinv, inject_Z, Qmult, Qopp, Qeq. simpl. lia. }
  unfold Qfloor. Z.div_mod_to_equations. lia.
Qed.

Lemma Array_slice_page (flights : list A) (k : nat) :
  Array_slice flights (Z.of_nat (10 * k)) (Z.of_nat (10 * k) + 10)
  = take 10 (drop (10 * k) flights).
Proof.
  unfold Array_slice.
  destruct (Z.ltb_spec (Z.of_nat (10 * k)) 0) as [|_]; [lia|].
  destruct (Z.ltb_spec (Z.of_nat (10 * k) + 10) 0) as [|_]; [lia|].
  destruct (Nat.le_gt_cases (length flights) (10 * k)) as [Hout | Hin].
  - rewrite !drop_ge by lia. by rewrite !take_nil.
  - replace (Z.to_nat (Z.min (Z.of_nat (10 * k)) (Z.of_nat (length flights))))
      with (10 * k)%nat by lia.
    destruct (Nat.le_gt_cases (10 * k + 10) (length flights)) as [Hfull | Hpart].
    + f_equal. lia.
    + rewrite !take_ge; [done | |]; rewrite length_drop; lia.
Qed.

Lemma paginatedFlights_page (flights : list A) (k : nat) :
  paginatedFlights flights (Z.of_nat (S k))
  = take 10 (drop (10 * k) flights).
Proof.
  unfold paginatedFlights, ITEMS_PER_PAGE.
  replace ((Z.of_nat (S k) - 1) * 10) with (Z.of_nat (10 * k)) by lia.
  apply Array_slice_page.
Qed.

Lemma pages_take (flights : list A) (n : nat) :
  concat (map (λ page, paginatedFlights flights (Z.of_nat page)) (seq 1 n))
  = take (10 * n) flights.
Proof.
  induction n as [|n IH]; [done|].
  rewrite seq_S, map_app, concat_app, IH. cbn [map concat Nat.add].
  rewrite app_nil_r, paginatedFlights_page.
  replace (10 * S n)%nat with (10 * n + 10)%nat by lia.
  by rewrite take_take_drop.
Qed.

(** X28: the pages 1 to [totalPages], one after the other, are the whole list:
    every offer is on exactly one page, in the order of the list. *)
Theorem pages_cover_list (flights : list A) :
  concat (map (λ page, paginatedFlights flights (Z.of_nat page))
            (seq 1 (Z.to_nat (totalPages flights))))
  = flights.
Proof.
  rewrite pages_take, totalPages_div. apply take_ge.
  Z.div_mod_to_equations. lia.
Qed.

(** X29: every page from 1 to [totalPages] shows between one and ten offers, as
    many as [displayRange] says: the offers numbered [start] to [end]. *)
Theorem page_size (flights : list A) (page : Z) :
  1 ≤ page ≤ totalPages flights →
  let shown := Z.of_nat (length (paginatedFlights flights page)) in
  1 ≤ shown ≤ 10
  ∧ shown = (displayRange flights page).2 - (displayRange flights page).1 + 1
  ∧ ∀ i, (i < length (paginatedFlights flights page))%nat →
      paginatedFlights flights page !! i
      = flights !! (Z.to_nat ((displayRange flights page).1 - 1) + i)%nat.
Proof.
  rewrite totalPages_div. intros Hpage. cbv zeta.
  replace page with (Z.of_nat (S (Z.to_nat (page - 1)))) by lia.
  set (k := Z.to_nat (page - 1)).
  assert (10 * Z.of_nat k < Z.of_nat (length flights)) as Hin
    by (unfold k; Z.div_mod_to_equations; lia).
  rewrite paginatedFlights_page. unfold displayRange, ITEMS_PER_PAGE.
  cbn [fst snd]. rewrite length_take, length_drop.
  split; [lia|]. split; [lia|].
  intros i Hi. rewrite lookup_take_lt by lia. rewrite lookup_drop.
  f_equal. lia.
Qed.

End Pages.

Lemma page_size_witness :
  let flights := seq 0 25 in
  let shown :=
    Z.of_nat (length (FlightResults.paginatedFlights flights 3)) in
  1 ≤ shown ≤ 10
  ∧ shown = (FlightResults.displayRange flights 3).2
            - (FlightResults.displayRange flights 3).1 + 1
  ∧ ∀ i, (i < length (FlightResults.paginatedFlights flights 3))%nat →
      FlightResults.paginatedFlights flights 3 !! i
      = flights !! (Z.to_nat ((FlightResults.displayRange flights 3).1 - 1)
                    + i)%nat.
Proof.
  apply (page_size (seq 0 25) 3). vm_compute. split; discriminate.
Defined.

(** ** The airport options *)

Section Options.

Import SearchForm.

Lemma addSuggestion_cases (combined : list AirportOption)
    (apiResult : AirportOption) :
  (iataCode apiResult ∈ map iataCode combined
   ∧ addSuggestion combined apiResult = combined)
  ∨ ((iataCode apiResult ∉ map iataCode combined)
     ∧ addSuggestion combined apiResult = combined ++ [apiResult]).
Proof.
  unfold addSuggestion.
  destruct (existsb _ combined) eqn:Hsome.
  - left. split; [|done].
    apply existsb_exists in Hsome as (item & Hin & Heq).
    apply String.eqb_eq in Heq. rewrite <- Heq.
    apply list_elem_of_In, in_map, Hin.
  - right. split; [|done]. intros Hin.
    apply list_elem_of_In, in_map_iff in Hin as (item & Heq & Hin).
    assert (existsb (λ item, String.eqb (iataCode item) (iataCode apiResult))
              combined = true) as Habs; [|congruence].
    apply existsb_exists. exists item. split; [done|].
    by apply String.eqb_eq.
Qed.

Lemma combinedOptions_spec (apiResults popular : list AirportOption) :
  ∃ added,
    combinedOptions popular apiResults = popular ++ added
    ∧ (∀ item, item ∈ added → item ∈ apiResults)
    ∧ (∀ item, item ∈ apiResults →
         iataCode item ∈ map iataCode (popular ++ added))
    ∧ (NoDup (map iataCode popular) →
       NoDup (map iataCode (popular ++ added))).
Proof.
  unfold combinedOptions. revert popular.
  induction apiResults as [|apiResult rest IH]; intros popular.
  - exists []. rewrite app_nil_r. repeat split; try done.
    intros item Hin. by apply elem_of_nil in Hin.
  - cbn [foldl].
    destruct (addSuggestion_cases popular apiResult) as [[Hin ->] | [Hnew ->]].
    + destruct (IH popular) as (added & Hrun & Hfrom & Hcover & Hdup).
      exists added. split; [done|]. split; [|split; [|done]].
      * intros item Hitem. by apply list_elem_of_further, Hfrom.
      * intros item Hitem. apply elem_of_cons in Hitem as [-> | Hitem];
          [|by apply Hcover].
        rewrite map_app. apply elem_of_app. by left.
    + destruct (IH (popular ++ [apiResult]))
        as (added & Hrun & Hfrom & Hcover & Hdup).
      exists (apiResult :: added).
      rewrite <- app_assoc in Hrun, Hcover, Hdup. cbn [app] in *.
      split; [done|]. split; [|split].
      * intros item Hitem. apply elem_of_cons in Hitem as [-> | Hitem];
          [apply list_elem_of_here | by apply list_elem_of_further, Hfrom].
      * intros item Hitem. apply elem_of_cons in Hitem as [-> | Hitem];
          [|by apply Hcover].
        rewrite map_app. apply elem_of_app. right. cbn [map].
        apply list_elem_of_here.
      * intros Hnodup. apply Hdup. rewrite map_app. cbn [map].
        apply NoDup_app. split; [done|]. split; [|apply NoDup_singleton].
        intros code Hcode Hsingle.
        apply list_elem_of_singleton in Hsingle as ->. done.
Qed.

(** X30: the combined options are the filtered popular airports, unchanged and
    first, followed by suggestions of the source; every suggestion's code
    is among the options; and no code occurs twice when none does among the
    popular airports. *)
Theorem combinedOptions_merge (popular apiResults : list AirportOption) :
  NoDup (map iataCode popular) →
  ∃ added,
    combinedOptions popular apiResults = popular ++ added
    ∧ (∀ item, item ∈ added → item ∈ apiResults)
    ∧ (∀ item, item ∈ apiResults →
         iataCode item ∈ map iataCode (combinedOptions popular apiResults))
    ∧ NoDup (map iataCode (combinedOptions popular apiResults)).
Proof.
  intros Hnodup.
  destruct (combinedOptions_spec apiResults popular)
    as (added & Hrun & Hfrom & Hcover & Hdup).
  exists added. rewrite Hrun. auto.
Qed.

End Options.

Lemma combinedOptions_merge_witness :
  let popular :=
    [ {| SearchForm.iataCode := "JFK";
         SearchForm.name := "New York (JFK)" |} ] in
  let apiResults :=
    [ {| SearchForm.iataCode := "JFK";
         SearchForm.name := "JOHN F KENNEDY INTL (JFK)" |};
      {| SearchForm.iataCode := "JFX";
         SearchForm.name := "JEFFERSON (JFX)" |} ] in
  ∃ added,
    SearchForm.combinedOptions popular apiResults = popular ++ added
    ∧ (∀ item, item ∈ added → item ∈ apiResults)
    ∧ (∀ item, item ∈ apiResults →
         SearchForm.iataCode item
         ∈ map SearchForm.iataCode
             (SearchForm.combinedOptions popular apiResults))
    ∧ NoDup (map SearchForm.iataCode
               (SearchForm.combinedOptions popular apiResults)).
Proof.
  apply combinedOptions_merge. apply NoDup_singleton.
Defined.
